(** * The Q-SYS QRC client of node-red-qsys: [NodeHandler] of the qsys-config node

    A shallow embedding of [src/nodes/qsys-config/qsys-config.ts] (and of its
    build [dist/nodes/qsys-config/qsys-config.js]): the frame decoder
    [receive], the request correlator inside [send], the connection handling
    of [getSocket] / [initSocket] / [closeSocket], the status fan-out and the
    hint table of [QSysApiError].

    The handler is event driven.  Its state is a record [handler]; every
    method and every event handler of the source is a function on that record,
    and the effects on the outside world (transports opened, bytes written,
    events emitted, promises settled) are appended to a trace. *)

From Stdlib Require Import ZArith QArith Qround Lia.
From Stdlib Require Import Strings.String Strings.Ascii Strings.Byte.
From Stdlib Require Import DecimalString.
From stdpp Require Import base option list gmap strings.

Local Open Scope string_scope.
Local Open Scope Z_scope.

(** ** JSON values, as [JSON.parse] returns them *)

(** A JS number is a double; [JNum q] carries its exact value (every finite
    double is a rational), and [===] on finite numbers is equality of values.
    A string is kept as the bytes of its UTF-8 text (a lone surrogate, which
    an escape of JSON can produce, as the three bytes of its number); its
    length and its characters are counted in UTF-16 code units, see [units]. *)
#[warnings="-register-all"]
Inductive json :=
| JNull
| JBool (b : bool)
| JNum (q : Q)
| JStr (s : string)
| JArr (items : list json)
| JObj (fields : list (string * json)).

(** A JS value that may be [undefined]: [None] is [undefined]. *)
Abbreviation jsval := (option json).

(** What a [throw] carries. *)
Inductive js_error :=
| JsSyntaxError                        (* thrown by JSON.parse *)
| JsTypeError                          (* a property read on null or undefined, [in] on a primitive *)
| JsError (message : string)           (* new Error(`...`) *)
| JsErrorOf (v : jsval)                (* new Error(v): the message is String(v) *)
| QSysApiError (code message : jsval). (* new QSysApiError(code, message) *)

(** The result of running a piece of JS: a value, or a thrown exception. *)
Inductive completion (A : Type) :=
| Normal (a : A)
| Throw (e : js_error).
Arguments Normal {A} a.
Arguments Throw {A} e.

Definition num (z : Z) : json := JNum (inject_Z z).

(** [fields[k]] of an object literal: JSON.parse keeps one value per key. *)
Fixpoint assoc (k : string) (fs : list (string * json)) : jsval :=
  match fs with
  | [] => None
  | (k', v) :: fs' => if String.eqb k k' then Some v else assoc k fs'
  end.

(** [o[k] = v] on an object under construction: an existing key keeps its
    place and takes the new value, a new key goes last. *)
Fixpoint obj_set (k : string) (v : json) (fs : list (string * json)) : list (string * json) :=
  match fs with
  | [] => [(k, v)]
  | (k', v') :: fs' => if String.eqb k k' then (k, v) :: fs' else (k', v') :: obj_set k v fs'
  end.

(** The decimal spelling of an array index. *)
Definition index_key (i : nat) : string := NilEmpty.string_of_uint (Nat.to_uint i).

Definition is_index_key (k : string) : option nat :=
  match NilEmpty.uint_of_string k with
  | Some u => let i := Nat.of_uint u in if String.eqb (index_key i) k then Some i else None
  | None => None
  end.

(** *** The code units of a string

    JS counts and indexes a string by UTF-16 code units.  A character up to
    U+FFFF, one to three bytes of UTF-8, is one unit; a character above, four
    bytes, is two units, a pair of surrogates. *)

Definition is_continuation (c : ascii) : bool :=
  let n := nat_of_ascii c in (128 <=? n)%nat && (n <? 192)%nat.

Definition starts_sequence (g : string) : bool :=
  match g with
  | String c _ => negb (is_continuation c)
  | EmptyString => false
  end.

(** The characters of a text: a byte that is no continuation byte starts
    one, and the continuation bytes behind it belong to it. *)
Fixpoint characters (s : string) : list string :=
  match s with
  | EmptyString => []
  | String c r =>
      match characters r with
      | g :: gs => if starts_sequence g then String c "" :: g :: gs else String c g :: gs
      | [] => [String c ""]
      end
  end.

(** A code unit of the range U+0800 to U+FFFF as a text of its own. *)
Definition unit_text (u : Z) : string :=
  let byte (n : Z) := ascii_of_nat (Z.to_nat n) in
  String (byte (224 + u / 4096))
    (String (byte (128 + (u / 64) mod 64)) (String (byte (128 + u mod 64)) "")).

(** The code units of one character: itself, or the two surrogates of a
    character of four bytes. *)
Definition units_of (g : string) : list string :=
  let bits (c : ascii) (m : Z) := Z.of_nat (nat_of_ascii c) mod m in
  match g with
  | String b0 (String b1 (String b2 (String b3 ""))) =>
      if (240 <=? nat_of_ascii b0)%nat then
        let cp := bits b0 8 * 262144 + bits b1 64 * 4096 + bits b2 64 * 64 + bits b3 64 in
        [unit_text (55296 + (cp - 65536) / 1024); unit_text (56320 + (cp - 65536) mod 1024)]
      else [g]
  | _ => [g]
  end.

Definition units (s : string) : list string := flat_map units_of (characters s).

(** [s[i]] *)
Definition char_at (s : string) (i : nat) : jsval :=
  match units s !! i with
  | Some u => Some (JStr u)
  | None => None
  end.

(** [v.k], for a property name [k] that the built-in prototypes do not define
    (the handler reads params, State, result, Changes, length, id, error, code,
    message and method). *)
Definition get (v : jsval) (k : string) : completion jsval :=
  match v with
  | None | Some JNull => Throw JsTypeError
  | Some (JObj fs) => Normal (assoc k fs)
  | Some (JArr l) =>
      if String.eqb k "length" then Normal (Some (num (Z.of_nat (length l))))
      else Normal (match is_index_key k with Some i => l !! i | None => None end)
  | Some (JStr s) =>
      if String.eqb k "length" then Normal (Some (num (Z.of_nat (length (units s)))))
      else Normal (match is_index_key k with Some i => char_at s i | None => None end)
  | Some (JBool _) | Some (JNum _) => Normal None
  end.

(** [v[i]] for a non-negative integer [i], on a value that is not null or
    undefined. *)
Definition get_index (v : json) (i : nat) : jsval :=
  match v with
  | JArr l => l !! i
  | JStr s => char_at s i
  | JObj fs => assoc (index_key i) fs
  | _ => None
  end.

(** [k in v]: throws on a primitive. *)
Definition has_property (k : string) (v : json) : completion bool :=
  match v with
  | JObj fs => Normal (bool_decide (is_Some (assoc k fs)))
  | JArr l =>
      Normal (String.eqb k "length"
              || match is_index_key k with Some i => bool_decide (i < length l)%nat | None => false end)
  | _ => Throw JsTypeError
  end.

(** [v === "text"] *)
Definition is_string (v : jsval) (text : string) : bool :=
  match v with
  | Some (JStr s) => String.eqb s text
  | _ => false
  end.

(** [v === n] for a number [n] *)
Definition is_number (v : jsval) (n : Z) : bool :=
  match v with
  | Some (JNum q) => Qeq_bool q (inject_Z n)
  | _ => false
  end.

(** The integer a value is, when it is a number with an integral value. *)
Definition as_integer (v : jsval) : option Z :=
  match v with
  | Some (JNum q) =>
      let r := Qred q in
      if Pos.eqb (Qden r) 1 then Some (Qnum r) else None
  | _ => None
  end.

(** Truthiness, as [if (v)] tests it. *)
Definition truthy (v : jsval) : bool :=
  match v with
  | None | Some JNull => false
  | Some (JBool b) => b
  | Some (JNum q) => negb (Qeq_bool q 0)
  | Some (JStr s) => negb (String.eqb s "")
  | Some (JArr _) | Some (JObj _) => true
  end.

(** ** A reference JSON reader

    [JSON.parse] belongs to the runtime; the handler below takes it as a
    parameter.  [json_parse] is a reader for the JSON grammar (RFC 8259) that
    instantiates the parameter in the examples: strings are kept as their
    UTF-8 bytes and a number literal as its exact decimal value. *)
Module Reader.

Definition is_ws (c : ascii) : bool :=
  match nat_of_ascii c with
  | 32%nat | 9%nat | 10%nat | 13%nat => true
  | _ => false
  end.

Fixpoint skip_ws (s : list ascii) : list ascii :=
  match s with
  | c :: r => if is_ws c then skip_ws r else s
  | [] => []
  end.

Definition digit (c : ascii) : option Z :=
  let n := Z.of_nat (nat_of_ascii c) in
  if (48 <=? n) && (n <=? 57) then Some (n - 48) else None.

Definition hex_digit (c : ascii) : option Z :=
  let n := Z.of_nat (nat_of_ascii c) in
  if (48 <=? n) && (n <=? 57) then Some (n - 48)
  else if (65 <=? n) && (n <=? 70) then Some (n - 55)
  else if (97 <=? n) && (n <=? 102) then Some (n - 87)
  else None.

(** a maximal run of digits: its value, how many there were, and the rest *)
Fixpoint digits (s : list ascii) (acc : Z) (count : nat) : Z * nat * list ascii :=
  match s with
  | c :: r =>
      match digit c with
      | Some d => digits r (10 * acc + d) (S count)
      | None => (acc, count, s)
      end
  | [] => (acc, count, [])
  end.

Definition pow10 (e : Z) : Q :=
  if 0 <=? e then inject_Z (10 ^ e) else Qmake 1 (Z.to_pos (10 ^ (- e))).

(** int frac? exp?, after an optional minus sign *)
Definition parse_number (s : list ascii) : option (json * list ascii) :=
  let '(neg, s1) := match s with
                    | "-"%char :: r => (true, r)
                    | _ => (false, s)
                    end in
  match s1 with
  | [] => None
  | c :: _ =>
      let '(ip, n, s2) := digits s1 0 0 in
      if (n =? 0)%nat then None
      else if Ascii.eqb c "0" && negb (n =? 1)%nat then None
      else
        let frac := match s2 with
                    | "."%char :: r =>
                        let '(fp, k, s3) := digits r 0 0 in
                        if (k =? 0)%nat then None else Some (fp, k, s3)
                    | _ => Some (0, 0%nat, s2)
                    end in
        match frac with
        | None => None
        | Some (fp, k, s3) =>
            let ex := match s3 with
                      | c' :: r =>
                          if Ascii.eqb c' "e" || Ascii.eqb c' "E" then
                            let '(sg, r') := match r with
                                             | "+"%char :: t => (1, t)
                                             | "-"%char :: t => (-1, t)
                                             | _ => (1, r)
                                             end in
                            let '(ev, m, s4) := digits r' 0 0 in
                            if (m =? 0)%nat then None else Some (sg * ev, s4)
                          else Some (0, s3)
                      | [] => Some (0, [])
                      end in
            match ex with
            | None => None
            | Some (e, s4) =>
                let mant := ip * 10 ^ Z.of_nat k + fp in
                let q := Qmult (inject_Z (if neg then - mant else mant)) (pow10 (e - Z.of_nat k)) in
                Some (JNum (Qred q), s4)
            end
        end
  end.

Definition byte_char (n : Z) : ascii := ascii_of_nat (Z.to_nat n).

(** the UTF-8 bytes of a code point *)
Definition utf8 (cp : Z) : list ascii :=
  if cp <? 128 then [byte_char cp]
  else if cp <? 2048 then [byte_char (192 + cp / 64); byte_char (128 + cp mod 64)]
  else if cp <? 65536 then
    [byte_char (224 + cp / 4096); byte_char (128 + (cp / 64) mod 64); byte_char (128 + cp mod 64)]
  else
    [byte_char (240 + cp / 262144); byte_char (128 + (cp / 4096) mod 64);
     byte_char (128 + (cp / 64) mod 64); byte_char (128 + cp mod 64)].

Definition hex4 (s : list ascii) : option (Z * list ascii) :=
  match s with
  | a :: b :: c :: d :: r =>
      match hex_digit a, hex_digit b, hex_digit c, hex_digit d with
      | Some x, Some y, Some z, Some w => Some (((x * 16 + y) * 16 + z) * 16 + w, r)
      | _, _, _, _ => None
      end
  | _ => None
  end.

(** the characters of a string literal, after its opening quote; a high
    surrogate escape followed by a low one is a single code point *)
Fixpoint parse_chars (fuel : nat) (s : list ascii) (acc : list ascii) : option (string * list ascii) :=
  match fuel with
  | O => None
  | S fuel' =>
      match s with
      | [] => None
      | c :: r =>
          if Ascii.eqb c (ascii_of_nat 34) then Some (string_of_list_ascii (rev acc), r)
          else if Ascii.eqb c "\" then
            match r with
            | [] => None
            | e :: r' =>
                let simple (b : Z) := parse_chars fuel' r' (byte_char b :: acc) in
                if Ascii.eqb e (ascii_of_nat 34) then simple 34
                else if Ascii.eqb e "\" then simple 92
                else if Ascii.eqb e "/" then simple 47
                else if Ascii.eqb e "b" then simple 8
                else if Ascii.eqb e "f" then simple 12
                else if Ascii.eqb e "n" then simple 10
                else if Ascii.eqb e "r" then simple 13
                else if Ascii.eqb e "t" then simple 9
                else if Ascii.eqb e "u" then
                  match hex4 r' with
                  | None => None
                  | Some (hi, r2) =>
                      let single := parse_chars fuel' r2 (rev (utf8 hi) ++ acc) in
                      if (55296 <=? hi) && (hi <? 56320) then
                        match r2 with
                        | "\"%char :: "u"%char :: r3 =>
                            match hex4 r3 with
                            | Some (lo, r4) =>
                                if (56320 <=? lo) && (lo <? 57344) then
                                  parse_chars fuel' r4
                                    (rev (utf8 (65536 + (hi - 55296) * 1024 + (lo - 56320))) ++ acc)
                                else single
                            | None => single
                            end
                        | _ => single
                        end
                      else single
                  end
                else None
            end
          else if (nat_of_ascii c <? 32)%nat then None
          else parse_chars fuel' r (c :: acc)
      end
  end.

Definition expect (word : string) (v : json) (s : list ascii) : option (json * list ascii) :=
  let w := list_ascii_of_string word in
  if bool_decide (take (length w) s = w) then Some (v, drop (length w) s) else None.

(** A value, then the elements of an array after its first one ([acc] holds
    the earlier ones, last first), then the members of an object likewise:
    one function, told by [mode] which of the three it continues. *)
Inductive mode :=
| Value
| Elements (acc : list json)
| Members (acc : list (string * json)).

Fixpoint parse (fuel : nat) (m : mode) (s : list ascii) : option (json * list ascii) :=
  match fuel with
  | O => None
  | S fuel' =>
      let member (acc : list (string * json)) (s0 : list ascii) :=
        match skip_ws s0 with
        | c :: r =>
            if Ascii.eqb c (ascii_of_nat 34) then
              match parse_chars (S (length r)) r [] with
              | Some (k, r1) =>
                  match skip_ws r1 with
                  | ":"%char :: r2 =>
                      match parse fuel' Value r2 with
                      | Some (v, r3) => parse fuel' (Members (obj_set k v acc)) r3
                      | None => None
                      end
                  | _ => None
                  end
              | None => None
              end
            else None
        | [] => None
        end in
      match m with
      | Value =>
          match skip_ws s with
          | [] => None
          | c :: r =>
              if Ascii.eqb c "{" then
                match skip_ws r with
                | "}"%char :: r' => Some (JObj [], r')
                | _ => member [] r
                end
              else if Ascii.eqb c "[" then
                match skip_ws r with
                | "]"%char :: r' => Some (JArr [], r')
                | _ =>
                    match parse fuel' Value r with
                    | Some (v, r1) => parse fuel' (Elements [v]) r1
                    | None => None
                    end
                end
              else if Ascii.eqb c (ascii_of_nat 34) then
                match parse_chars (S (length r)) r [] with
                | Some (t, r') => Some (JStr t, r')
                | None => None
                end
              else if Ascii.eqb c "t" then expect "true" (JBool true) (c :: r)
              else if Ascii.eqb c "f" then expect "false" (JBool false) (c :: r)
              else if Ascii.eqb c "n" then expect "null" JNull (c :: r)
              else parse_number (c :: r)
          end
      | Elements acc =>
          match skip_ws s with
          | "]"%char :: r => Some (JArr (rev acc), r)
          | ","%char :: r =>
              match parse fuel' Value r with
              | Some (v, r1) => parse fuel' (Elements (v :: acc)) r1
              | None => None
              end
          | _ => None
          end
      | Members acc =>
          match skip_ws s with
          | "}"%char :: r => Some (JObj acc, r)
          | ","%char :: r => member acc r
          | _ => None
          end
      end
  end.

(** [JSON.parse(text)]: one value, white space around it, nothing else;
    [None] is the SyntaxError. *)
Definition json_parse (text : string) : option json :=
  let s := list_ascii_of_string text in
  match parse (S (S (length s))) Value s with
  | Some (v, r) => match skip_ws r with [] => Some v | _ => None end
  | None => None
  end.

End Reader.

(** Test text is written with apostrophes where JSON has double quotes. *)
Definition dq (s : string) : string :=
  string_of_list_ascii
    (map (fun c => if Ascii.eqb c "'" then ascii_of_nat 34 else c) (list_ascii_of_string s)).


(** ** The state of a handler *)

(** A [net.Socket] object, named by the order in which [connect()] returned
    them.  [initSocket] makes one promise and one socket per attempt, so the
    same number names the attempt and its promise. *)
Definition sock := nat.
Bind Scope nat_scope with sock.

Inductive Status := Idle | Active | Standby | Error | Inactive | Connected.

(** How a promise was settled. *)
Inductive settlement (A : Type) :=
| Fulfilled (a : A)
| Rejected (e : js_error).
Arguments Fulfilled {A} a.
Arguments Rejected {A} e.

Abbreviation outcome := (settlement json).
Abbreviation attempt_outcome := (settlement sock).

(** [Partial<QsysMessage>]: every field may be absent. *)
Module QsysMessage.
Record t := {
  jsonrpc : option string;
  method : option string;
  id : option Z;
  params : jsval
}.
End QsysMessage.

Record Config := {
  host : string;
  authentication : option Z  (* 0 | 1 | undefined *)
}.

(** The closure that [send] registers: the listener and the timer share
    [input.id] and the promise.  [rq_then] is the reaction attached to the
    returned promise inside the handler: the then/catch of the ready handler
    names its socket, any other caller is outside. *)
Record request := {
  rq_id : Z;
  rq_promise : nat;
  rq_then : option sock
}.

(** A call of [send] suspended at [await this.getSocket()]. *)
Record suspended := {
  sp_attempt : sock;
  sp_input : QsysMessage.t;
  sp_id : Z;
  sp_promise : nat
}.

Inductive effect :=
| Connect (s : sock)                 (* connect({host, port, ...}) returned s *)
| Destroy (s : sock)                 (* s.destroy() *)
| Write (s : sock) (frame : list byte)
| SetTimeout (promise : nat) (ms : Z)
| ClearTimeout (promise : nat)
| SetInterval (ms : Z)
| ClearInterval
| StatusCallback (nodeId : string) (socket : option sock) (status : Status) (error : option js_error)
| NodeError (e : js_error)           (* this.node.error(err.message) *)
| NodeErrorMessage (message : string)
| NodeDebug (message : string)
| Emit_ready                         (* this.node.emit("ready") *)
| Emit_rx (change : jsval)           (* this.node.emit("rx", change) *)
| Emit_package (obj : json).         (* this.node.emit("package", obj) *)

Record handler := {
  socket : option sock;  (* this.socket *)
  noOpIntervalId : bool;  (* this.noOpIntervalId is set *)
  statusCallbacks : list string;  (* the keys of this.statusCallbacks, in insertion order *)
  connectionPromise : option sock;  (* this.connectionPromise, named by the socket of its attempt *)
  lastId : Z;  (* the module's lastId *)
  listeners : list request;  (* the package listeners of the node, in registration order *)
  timeouts : list request;  (* the armed timers of send *)
  settled : gmap nat outcome;  (* the promises of send that are settled *)
  attempts : gmap sock attempt_outcome;  (* the connection promises that are settled *)
  waiting : list suspended;  (* the calls of send suspended at await this.getSocket() *)
  sockets : nat;  (* how many sockets connect() has returned *)
  promises : nat;  (* how many promises send has returned *)
  reactions : list (sock * outcome);  (* microtasks: then/catch of the ready handler *)
  resumptions : list (suspended * attempt_outcome);  (* microtasks: calls of send to resume *)
  trace : list effect  (* the effects so far, oldest first *)
}.

(** Assignment to one field. *)
Definition set_socket (v : option sock) (h : handler) : handler :=
  {| socket := v; noOpIntervalId := noOpIntervalId h; statusCallbacks := statusCallbacks h;
     connectionPromise := connectionPromise h; lastId := lastId h; listeners := listeners h;
     timeouts := timeouts h; settled := settled h; attempts := attempts h;
     waiting := waiting h; sockets := sockets h; promises := promises h;
     reactions := reactions h; resumptions := resumptions h; trace := trace h |}.

Definition set_noOpIntervalId (v : bool) (h : handler) : handler :=
  {| socket := socket h; noOpIntervalId := v; statusCallbacks := statusCallbacks h;
     connectionPromise := connectionPromise h; lastId := lastId h; listeners := listeners h;
     timeouts := timeouts h; settled := settled h; attempts := attempts h;
     waiting := waiting h; sockets := sockets h; promises := promises h;
     reactions := reactions h; resumptions := resumptions h; trace := trace h |}.

Definition set_statusCallbacks (v : list string) (h : handler) : handler :=
  {| socket := socket h; noOpIntervalId := noOpIntervalId h; statusCallbacks := v;
     connectionPromise := connectionPromise h; lastId := lastId h; listeners := listeners h;
     timeouts := timeouts h; settled := settled h; attempts := attempts h;
     waiting := waiting h; sockets := sockets h; promises := promises h;
     reactions := reactions h; resumptions := resumptions h; trace := trace h |}.

Definition set_connectionPromise (v : option sock) (h : handler) : handler :=
  {| socket := socket h; noOpIntervalId := noOpIntervalId h;
     statusCallbacks := statusCallbacks h; connectionPromise := v; lastId := lastId h;
     listeners := listeners h; timeouts := timeouts h; settled := settled h;
     attempts := attempts h; waiting := waiting h; sockets := sockets h;
     promises := promises h; reactions := reactions h; resumptions := resumptions h;
     trace := trace h |}.

Definition set_lastId (v : Z) (h : handler) : handler :=
  {| socket := socket h; noOpIntervalId := noOpIntervalId h;
     statusCallbacks := statusCallbacks h; connectionPromise := connectionPromise h;
     lastId := v; listeners := listeners h; timeouts := timeouts h; settled := settled h;
     attempts := attempts h; waiting := waiting h; sockets := sockets h;
     promises := promises h; reactions := reactions h; resumptions := resumptions h;
     trace := trace h |}.

Definition set_listeners (v : list request) (h : handler) : handler :=
  {| socket := socket h; noOpIntervalId := noOpIntervalId h;
     statusCallbacks := statusCallbacks h; connectionPromise := connectionPromise h;
     lastId := lastId h; listeners := v; timeouts := timeouts h; settled := settled h;
     attempts := attempts h; waiting := waiting h; sockets := sockets h;
     promises := promises h; reactions := reactions h; resumptions := resumptions h;
     trace := trace h |}.

Definition set_timeouts (v : list request) (h : handler) : handler :=
  {| socket := socket h; noOpIntervalId := noOpIntervalId h;
     statusCallbacks := statusCallbacks h; connectionPromise := connectionPromise h;
     lastId := lastId h; listeners := listeners h; timeouts := v; settled := settled h;
     attempts := attempts h; waiting := waiting h; sockets := sockets h;
     promises := promises h; reactions := reactions h; resumptions := resumptions h;
     trace := trace h |}.

Definition set_settled (v : gmap nat outcome) (h : handler) : handler :=
  {| socket := socket h; noOpIntervalId := noOpIntervalId h;
     statusCallbacks := statusCallbacks h; connectionPromise := connectionPromise h;
     lastId := lastId h; listeners := listeners h; timeouts := timeouts h; settled := v;
     attempts := attempts h; waiting := waiting h; sockets := sockets h;
     promises := promises h; reactions := reactions h; resumptions := resumptions h;
     trace := trace h |}.

Definition set_attempts (v : gmap sock attempt_outcome) (h : handler) : handler :=
  {| socket := socket h; noOpIntervalId := noOpIntervalId h;
     statusCallbacks := statusCallbacks h; connectionPromise := connectionPromise h;
     lastId := lastId h; listeners := listeners h; timeouts := timeouts h;
     settled := settled h; attempts := v; waiting := waiting h; sockets := sockets h;
     promises := promises h; reactions := reactions h; resumptions := resumptions h;
     trace := trace h |}.

Definition set_waiting (v : list suspended) (h : handler) : handler :=
  {| socket := socket h; noOpIntervalId := noOpIntervalId h;
     statusCallbacks := statusCallbacks h; connectionPromise := connectionPromise h;
     lastId := lastId h; listeners := listeners h; timeouts := timeouts h;
     settled := settled h; attempts := attempts h; waiting := v; sockets := sockets h;
     promises := promises h; reactions := reactions h; resumptions := resumptions h;
     trace := trace h |}.

Definition set_sockets (v : nat) (h : handler) : handler :=
  {| socket := socket h; noOpIntervalId := noOpIntervalId h;
     statusCallbacks := statusCallbacks h; connectionPromise := connectionPromise h;
     lastId := lastId h; listeners := listeners h; timeouts := timeouts h;
     settled := settled h; attempts := attempts h; waiting := waiting h; sockets := v;
     promises := promises h; reactions := reactions h; resumptions := resumptions h;
     trace := trace h |}.

Definition set_promises (v : nat) (h : handler) : handler :=
  {| socket := socket h; noOpIntervalId := noOpIntervalId h;
     statusCallbacks := statusCallbacks h; connectionPromise := connectionPromise h;
     lastId := lastId h; listeners := listeners h; timeouts := timeouts h;
     settled := settled h; attempts := attempts h; waiting := waiting h; sockets := sockets h;
     promises := v; reactions := reactions h; resumptions := resumptions h;
     trace := trace h |}.

Definition set_reactions (v : list (sock * outcome)) (h : handler) : handler :=
  {| socket := socket h; noOpIntervalId := noOpIntervalId h;
     statusCallbacks := statusCallbacks h; connectionPromise := connectionPromise h;
     lastId := lastId h; listeners := listeners h; timeouts := timeouts h;
     settled := settled h; attempts := attempts h; waiting := waiting h; sockets := sockets h;
     promises := promises h; reactions := v; resumptions := resumptions h; trace := trace h |}.

Definition set_resumptions (v : list (suspended * attempt_outcome)) (h : handler) : handler :=
  {| socket := socket h; noOpIntervalId := noOpIntervalId h;
     statusCallbacks := statusCallbacks h; connectionPromise := connectionPromise h;
     lastId := lastId h; listeners := listeners h; timeouts := timeouts h;
     settled := settled h; attempts := attempts h; waiting := waiting h; sockets := sockets h;
     promises := promises h; reactions := reactions h; resumptions := v; trace := trace h |}.

Definition set_trace (v : list effect) (h : handler) : handler :=
  {| socket := socket h; noOpIntervalId := noOpIntervalId h;
     statusCallbacks := statusCallbacks h; connectionPromise := connectionPromise h;
     lastId := lastId h; listeners := listeners h; timeouts := timeouts h;
     settled := settled h; attempts := attempts h; waiting := waiting h; sockets := sockets h;
     promises := promises h; reactions := reactions h; resumptions := resumptions h;
     trace := v |}.

Definition log (e : effect) (h : handler) : handler := set_trace (trace h ++ [e]) h.

(** A handler just constructed. *)
Definition new_handler : handler :=
  {| socket := None; noOpIntervalId := false; statusCallbacks := [];
     connectionPromise := None; lastId := 0; listeners := []; timeouts := [];
     settled := ∅; attempts := ∅; waiting := []; sockets := 0; promises := 0;
     reactions := []; resumptions := []; trace := [] |}.

(** Code that changes the handler and may throw. *)
Definition M (A : Type) : Type := handler -> handler * completion A.

Definition ret {A} (a : A) : M A := fun h => (h, Normal a).

Definition bind {A B} (m : M A) (k : A -> M B) : M B :=
  fun h =>
    match m h with
    | (h', Normal a) => k a h'
    | (h', Throw e) => (h', Throw e)
    end.

Definition lift {A} (c : completion A) : M A := fun h => (h, c).

Definition act (f : handler -> handler) : M unit := fun h => (f h, Normal tt).

Notation "'let*' x ':=' m 'in' k" := (bind m (fun x => k))
  (at level 10, x name, m at level 100, k at level 200).
Notation "m ';;' k" := (bind m (fun _ => k))
  (at level 100, k at level 200, right associativity).

(** ** QSysApiError.hint *)

Definition hint (code : jsval) : string :=
  match as_integer code with
  | Some (-32700) => "Parse error. Invalid JSON was received by the server."
  | Some (-32600) => "Invalid request. The JSON sent is not a valid Request object."
  | Some (-32601) => "Method not found."
  | Some (-32602) => "Invalid params."
  | Some (-32603) => "Server error."
  | Some (-32604) =>
      "Core is on Standby. This code is returned when a QRC command is received while the Core is not the active Core in a redundant Core configuration."
  | Some 2 => "Invalid Page Request ID"
  | Some 3 => "Bad Page Request - could not create the requested Page Request"
  | Some 4 => "Missing file"
  | Some 5 => "Change Groups exhausted"
  | Some 6 => "Unknown change croup"
  | Some 7 => "Unknown component name"
  | Some 8 => "Unknown control"
  | Some 9 => "Illegal mixer channel index"
  | Some 10 => "Logon required"
  | _ => "Unknown Error"
  end.

(** The hint of a thrown value: only a [QSysApiError] has one. *)
Definition hint_of (e : js_error) : option string :=
  match e with
  | QSysApiError code _ => Some (hint code)
  | _ => None
  end.

(** ** NodeHandler *)

(** The two revisions of [send] in the repository. *)
Inductive revision :=
| Correlator  (* src/nodes/qsys-config/qsys-config.ts: the listener resolves with the response *)
| ApiError.   (* dist/nodes/qsys-config/qsys-config.js: an error response rejects with a QSysApiError *)

Section NodeHandler.

(** The runtime: [JSON.parse] ([None] is the SyntaxError), [JSON.stringify]
    and the conversion [ToNumber] of a value that is not a number ([None] is
    NaN). *)
Variable JSON_parse : string -> option json.
Variable JSON_stringify : QsysMessage.t -> string.
Variable ToNumber : json -> option Q.

Variable version : revision.

(** [this.config], [this.node.name], [this.node.credentials], and the [host]
    and [port] that [initSocket] takes from [config.host], as they print. *)
Variable config : Config.
Variable name : string.
Variables username password : option string.
Variables target_host target_port : string.

Definition authentication_enabled : bool :=
  match authentication config with
  | Some z => negb (z =? 0)
  | None => false
  end.

Definition quote : string := String (ascii_of_nat 34) EmptyString.

(** *** closeSocket, updateStatus and the status registry *)

(** [socket?.destroy(); socket = undefined]: the assignment is to the
    parameter. *)
Definition closeSocket (s : option sock) (h : handler) : handler :=
  match s with
  | Some x => log (Destroy x) h
  | None => h
  end.

Definition updateStatus (status : Status) (error : option js_error) (h : handler) : handler :=
  fold_left (fun h' nodeId => log (StatusCallback nodeId (socket h') status error) h')
            (statusCallbacks h) h.

Definition registerStatusCallback (nodeId : string) (h : handler) : handler :=
  if bool_decide (nodeId ∈ statusCallbacks h) then h
  else set_statusCallbacks (statusCallbacks h ++ [nodeId]) h.

Definition unregisterStatusCallback (nodeId : string) (h : handler) : handler :=
  if bool_decide (nodeId ∈ statusCallbacks h)
  then set_statusCallbacks (filter (fun k => k ≠ nodeId) (statusCallbacks h)) h
  else h.

(** *** Promises *)

(** [resolve] or [reject] of the promise of a request: nothing happens when
    it is settled already; otherwise the reaction attached to it is queued. *)
Definition settle (p : nat) (reaction : option sock) (o : outcome) (h : handler) : handler :=
  match settled h !! p with
  | Some _ => h
  | None =>
      let h := set_settled (<[p := o]> (settled h)) h in
      match reaction with
      | Some s => set_reactions (reactions h ++ [(s, o)]) h
      | None => h
      end
  end.

(** [resolve] or [reject] of the connection promise of attempt [s]: the
    calls of [send] that await it are queued to resume. *)
Definition settle_attempt (s : sock) (o : attempt_outcome) (h : handler) : handler :=
  match attempts h !! s with
  | Some _ => h
  | None =>
      let mine := filter (fun w => sp_attempt w = s) (waiting h) in
      let others := filter (fun w => sp_attempt w ≠ s) (waiting h) in
      set_resumptions (resumptions h ++ map (fun w => (w, o)) mine)
        (set_waiting others (set_attempts (<[s := o]> (attempts h)) h))
  end.

(** *** initSocket: handleReject, handleResolve, getSocket *)

Definition handleReject (s : sock) (error : js_error) (h : handler) : handler :=
  let h := set_connectionPromise None h in
  let h := updateStatus Error (Some error) h in
  settle_attempt s (Rejected error) h.

Definition handleResolve (s : sock) (h : handler) : handler :=
  let h := match socket h with
           | Some current => closeSocket (Some current) h
           | None => h
           end in
  let h := set_socket (Some s) h in
  let h := set_connectionPromise None h in
  let h := updateStatus Connected None h in
  settle_attempt s (Fulfilled s) h.

(** The promise [initSocket] returns, named by its attempt.  A new attempt
    opens a socket; its event handlers are the cases of [handle] below. *)
Definition initSocket (h : handler) : handler * sock :=
  match connectionPromise h with
  | Some attempt => (h, attempt)
  | None =>
      let s := sockets h in
      let h := set_connectionPromise (Some s) h in
      let h := log (Connect s) (set_sockets (S s) h) in
      let h := if noOpIntervalId h then h
               else log (SetInterval (30 * 1000)) (set_noOpIntervalId true h) in
      (h, s)
  end.

(** What [getSocket] returns: a promise resolved with a socket, or the
    promise of an attempt. *)
Inductive awaited :=
| Now (s : sock)
| Later (attempt : sock).

Definition getSocket (h : handler) : handler * awaited :=
  match socket h with
  | Some s => (h, Now s)
  | None => let '(h', attempt) := initSocket h in (h', Later attempt)
  end.

(** *** send *)

Definition encapsulate (input : QsysMessage.t) : list byte :=
  list_byte_of_string (JSON_stringify input) ++ [x00].

(** [n + 1] on doubles, for an integer [n]: exact up to 2^53; from there on
    the sum is rounded to the nearest double, and to the one with the even
    mantissa when it lies half way between two, so that 2^53 + 1 is 2^53. *)
Definition increment (n : Z) : Z :=
  if (- 2 ^ 53 <=? n) && (n <? 2 ^ 53) then n + 1
  else if (- 2 ^ 54 <? n) && (n <? 2 ^ 54) then (if n mod 4 =? 0 then n else n + 2)
  else n.

(** [return lastId++] *)
Definition reserveId (h : handler) : handler * Z :=
  (set_lastId (increment (lastId h)) h, lastId h).

Definition timeout_error : js_error :=
  JsError ("Q-SYS device " ++ quote ++ name ++ quote ++ " did not respond within 10 seconds.").

(** The listener of a request, called with an emitted package. *)
Definition listener (rq : request) (data : json) : M unit :=
  let* i := lift (get (Some data) "id") in
  if is_number i (rq_id rq) then
    act (fun h => log (ClearTimeout (rq_promise rq))
                    (set_timeouts (filter (fun r => rq_promise r ≠ rq_promise rq) (timeouts h)) h)) ;;
    act (fun h => set_listeners (filter (fun r => rq_promise r ≠ rq_promise rq) (listeners h)) h) ;;
    match version with
    | Correlator => act (settle (rq_promise rq) (rq_then rq) (Fulfilled data))
    | ApiError =>
        let* error := lift (get (Some data) "error") in
        match error with
        | Some _ =>
            let* code := lift (get error "code") in
            let* message := lift (get error "message") in
            act (settle (rq_promise rq) (rq_then rq) (Rejected (QSysApiError code message)))
        | None => ret tt
        end ;;
        act (settle (rq_promise rq) (rq_then rq) (Fulfilled data))
    end
  else ret tt.

(** The part of [send] after the socket is known: write, register the
    listener, arm the timer. *)
Definition send_continue (input : QsysMessage.t) (id : Z) (p : nat) (s : sock) (h : handler) : handler :=
  let rq := {| rq_id := id; rq_promise := p; rq_then := None |} in
  let h := log (Write s (encapsulate input)) h in
  let h := set_listeners (listeners h ++ [rq]) h in
  log (SetTimeout p (10 * 1000)) (set_timeouts (timeouts h ++ [rq]) h).

(** [input] after the defaults of [send], and its id. *)
Definition stamp (input : QsysMessage.t) (h : handler) : handler * QsysMessage.t * Z :=
  let params := match QsysMessage.params input with
                | None => Some (num 0)
                | Some v => Some v
                end in
  let '(h, id) := match QsysMessage.id input with
                  | None => reserveId h
                  | Some i => (h, i)
                  end in
  (h, {| QsysMessage.jsonrpc := Some "2.0"; QsysMessage.method := QsysMessage.method input;
         QsysMessage.id := Some id; QsysMessage.params := params |}, id).

(** [send(input, forcedSocket)]; [forced = None] is the default
    [forcedSocket = this.socket].  Returns the promise.  At the [await], the
    call resumes in a microtask when the promise it is given is settled, and
    waits for it otherwise. *)
Definition send (input : QsysMessage.t) (forced : option sock) (h : handler) : handler * nat :=
  let forcedSocket := match forced with
                      | Some s => Some s
                      | None => socket h
                      end in
  let '(h, input, id) := stamp input h in
  let p := promises h in
  let h := set_promises (S p) h in
  match forcedSocket with
  | Some s => (send_continue input id p s h, p)
  | None =>
      match getSocket h with
      | (h, Now s) =>
          let w := {| sp_attempt := s; sp_input := input; sp_id := id; sp_promise := p |} in
          (set_resumptions (resumptions h ++ [(w, Fulfilled s)]) h, p)
      | (h, Later attempt) =>
          let w := {| sp_attempt := attempt; sp_input := input; sp_id := id; sp_promise := p |} in
          match attempts h !! attempt with
          | Some o => (set_resumptions (resumptions h ++ [(w, o)]) h, p)
          | None => (set_waiting (waiting h ++ [w]) h, p)
          end
      end
  end.

(** A suspended [send] resumes: with the socket, or [return Promise.reject(e)]. *)
Definition resume (r : suspended * attempt_outcome) (h : handler) : handler :=
  let '(w, o) := r in
  match o with
  | Fulfilled s => send_continue (sp_input w) (sp_id w) (sp_promise w) s h
  | Rejected e => settle (sp_promise w) None (Rejected e) h
  end.

(** The timer of a request fires. *)
Definition timer_fired (p : nat) (h : handler) : handler :=
  match filter (fun r => rq_promise r = p) (timeouts h) with
  | rq :: _ =>
      let h := set_timeouts (filter (fun r => rq_promise r ≠ p) (timeouts h)) h in
      settle p (rq_then rq) (Rejected timeout_error) h
  | [] => h
  end.

(** [getComponentList] of the later revision. *)
Definition getComponentList (h : handler) : handler * nat :=
  send {| QsysMessage.jsonrpc := None; QsysMessage.method := Some "Component.GetComponents";
          QsysMessage.id := None; QsysMessage.params := None |} None h.

(** *** receive *)

(** [this.node.emit("package", obj)]: the listeners registered when the
    event is emitted are called in order; a throw of one ends the call. *)
Fixpoint call_listeners (ls : list request) (obj : json) : M unit :=
  match ls with
  | [] => ret tt
  | rq :: ls' => listener rq obj ;; call_listeners ls' obj
  end.

Definition emit_package (obj : json) : M unit :=
  act (log (Emit_package obj)) ;;
  fun h => call_listeners (listeners h) obj h.

(** How often the body of [for (i = 0; i < changes.length; i++)] runs. *)
Definition iterations (len : jsval) : nat :=
  match len with
  | None => 0%nat
  | Some (JNum q) => Z.to_nat (Qceiling q)
  | Some v =>
      match ToNumber v with
      | Some q => Z.to_nat (Qceiling q)
      | None => 0%nat
      end
  end.

Definition emit_changes (changes : json) (len : jsval) (h : handler) : handler :=
  fold_left (fun h' i => log (Emit_rx (get_index changes i)) h') (seq 0 (iterations len)) h.

(** The [if ("method" in obj) { switch (obj.method) ... }] of the [try]. *)
Definition notification (obj : json) : M unit :=
  let* has_method := lift (has_property "method" obj) in
  if has_method : bool then
    let* method := lift (get (Some obj) "method") in
    if is_string method "EngineStatus" then
      let* params := lift (get (Some obj) "params") in
      let* state := lift (get params "State") in
      if is_string state "Active" then act (log Emit_ready)
      else if is_string state "Standby" then act (fun h => closeSocket (socket h) h)
      else ret tt
    else if is_string method "ChangeGroup.Poll" then
      let* result := lift (get (Some obj) "result") in
      let* changes := lift (get result "Changes") in
      let* len := lift (get changes "length") in
      match changes with
      | Some c => if negb (is_number len 0) then act (emit_changes c len) else ret tt
      | None => ret tt
      end
    else ret tt
  else ret tt.

(** The body of the [try] for one decoded object, up to [rx = []]. *)
Definition dispatch (obj : json) : M unit :=
  notification obj ;; emit_package obj.

(** One delimiter: the [try] and its [catch].  [true] when [rx = []] was
    reached. *)
Definition frame (rx : list byte) (h : handler) : handler * bool :=
  match JSON_parse (string_of_list_byte rx) with
  | None => (log (NodeError JsSyntaxError) h, false)
  | Some obj =>
      match dispatch obj h with
      | (h', Normal _) => (h', true)
      | (h', Throw e) => (log (NodeError e) h', false)
      end
  end.

(** The loop of [receive] from index [i] on: [data] is what is left of the
    chunk, [len] is [data.length] of the whole chunk. *)
Fixpoint receive_loop (len : nat) (data : list byte) (rx : list byte) (h : handler) : handler :=
  match data with
  | [] => h
  | b :: data' =>
      if Byte.eqb b x00 && negb (len =? 0)%nat then
        let '(h', done) := frame rx h in
        receive_loop len data' (if done then [] else rx) h'
      else receive_loop len data' (rx ++ [b]) h
  end.

Definition receive (data : list byte) (h : handler) : handler :=
  receive_loop (length data) data [] h.

(** *** The events *)

Definition logon : QsysMessage.t :=
  {| QsysMessage.jsonrpc := Some "2.0";
     QsysMessage.method := Some "Logon";
     QsysMessage.id := None;
     QsysMessage.params :=
       Some (JObj (match username with Some u => [("User", JStr u)] | None => [] end
                   ++ match password with Some w => [("Password", JStr w)] | None => [] end)) |}.

(** [.then(...)] / [.catch(...)] on the promise a forced [send] returned. *)
Definition attach_then (p : nat) (s : sock) (h : handler) : handler :=
  let mark := fun r => if bool_decide (rq_promise r = p)
                       then {| rq_id := rq_id r; rq_promise := p; rq_then := Some s |}
                       else r in
  set_timeouts (map mark (timeouts h)) (set_listeners (map mark (listeners h)) h).

(** The reaction of the ready handler to its Logon promise. *)
Definition logon_settled (r : sock * outcome) (h : handler) : handler :=
  let '(s, o) := r in
  match o with
  | Fulfilled response =>
      match get (Some response) "error" with
      | Normal error =>
          if truthy error then
            match version with
            | Correlator => handleReject s (JsErrorOf error) h
            | ApiError =>
                match get error "code", get error "message" with
                | Normal code, Normal message => handleReject s (QSysApiError code message) h
                | Throw e, _ | _, Throw e => handleReject s e h
                end
            end
          else handleResolve s h
      | Throw e => handleReject s e h
      end
  | Rejected e => handleReject s e h
  end.

Inductive event :=
(* the methods *)
| Call_send (input : QsysMessage.t) (forced : option sock)
| Call_getSocket
| Call_initSocket
| Call_getComponentList
| Call_registerStatusCallback (nodeId : string)
| Call_unregisterStatusCallback (nodeId : string)
(* the events of a socket *)
| On_ready (s : sock)
| On_close (s : sock)
| On_end (s : sock)
| On_timeout (s : sock)
| On_connectionAttemptFailed (s : sock)
| On_connectionAttemptTimeout (s : sock)
| On_connect (s : sock)
| On_error (s : sock) (message : string) (errno : option Z)
| On_data (s : sock) (data : list byte)
(* the node closes; a timer of send fires *)
| Node_close
| Timer (promise : nat).

Definition socket_message (before after : string) : string :=
  before ++ target_host ++ ":" ++ target_port ++ after.

(** close, end and timeout share their handler, up to the message. *)
Definition on_gone (s : sock) (message : string) (h : handler) : handler :=
  let h := closeSocket (Some s) h in
  let h := if bool_decide (socket h = Some s) then set_socket None h else h in
  log (NodeDebug message) h.

Definition on_attempt_failed (s : sock) (message : string) (h : handler) : handler :=
  handleReject s (JsError message) (closeSocket (Some s) h).

(** The synchronous part of an event: the handler the source registers for it. *)
Definition handle (e : event) (h : handler) : handler :=
  match e with
  | Call_send input forced => fst (send input forced h)
  | Call_getSocket => fst (getSocket h)
  | Call_initSocket => fst (initSocket h)
  | Call_getComponentList => fst (getComponentList h)
  | Call_registerStatusCallback nodeId => registerStatusCallback nodeId h
  | Call_unregisterStatusCallback nodeId => unregisterStatusCallback nodeId h
  | Node_close =>
      let h := if noOpIntervalId h then log ClearInterval h else h in
      fold_left (fun h' s => closeSocket (Some s) h') (seq 0 (sockets h)) h
  | Timer p => timer_fired p h
  | On_ready s =>
      if bool_decide (s < sockets h)%nat && authentication_enabled then
        let '(h', p) := send logon (Some s) h in attach_then p s h'
      else h
  | On_close s =>
      if bool_decide (s < sockets h)%nat
      then on_gone s (socket_message "Socket to " " closed.") h else h
  | On_end s =>
      if bool_decide (s < sockets h)%nat
      then on_gone s (socket_message "Socket to " " ended.") h else h
  | On_timeout s =>
      if bool_decide (s < sockets h)%nat
      then on_gone s (socket_message "Socket to " " timed out.") h else h
  | On_connectionAttemptFailed s =>
      if bool_decide (s < sockets h)%nat
      then on_attempt_failed s (socket_message "Connecting to socket " " failed.") h else h
  | On_connectionAttemptTimeout s =>
      if bool_decide (s < sockets h)%nat
      then on_attempt_failed s (socket_message "Connecting to socket " " timed out.") h else h
  | On_connect s =>
      if bool_decide (s < sockets h)%nat then
        let h := log (NodeDebug (socket_message "Connection to socket to " " established.")) h in
        if authentication_enabled then h else handleResolve s h
      else h
  | On_error s message errno =>
      if bool_decide (s < sockets h)%nat then
        let h := log (NodeErrorMessage message) h in
        if bool_decide (errno = Some (-4078)) then closeSocket (Some s) h else h
      else h
  | On_data s data =>
      if bool_decide (s < sockets h)%nat then receive data h else h
  end.

(** The microtasks an event leaves behind: first the reactions to settled
    Logon promises, then the suspended calls of [send] they released. *)
Definition run_reactions (h : handler) : handler :=
  fold_left (fun h' r => logon_settled r h') (reactions h) (set_reactions [] h).

Definition run_resumptions (h : handler) : handler :=
  fold_left (fun h' r => resume r h') (resumptions h) (set_resumptions [] h).

Definition step (e : event) (h : handler) : handler :=
  run_resumptions (run_reactions (handle e h)).

Definition run (es : list event) (h : handler) : handler :=
  fold_left (fun h' e => step e h') es h.

End NodeHandler.

(** ** A runtime for the examples

    [JSON.stringify] for the messages of [send] and [ToNumber], to go with
    [Reader.json_parse]. *)
Module Runtime.

Definition print_Z (z : Z) : string := NilZero.string_of_int (Z.to_int z).

(** the least [k <= fuel] with [d] dividing [10 ^ k] *)
Fixpoint decimals (fuel : nat) (k : Z) (d : Z) : option Z :=
  if (10 ^ k) mod d =? 0 then Some k
  else match fuel with
       | O => None
       | S fuel' => decimals fuel' (k + 1) d
       end.

Fixpoint pad (n : nat) (s : string) : string :=
  match n with
  | O => s
  | S n' => if (String.length s <? S n')%nat then pad n' ("0" ++ s) else s
  end.

(** a number with a finite decimal expansion; [null] otherwise, as for NaN *)
Definition print_number (q : Q) : string :=
  let r := Qred q in
  let d := Z.pos (Qden r) in
  match decimals (Pos.size_nat (Qden r)) 0 d with
  | Some 0 => print_Z (Qnum r)
  | Some k =>
      let m := Z.abs (Qnum r) * (10 ^ k / d) in
      (if Qnum r <? 0 then "-" else "")
        ++ print_Z (m / 10 ^ k) ++ "." ++ pad (Z.to_nat k) (print_Z (m mod 10 ^ k))
  | None => "null"
  end.

Definition hex (n : nat) : string :=
  match String.get n "0123456789abcdef" with
  | Some c => String c EmptyString
  | None => ""
  end.

Fixpoint escape (s : string) : string :=
  match s with
  | EmptyString => ""
  | String c r =>
      let n := nat_of_ascii c in
      (if (n =? 34)%nat then "\" ++ String c ""
       else if (n =? 92)%nat then "\\"
       else if (n =? 8)%nat then "\b"
       else if (n =? 12)%nat then "\f"
       else if (n =? 10)%nat then "\n"
       else if (n =? 13)%nat then "\r"
       else if (n =? 9)%nat then "\t"
       else if (n <? 32)%nat then "\u00" ++ hex (n / 16) ++ hex (n mod 16)
       else String c "") ++ escape r
  end.

Definition print_string (s : string) : string :=
  String (ascii_of_nat 34) (escape s) ++ String (ascii_of_nat 34) "".

Definition commas (l : list string) : string := String.concat "," l.

Fixpoint print (v : json) : string :=
  match v with
  | JNull => "null"
  | JBool true => "true"
  | JBool false => "false"
  | JNum q => print_number q
  | JStr s => print_string s
  | JArr l => "[" ++ commas (map print l) ++ "]"
  | JObj fs =>
      "{" ++ commas ((fix members (fs : list (string * json)) : list string :=
                        match fs with
                        | [] => []
                        | (k, x) :: fs' => (print_string k ++ ":" ++ print x) :: members fs'
                        end) fs) ++ "}"
  end.

(** A message as an object: the fields that are defined. *)
Definition object_of (m : QsysMessage.t) : json :=
  JObj (match QsysMessage.jsonrpc m with Some v => [("jsonrpc", JStr v)] | None => [] end
        ++ match QsysMessage.method m with Some v => [("method", JStr v)] | None => [] end
        ++ match QsysMessage.id m with Some v => [("id", num v)] | None => [] end
        ++ match QsysMessage.params m with Some v => [("params", v)] | None => [] end).

Definition stringify (m : QsysMessage.t) : string := print (object_of m).

(** [ToNumber] of null, of a boolean and of a decimal literal; NaN otherwise. *)
Definition to_number (v : json) : option Q :=
  match v with
  | JNull => Some 0%Q
  | JBool b => Some (if b then 1%Q else 0%Q)
  | JNum q => Some q
  | JStr s =>
      match Reader.parse_number (list_ascii_of_string s) with
      | Some (JNum q, []) => Some q
      | _ => None
      end
  | JArr _ | JObj _ => None
  end.

End Runtime.

(** ** Examples: a handler for the device at [core:1710], called "Core" *)
Module Demo.

Definition config (auth : bool) : Config :=
  {| host := "core:1710"; authentication := Some (if auth then 1 else 0) |}.

(** the handler functions at the example runtime *)
Definition receive (v : revision) : list byte -> handler -> handler :=
  receive Reader.json_parse Runtime.to_number v.

Definition step (v : revision) (auth : bool) : event -> handler -> handler :=
  step Reader.json_parse Runtime.stringify Runtime.to_number v (config auth) "Core"
       (Some "admin") (Some "secret") "core" "1710".

Definition run (v : revision) (auth : bool) : list event -> handler -> handler :=
  run Reader.json_parse Runtime.stringify Runtime.to_number v (config auth) "Core"
      (Some "admin") (Some "secret") "core" "1710".

(** the bytes of a frame written with apostrophes, and its delimiter *)
Definition bytes (text : string) : list byte := list_byte_of_string (dq text).
Definition NUL : list byte := [x00].
Definition framed (text : string) : list byte := (bytes text ++ NUL)%list.

Definition request (method : string) (id : Z) : QsysMessage.t :=
  {| QsysMessage.jsonrpc := None; QsysMessage.method := Some method;
     QsysMessage.id := Some id; QsysMessage.params := None |}.

End Demo.

Definition packages (h : handler) : list json :=
  omap (fun e => match e with Emit_package obj => Some obj | _ => None end) (trace h).

(** * Notions for the properties *)

Local Open Scope list_scope.

(** ** Invariants of [receive] *)

(** [I] is kept by a piece of code. *)
Definition keeps (I : handler -> Prop) {A} (m : M A) : Prop := forall h, I h -> I (fst (m h)).

(** The fields that [receive] never assigns. *)
Record same_connection (h h' : handler) : Prop := {
  sc_socket : socket h' = socket h;
  sc_connectionPromise : connectionPromise h' = connectionPromise h;
  sc_attempts : attempts h' = attempts h;
  sc_waiting : waiting h' = waiting h;
  sc_resumptions : resumptions h' = resumptions h;
  sc_sockets : sockets h' = sockets h;
  sc_promises : promises h' = promises h;
  sc_statusCallbacks : statusCallbacks h' = statusCallbacks h;
  sc_noOpIntervalId : noOpIntervalId h' = noOpIntervalId h;
  sc_lastId : lastId h' = lastId h
}.

(** The effects added from [h] to [h'] all satisfy [E]. *)
Definition adds (E : effect -> Prop) (h h' : handler) : Prop :=
  exists added, trace h' = (trace h ++ added)%list /\ Forall E added.

(** What a listener may log. *)
Definition is_ClearTimeout (e : effect) : Prop :=
  match e with
  | ClearTimeout _ => True
  | _ => False
  end.

(** ** The correlator *)

(** What a response settles the promise of a matching request with. *)
Definition completion_of (version : revision) (data : json) : outcome :=
  match version with
  | Correlator => Fulfilled data
  | ApiError =>
      match get (Some data) "error" with
      | Normal (Some error) =>
          match get (Some error) "code", get (Some error) "message" with
          | Normal code, Normal message => Rejected (QSysApiError code message)
          | _, _ => Fulfilled data
          end
      | _ => Fulfilled data
      end
  end.

(** A matching listener that does not throw: timer cleared, listener
    removed, promise settled. *)
Definition complete (version : revision) (data : json) (rq : request) (h : handler) : handler :=
  let p := rq_promise rq in
  let h := log (ClearTimeout p) (set_timeouts (filter (fun r => rq_promise r ≠ p) (timeouts h)) h) in
  let h := set_listeners (filter (fun r => rq_promise r ≠ p) (listeners h)) h in
  settle p (rq_then rq) (completion_of version data) h.

(** The listeners of a response never throw in the earlier revision; in the
    later one they throw on [data.error.code] when the error is null. *)
Definition listeners_safe (version : revision) (data : json) : Prop :=
  version = Correlator \/ get (Some data) "error" ≠ Normal (Some JNull).

Definition respond (version : revision) (data : json) (i : jsval) (h : handler) (rq : request) : handler :=
  if is_number i (rq_id rq) then complete version data rq h else h.

(** ** The hint table *)

(** The codes of the table. *)
Definition known_codes : list Z :=
  [-32700; -32600; -32601; -32602; -32603; -32604; 2; 3; 4; 5; 6; 7; 8; 9; 10].

(** ** Demands for a connection *)

(** A demand for a connection. *)
Inductive demand :=
| Demand_send (input : QsysMessage.t)
| Demand_getSocket
| Demand_initSocket.

Definition call (d : demand) : event :=
  match d with
  | Demand_send input => Call_send input None
  | Demand_getSocket => Call_getSocket
  | Demand_initSocket => Call_initSocket
  end.

(** How many of the demands are calls of [send]. *)
Fixpoint sends (ds : list demand) : nat :=
  match ds with
  | [] => 0
  | Demand_send _ :: ds' => S (sends ds')
  | _ :: ds' => sends ds'
  end.

(** No microtask is left. *)
Definition quiescent (h : handler) : Prop := reactions h = [] /\ resumptions h = [].

(** The attempt that a demand finds or starts. *)
Definition attempt_of (h : handler) : sock :=
  match connectionPromise h with
  | Some a => a
  | None => sockets h
  end.

(** ** Teardown *)

Definition teardown (e : event) : Prop :=
  match e with
  | On_close _ | On_end _ | On_timeout _ | Node_close => True
  | _ => False
  end.

(** Teardown with a [rejectAll]: the event rejects every pending request and
    disarms its timer. *)
Definition teardown_rejects_pending (v : revision) : Prop :=
  forall (h : handler) (e : event) (rq : request),
    teardown e -> rq ∈ listeners h -> settled h !! rq_promise rq = None ->
    let h' := Demo.step v false e h in
    (exists error, settled h' !! rq_promise rq = Some (Rejected error)) /\ rq ∉ timeouts h'.

(** ** The Logon handshake *)

(** The Logon promise is rejected, or fulfilled with a response whose
    [error] is truthy. *)
Definition failed (o : outcome) : Prop :=
  match o with
  | Rejected _ => True
  | Fulfilled response =>
      match get (Some response) "error" with
      | Normal error => truthy error = true
      | Throw _ => True
      end
  end.

(** The error that the ready handler passes to [handleReject]. *)
Definition failure_of (version : revision) (o : outcome) : js_error :=
  match o with
  | Rejected e => e
  | Fulfilled response =>
      match get (Some response) "error" with
      | Normal error =>
          match version with
          | Correlator => JsErrorOf error
          | ApiError =>
              match get error "code", get error "message" with
              | Normal code, Normal message => QSysApiError code message
              | Throw e, _ | _, Throw e => e
              end
          end
      | Throw e => e
      end
  end.

(** The Logon of socket [s] is under way, and [rq] is its request: the ready
    handler of [s] attached its reaction to the promise of [rq] and to no
    other; the promise is pending, its listener is registered and its timer
    is armed; no two requests share a promise; the attempt of [s] is pending,
    [s] is not stored, and no microtask is left. *)
Definition logon_pending (s : sock) (rq : request) (h : handler) : Prop :=
  rq_then rq = Some s
  /\ rq ∈ listeners h /\ rq ∈ timeouts h
  /\ settled h !! rq_promise rq = None
  /\ NoDup (map rq_promise (listeners h)) /\ NoDup (map rq_promise (timeouts h))
  /\ (forall r, r ∈ listeners h ++ timeouts h -> rq_then r = Some s -> r = rq)
  /\ socket h ≠ Some s /\ attempts h !! s = None
  /\ quiescent h.

(** The two events that settle the promise of a registered request [rq],
    with the outcome and with what the handler does before the promise is
    settled.  Its timer fires: the promise is rejected with the timeout
    error.  Or a frame arrives with a response that has the id of [rq] and of
    no other registered request, and no method: the package is emitted, the
    timer of [rq] is cleared, and the promise is settled as the revision
    settles it. *)
Inductive settled_by (JSON_parse : string -> option json) (version : revision) (name : string)
    (rq : request) (h : handler) : event -> outcome -> list effect -> Prop :=
| by_timer :
    settled_by JSON_parse version name rq h
      (Timer (rq_promise rq)) (Rejected (timeout_error name)) []
| by_response (s' : sock) (rx : list byte) (fs : list (string * json)) (i : json) :
    (s' < sockets h)%nat ->
    Forall (fun b => b ≠ x00) rx ->
    JSON_parse (string_of_list_byte rx) = Some (JObj fs) ->
    assoc "method" fs = None ->
    assoc "id" fs = Some i ->
    is_number (Some i) (rq_id rq) = true ->
    (forall r, r ∈ listeners h -> is_number (Some i) (rq_id r) = true -> r = rq) ->
    assoc "error" fs ≠ Some JNull ->
    settled_by JSON_parse version name rq h
      (On_data s' (rx ++ [x00])) (completion_of version (JObj fs))
      [Emit_package (JObj fs); ClearTimeout (rq_promise rq)].

(** The Logon of socket [s] is over: its promise is settled, only
    its request can still have the reaction of the ready handler of [s]
    attached (the listener of a request that timed out stays registered),
    and no reaction of [s] is queued. *)
Definition logon_over (s : sock) (promise : nat) (h : handler) : Prop :=
  is_Some (settled h !! promise)
  /\ Forall (fun rq => rq_then rq = Some s -> rq_promise rq = promise) (listeners h)
  /\ Forall (fun rq => rq_then rq = Some s -> rq_promise rq = promise) (timeouts h)
  /\ Forall (fun r => r.1 ≠ s) (reactions h).

(** The attempt of socket [s] was rejected with [error] and [s] is not the
    stored socket. *)
Definition refused (s : sock) (promise : nat) (error : js_error) (h : handler) : Prop :=
  socket h ≠ Some s /\ attempts h !! s = Some (Rejected error) /\ logon_over s promise h.

(** ** Frames of a chunk *)

(** What [receive] does at a delimiter with the bytes [f] read since the
    delimiter before: [st.1] is [rx], the bytes that the frames before left
    behind. *)
Definition feed JSON_parse ToNumber version (st : list byte * handler) (f : list byte)
    : list byte * handler :=
  let '(h', done) := frame JSON_parse ToNumber version (st.1 ++ f) st.2 in
  (if done then [] else st.1 ++ f, h').

(** A chunk: frames, each followed by its delimiter, and the bytes after the
    last delimiter. *)
Definition chunk (fs : list (list byte)) (tail : list byte) : list byte :=
  concat (map (fun f => f ++ [x00]) fs) ++ tail.

(** [undefined] or [null]: reading a property of it throws. *)
Definition absent (v : jsval) : bool :=
  match v with
  | None | Some JNull => true
  | Some _ => false
  end.

(** The decoded values at which the [switch] of [receive] throws: a primitive
    (at ["method" in obj]), an EngineStatus without params (at
    [data.params.State]), a ChangeGroup.Poll without result or without Changes
    (at [data.result.Changes] and at [changes.length]). *)
Definition malformed (obj : json) : bool :=
  match obj with
  | JObj fs =>
      if is_string (assoc "method" fs) "EngineStatus" then absent (assoc "params" fs)
      else if is_string (assoc "method" fs) "ChangeGroup.Poll" then
        match assoc "result" fs with
        | None | Some JNull => true
        | Some result =>
            match get (Some result) "Changes" with
            | Normal changes => absent changes
            | Throw _ => true
            end
        end
      else false
  | JArr _ => false
  | JNull | JBool _ | JNum _ | JStr _ => true
  end.

(** An effect other than a package event. *)
Definition not_package (e : effect) : Prop :=
  match e with
  | Emit_package _ => False
  | _ => True
  end.

(** The effects of one frame after its package event. *)
Definition after_package (e : effect) : Prop := is_ClearTimeout e \/ exists err, e = NodeError err.

(** ** Kinds of events *)

(** A call that asks for a connection: [send] without a forced socket,
    [getSocket], [initSocket], [getComponentList]. *)
Definition demands (e : event) : bool :=
  match e with
  | Call_send _ None | Call_getSocket | Call_initSocket | Call_getComponentList => true
  | _ => false
  end.

(** An event whose handler calls [send], which may reserve an id. *)
Definition reserves (e : event) : bool :=
  match e with
  | Call_send _ _ | Call_getComponentList | On_ready _ => true
  | _ => false
  end.

Definition registers (e : event) : bool :=
  match e with
  | Call_registerStatusCallback _ | Call_unregisterStatusCallback _ => true
  | _ => false
  end.

(** ** Invariants of the assignments *)

(** [I] survives the assignment [set] of any value. *)
Definition stable_under {A} (set : A -> handler -> handler) (I : handler -> Prop) : Prop :=
  forall v h, I h -> I (set v h).

(** Whether the event opens a transport: [initSocket] while no attempt is
    under way, which [getSocket] and [send] call when no socket is stored. *)
Definition opens (e : event) (h : handler) : bool :=
  match e with
  | Call_initSocket => bool_decide (connectionPromise h = None)
  | Call_send _ None | Call_getSocket | Call_getComponentList =>
      bool_decide (socket h = None) && bool_decide (connectionPromise h = None)
  | _ => false
  end.

(** ** Suspended calls *)

(** The request that a suspended call of [send] registers when it resumes. *)
Definition request_of (w : suspended) : request :=
  {| rq_id := sp_id w; rq_promise := sp_promise w; rq_then := None |}.

(** What a call of [send] does to the outside once it has its socket. *)
Definition resumed JSON_stringify (s : sock) (w : suspended) : list effect :=
  [Write s (encapsulate JSON_stringify (sp_input w)); SetTimeout (sp_promise w) (10 * 1000)].

(** The calls that wait for attempt [s]. *)
Definition waiting_for (s : sock) (h : handler) : list suspended :=
  filter (fun w => sp_attempt w = s) (waiting h).

(** The Logon request as [send] stamps it. *)
Definition logon_request (username password : option string) (id : Z) : QsysMessage.t :=
  {| QsysMessage.jsonrpc := Some "2.0";
     QsysMessage.method := Some "Logon";
     QsysMessage.id := Some id;
     QsysMessage.params := QsysMessage.params (logon username password) |}.

(** ** The ids of the requests under way *)

(** The ids of the requests that are registered, that wait for a connection
    and that are about to resume. *)
Definition pending_ids (h : handler) : list Z :=
  map rq_id (listeners h) ++ map sp_id (waiting h) ++ map (fun r => sp_id r.1) (resumptions h).

(** The ids under way are pairwise distinct and were all handed out by
    [reserveId]. *)
Definition ids_fresh (h : handler) : Prop :=
  NoDup (pending_ids h) /\ Forall (fun i => i < lastId h) (pending_ids h).

(** The event leaves the choice of the id to [send]. *)
Definition reserved_id (e : event) : Prop :=
  match e with
  | Call_send input _ => QsysMessage.id input = None
  | _ => True
  end.

(** From [h] to [h'] no id was added and none was reserved. *)
Definition shrinks (h h' : handler) : Prop :=
  pending_ids h' ⊆+ pending_ids h /\ lastId h' = lastId h.

(** From [h] to [h'] the id [lastId h] was reserved and put under way. *)
Definition extends (h h' : handler) : Prop :=
  pending_ids h' ≡ₚ pending_ids h ++ [lastId h] /\ lastId h' = increment (lastId h).


(** * The nodes around the handler *)

(** ** Strings and numbers of the runtime *)

(** [s.split(sep)] for a separator of one character: the pieces between the
    occurrences of [sep], the empty ones too; never the empty list. *)
Fixpoint split_on (sep : ascii) (s : string) : list string :=
  match s with
  | EmptyString => [EmptyString]
  | String c r =>
      if Ascii.eqb c sep then EmptyString :: split_on sep r
      else match split_on sep r with
           | piece :: pieces => String c piece :: pieces
           | [] => [String c EmptyString]
           end
  end.

(** [sep] does not occur in [s]. *)
Fixpoint free_of (sep : ascii) (s : string) : bool :=
  match s with
  | EmptyString => true
  | String c r => negb (Ascii.eqb c sep) && free_of sep r
  end.

(** A JS number: NaN, an infinity, or a finite double by its value. *)
Inductive number :=
| NaN
| Infinity (negative : bool)
| Double (q : Q).

(** [isNaN(n)] and [n > 0] *)
Definition isNaN (n : number) : bool :=
  match n with
  | NaN => true
  | _ => false
  end.

Definition positive (n : number) : bool :=
  match n with
  | NaN => false
  | Infinity negative => negb negative
  | Double q => negb (Qle_bool q 0)
  end.

(** ** The mixer node (qsys-mixer) *)
Module Mixer.

(** [message.payload].  [MessageIn] declares boolean | string | number, but
    the message is only cast to it and [validate] takes the payload as
    [unknown]: the payload is any value that a message carries as data,
    [undefined] and [null], arrays and plain objects included.  (Left out
    are the values with conversions of their own, such as a Date or a
    Buffer, and functions, symbols and BigInts.) *)
#[warnings="-register-all"]
Inductive payload :=
| PUndefined
| PNull
| PBoolean (b : bool)
| PString (s : string)
| PNumber (n : number)
| PArray (items : list payload)
| PObject (fields : list (string * payload)).

(** An element of [ins], [outs] or [cues]. *)
Inductive item :=
| IString (s : string)
| INumber (n : number).

(** What [parseSelections] is given: a string or an array of strings or
    numbers. *)
Inductive selection :=
| Text (s : string)
| Items (l : list item).

(** What [parseSelections] returns: number[] | "*" *)
Inductive selections :=
| All
| Numbers (l : list number).

Record Config := {
  codename : string;
  method : string;
  ins : option selection;
  outs : option selection;
  cues : option selection;
  ramp : option number
}.

(** [MessageIn]; an absent field is [None]. *)
Module MessageIn.
Record t := {
  method : option string;
  payload : Mixer.payload;
  ins : option selection;
  outs : option selection;
  cues : option selection;
  ramp : option number
}.
End MessageIn.

(** A value in the params of the request. *)
Inductive field :=
| Str (s : string)
| Num (n : number)
| Boolean (b : bool).

(** The request handed to [send] of the handler. *)
Record request := {
  id : Z;
  rpc_method : string;
  params : list (string * field)
}.

Inductive effect :=
| Warn (text : string)   (* this.node.warn(text) *)
| Send (m : request)     (* this.send(m) *)
| Done.                  (* done() *)

(** [a ?? b] *)
Definition or_else {A} (a b : option A) : option A :=
  match a with
  | Some _ => a
  | None => b
  end.

Definition is_one_of (m : string) (names : list string) : bool := existsb (String.eqb m) names.

Definition numeric_methods : list string :=
  ["SetCrossPointGain"; "SetCrossPointDelay"; "SetInputGain"; "SetOutputGain"; "SetCueGain"].

Definition boolean_methods : list string :=
  ["SetCrossPointMute"; "SetCrossPointSolo"; "SetInputMute"; "SetInputSolo"; "SetOutputMute";
   "SetCueMute"; "SetInputCueEnable"; "SetInputCueAfl"].

Section Node.

(** The runtime: [parseInt(s, 10)], the conversion of a string to a number
    ([Number(s)]) and of a number to a string; the id the request is given
    ([Date.now()] in the source, [reserveId()] in the build); the
    configuration of the node. *)
Variable parseInt : string -> number.
Variable StringToNumber : string -> number.
Variable Number_toString : number -> string.
Variable now : Z.
Variable config : Config.

Definition typeof (p : payload) : string :=
  match p with
  | PUndefined => "undefined"
  | PBoolean _ => "boolean"
  | PString _ => "string"
  | PNumber _ => "number"
  | PNull | PArray _ | PObject _ => "object"
  end.

(** [`${p}`]: an array is its elements joined by commas, where [undefined]
    and [null] leave nothing; a plain object is "[object Object]". *)
Fixpoint to_string (p : payload) : string :=
  match p with
  | PUndefined => "undefined"
  | PNull => "null"
  | PBoolean true => "true"
  | PBoolean false => "false"
  | PString s => s
  | PNumber n => Number_toString n
  | PArray items =>
      String.concat "," (map (fun x => match x with
                                       | PUndefined | PNull => ""
                                       | _ => to_string x
                                       end) items)
  | PObject _ => "[object Object]"
  end.

(** The number that [isNaN(p)] tests: an array or an object is converted
    by way of its string. *)
Definition to_number (p : payload) : number :=
  match p with
  | PUndefined => NaN
  | PNull => Double 0
  | PBoolean b => Double (if b then 1 else 0)
  | PString s => StringToNumber s
  | PNumber n => n
  | PArray _ | PObject _ => StringToNumber (to_string p)
  end.

Definition not_supported (p : payload) : string :=
  ("Value '" ++ to_string p ++ "' (" ++ typeof p ++ ") is not supported.")%string.

(** What [requireNumericValue] tests: a string is replaced by what
    [parseInt] reads in it. *)
Definition tested (p : payload) : payload :=
  match p with
  | PString s => PNumber (parseInt s)
  | _ => p
  end.

(** The message of the error that [validate] throws, if it throws. *)
Definition validate (method : string) (p : payload) : option string :=
  let requireNumericValue :=
    let p := tested p in
    if negb (isNaN (to_number p)) then Some (not_supported p) else None in
  let requireBooleanValue :=
    match p with
    | PBoolean _ => None
    | _ => Some (not_supported p)
    end in
  if is_one_of method numeric_methods then requireNumericValue
  else if is_one_of method boolean_methods then requireBooleanValue
  else Some ("Method '" ++ method ++ "' is not supported.")%string.

Definition is_star (i : item) : bool :=
  match i with
  | IString s => String.eqb s "*"
  | INumber _ => false
  end.

Definition parseSelections (input : option selection) : selections :=
  match input with
  | None => Numbers []
  | Some input =>
      let as_array (l : list item) :=
        if existsb is_star l then All
        else Numbers (map (fun i => match i with
                                    | IString s => parseInt s
                                    | INumber n => n
                                    end) l) in
      match input with
      | Text s => if String.eqb s "*" then All else as_array (map IString (split_on " " s))
      | Items l => as_array l
      end
  end.

(** [Array.isArray(x) ? x.join(" ") : x] *)
Definition joined (x : selections) : string :=
  match x with
  | All => "*"
  | Numbers l => String.concat " " (map Number_toString l)
  end.

(** [toNumber]: a number as it is; of anything else, what [parseInt] reads
    in its string. *)
Definition toNumber (p : payload) : number :=
  match p with
  | PNumber n => n
  | _ => parseInt (to_string p)
  end.

Definition toBool (p : payload) : bool :=
  match p with
  | PBoolean b => b
  | PString s => String.eqb s "true"
  | PNumber n => positive n
  | _ => false
  end.

(** The handler of the input event. *)
Definition input (message : MessageIn.t) : list effect :=
  let method := match MessageIn.method message with
                | Some m => m
                | None => method config
                end in
  let ramp := or_else (MessageIn.ramp message) (ramp config) in
  let ins := parseSelections (or_else (MessageIn.ins message) (ins config)) in
  let outs := parseSelections (or_else (MessageIn.outs message) (outs config)) in
  let cues := parseSelections (or_else (MessageIn.cues message) (cues config)) in
  match validate method (MessageIn.payload message) with
  | Some text => [Warn text; Done]
  | None =>
      let inputs := Str (joined ins) in
      let outputs := Str (joined outs) in
      let cues := Str (joined cues) in
      let name := Str (codename config) in
      let number := Num (toNumber (MessageIn.payload message)) in
      let boolean := Boolean (toBool (MessageIn.payload message)) in
      let ramp := Num (match ramp with Some r => r | None => Double 0 end) in
      let send params :=
        [Send {| id := now; rpc_method := ("Mixer." ++ method)%string; params := params |}; Done] in
      if is_one_of method ["SetCrossPointGain"; "SetCrossPointDelay"] then
        send [("Name", name); ("Inputs", inputs); ("Outputs", outputs); ("Value", number);
              ("Ramp", ramp)]
      else if is_one_of method ["SetCrossPointMute"; "SetCrossPointSolo"] then
        send [("Name", name); ("Inputs", inputs); ("Outputs", outputs); ("Value", boolean)]
      else if is_one_of method ["SetInputGain"] then
        send [("Name", name); ("Inputs", inputs); ("Value", number); ("Ramp", ramp)]
      else if is_one_of method ["SetInputMute"; "SetInputSolo"] then
        send [("Name", name); ("Inputs", inputs); ("Value", boolean)]
      else if is_one_of method ["SetOutputGain"] then
        send [("Name", name); ("Outputs", outputs); ("Value", number); ("Ramp", ramp)]
      else if is_one_of method ["SetOutputMute"] then
        send [("Name", name); ("Outputs", outputs); ("Value", boolean)]
      else if is_one_of method ["SetCueMute"] then
        send [("Name", name); ("Cues", cues); ("Value", boolean)]
      else if is_one_of method ["SetCueGain"] then
        send [("Name", name); ("Cues", cues); ("Value", number); ("Ramp", ramp)]
      else if is_one_of method ["SetInputCueEnable"; "SetInputCueAfl"] then
        send [("Name", name); ("Cues", cues); ("Inputs", inputs); ("Value", boolean)]
      else [Done]
  end.

End Node.

(** The value of the key [k] in the params of a request. *)
Fixpoint param (k : string) (ps : list (string * field)) : option field :=
  match ps with
  | [] => None
  | (k', v) :: ps' => if String.eqb k k' then Some v else param k ps'
  end.

End Mixer.

(** ** The status shown by the nodes (qsys-status, qsys-snapshot,
    qsys-named-control, qsys-mixer) *)
Module Display.

Record NodeStatus := {
  fill : string;
  shape : string;
  text : string
}.

(** [error.message]: the text given to [new Error(text)]; [runtime] gives
    the message of the other errors. *)
Definition message_of (runtime : js_error -> string) (e : js_error) : string :=
  match e with
  | JsError message => message
  | _ => runtime e
  end.

(** The status callback that each node registers: what it passes to
    [this.node.status]. *)
Definition nodeStatus (runtime : js_error -> string) (status : Status) (error : option js_error)
    : NodeStatus :=
  match status with
  | Inactive => {| fill := "grey"; shape := "dot"; text := "Inactive." |}
  | Error =>
      {| fill := "red"; shape := "dot";
         text := match error with
                 | Some e => message_of runtime e
                 | None => "Failure."
                 end |}
  | Connected | Active => {| fill := "green"; shape := "dot"; text := "Connected." |}
  | Idle | Standby => {| fill := "grey"; shape := "dot"; text := "" |}
  end.

(** What the nodes show after the effects [es], each by its id; a node whose
    callback was not called shows nothing yet. *)
Definition shown (runtime : js_error -> string) (es : list effect) (nodeId : string)
    : option NodeStatus :=
  last (omap (fun e => match e with
                       | StatusCallback k _ status error =>
                           if String.eqb k nodeId then Some (nodeStatus runtime status error)
                           else None
                       | _ => None
                       end) es).

End Display.

(** An effect other than the call of a status callback. *)
Definition not_status (e : effect) : Prop :=
  match e with
  | StatusCallback _ _ _ _ => False
  | _ => True
  end.

(** ** The admin endpoints of qsys-config (the later revision) *)
Module Admin.

Inductive body :=
| Default                  (* res.sendStatus: the name of the status *)
| Json (v : jsval)         (* JSON.stringify(v, null, 2) *)
| Failure (e : js_error).  (* JSON.stringify(err, null, 2) *)

Record reply := {
  status : Z;
  content : body
}.

(** GET /qsys/:id/components for a node that exists, once the promise of
    [getComponentList] is settled: [.then] and the [.catch] behind it. *)
Definition components (o : outcome) : reply :=
  match o with
  | Fulfilled response =>
      match get (Some response) "result" with
      | Normal result => {| status := 200; content := Json result |}
      | Throw e => {| status := 503; content := Failure e |}
      end
  | Rejected e => {| status := 503; content := Failure e |}
  end.

(** GET /qsys/:id/components/:component/controls for a node that exists,
    once the promise of [send] is settled. *)
Definition controls (o : outcome) : reply :=
  let failed (e : js_error) :=
    match e with
    | QSysApiError code _ =>
        if is_number code 7 then {| status := 404; content := Failure e |}
        else {| status := 503; content := Failure e |}
    | _ => {| status := 503; content := Failure e |}
    end in
  match o with
  | Fulfilled response =>
      match get (Some response) "result" with
      | Normal result =>
          match get result "Controls" with
          | Normal controls => {| status := 200; content := Json controls |}
          | Throw e => failed e
          end
      | Throw e => failed e
      end
  | Rejected e => failed e
  end.

End Admin.

(** ** The target of [initSocket] *)

(** [host] and [port] as [initSocket] takes them from [config.host]:
    [target[0]] and [target[1] ? parseInt(target[1], 10) : 1710]. *)
Definition target (parseInt : string -> number) (host : string) : option string * number :=
  let target := split_on ":" host in
  (target !! 0%nat,
   match target !! 1%nat with
   | Some port => if negb (String.eqb port "") then parseInt port else Double 1710
   | None => Double 1710
   end).


(** ** The nodes that ask the device (qsys-status, qsys-snapshot,
    qsys-named-control) *)
Module Nodes.

(** What a node does once the promise of its request is settled. *)
Inductive reaction :=
| Emit (payload : jsval)   (* msg.payload = payload; this.node.send(msg) *)
| Report (e : js_error)    (* this.node.error(e) *)
| Nothing.

(** A property of an object literal: left out when its value is
    [undefined], as [JSON.stringify] leaves it out. *)
Definition property (k : string) (v : jsval) : list (string * json) :=
  match v with
  | Some x => [(k, x)]
  | None => []
  end.

(** [send({ id: reserveId(), ... })]: the id is reserved, then [send] is
    called with it. *)
Definition request JSON_stringify (make : Z -> QsysMessage.t) (h : handler) : handler * nat :=
  let '(h, id) := reserveId h in
  send JSON_stringify (make id) None h.

(** *** qsys-status *)

Definition status_request (id : Z) : QsysMessage.t :=
  {| QsysMessage.jsonrpc := None; QsysMessage.method := Some "StatusGet";
     QsysMessage.id := Some id; QsysMessage.params := None |}.

(** [.then(...)] and the [.catch(...)] behind it *)
Definition status_settled (o : outcome) : reaction :=
  match o with
  | Fulfilled response =>
      match get (Some response) "result" with
      | Normal result => Emit result
      | Throw e => Report e
      end
  | Rejected e => Report e
  end.

(** *** qsys-snapshot *)

Definition snapshot_request (bank action : string) (payload ramp : jsval) (id : Z)
    : QsysMessage.t :=
  {| QsysMessage.jsonrpc := None;
     QsysMessage.method := Some ("Snapshot." ++ action)%string;
     QsysMessage.id := Some id;
     QsysMessage.params :=
       Some (JObj (("Name", JStr bank) :: property "Bank" payload ++ property "Ramp" ramp)) |}.

Definition snapshot_settled (o : outcome) : reaction :=
  match o with
  | Fulfilled _ => Nothing
  | Rejected e => Report e
  end.

(** *** qsys-named-control *)

(** [["string", "number", "boolean"].includes(typeof payload)] *)
Definition is_value (payload : jsval) : bool :=
  match payload with
  | Some (JStr _) | Some (JNum _) | Some (JBool _) => true
  | _ => false
  end.

Definition named_control_request (codename : string) (payload ramp : jsval) (id : Z)
    : QsysMessage.t :=
  let controls := split_on ";" codename in
  if is_value payload then
    {| QsysMessage.jsonrpc := None; QsysMessage.method := Some "Control.Set";
       QsysMessage.id := Some id;
       QsysMessage.params :=
         Some (JObj (("Name", JStr codename) :: property "Value" payload
                       ++ property "Ramp" ramp)) |}
  else
    {| QsysMessage.jsonrpc := None; QsysMessage.method := Some "Control.Get";
       QsysMessage.id := Some id;
       QsysMessage.params := Some (JArr (map JStr controls)) |}.

(** [.then(...)] and the [.catch(...)] behind it; [payload] is the payload
    of the input, which decided the action.  [result.pop()] is the last
    element of an array, and a TypeError on anything else. *)
Definition named_control_settled (payload : jsval) (o : outcome) : reaction :=
  match o with
  | Fulfilled data =>
      match get (Some data) "result" with
      | Throw e => Report e
      | Normal result =>
          if is_value payload then Emit result
          else
            match get result "length" with
            | Throw e => Report e
            | Normal len =>
                if is_number len 1 then
                  match result with
                  | Some (JArr l) => Emit (last l)
                  | _ => Report JsTypeError
                  end
                else Emit result
            end
      end
  | Rejected e => Report e
  end.

End Nodes.

(** The request as [send] stamps it: jsonrpc "2.0", params 0 when there
    are none. *)
Definition stamped (input : QsysMessage.t) (id : Z) : QsysMessage.t :=
  {| QsysMessage.jsonrpc := Some "2.0";
     QsysMessage.method := QsysMessage.method input;
     QsysMessage.id := Some id;
     QsysMessage.params := match QsysMessage.params input with
                           | None => Some (num 0)
                           | Some v => Some v
                           end |}.

(** The error that the later revision makes of the [error] of a response. *)
Definition error_of (error : json) : js_error :=
  QSysApiError (match get (Some error) "code" with Normal code => code | Throw _ => None end)
               (match get (Some error) "message" with
                | Normal message => message
                | Throw _ => None
                end).

(** How a response settles the promise of its request: the later revision
    rejects it when the response has an error. *)
Definition settles (version : revision) (fs : list (string * json)) : outcome :=
  match version, assoc "error" fs with
  | ApiError, Some error => Rejected (error_of error)
  | _, _ => Fulfilled (JObj fs)
  end.

(** ** A runtime for the examples

    [parseInt(s, 10)] for ASCII text, and the printing of numbers. *)
Module Examples.

Definition parse_int (s : string) : number :=
  let s := Reader.skip_ws (list_ascii_of_string s) in
  let '(negative, s) := match s with
                        | "-"%char :: r => (true, r)
                        | "+"%char :: r => (false, r)
                        | _ => (false, s)
                        end in
  let '(value, count, _) := Reader.digits s 0 0 in
  if (count =? 0)%nat then NaN
  else Double (inject_Z (if negative : bool then - value else value)).

Definition print_number (n : number) : string :=
  match n with
  | NaN => "NaN"
  | Infinity true => "-Infinity"
  | Infinity false => "Infinity"
  | Double q => Runtime.print_number q
  end.





End Examples.

(** * Properties *)

(** ** Frames and chunks (receive) *)

Section Receive.

Variable JSON_parse : string -> option json.
Variable ToNumber : json -> option Q.
Variable version : revision.

Local Abbreviation receive_loop' := (receive_loop JSON_parse ToNumber version).
Local Abbreviation receive' := (receive JSON_parse ToNumber version).
Local Abbreviation frame' := (frame JSON_parse ToNumber version).

(** The test [data.length != 0] is true throughout the loop. *)
Lemma receive_loop_length (m n : nat) (data rx : list byte) (h : handler) :
  m ≠ 0%nat -> n ≠ 0%nat -> receive_loop' m data rx h = receive_loop' n data rx h.
Proof.
  intros Hm Hn. revert rx h.
  induction data as [|b data IH]; intros rx h; [reflexivity|].
  cbn. destruct m, n; try congruence. cbn.
  destruct (Byte.eqb b x00); cbn.
  - destruct (frame' rx h) as [h' done]. apply IH.
  - apply IH.
Qed.

(** Bytes after the last delimiter of a chunk are collected in [rx] and go
    with it when [receive] returns. *)
Lemma receive_loop_tail (len : nat) (data tail rx : list byte) (h : handler) :
  Forall (fun b => b ≠ x00) tail ->
  receive_loop' len (data ++ tail) rx h = receive_loop' len data rx h.
Proof.
  intros Htail. revert rx h.
  induction data as [|b data IH]; intros rx h.
  - cbn. revert rx. induction Htail as [|b tail Hb _ IHt]; intros rx; [reflexivity|].
    cbn. destruct (Byte.eqb b x00) eqn:E; [apply Byte.byte_dec_bl in E; congruence|].
    cbn. apply IHt.
  - cbn. destruct (Byte.eqb b x00 && negb (len =? 0)%nat).
    + destruct (frame' rx h) as [h' done]. apply IH.
    + apply IH.
Qed.

Lemma receive_tail (data tail : list byte) (h : handler) :
  Forall (fun b => b ≠ x00) tail ->
  receive' (data ++ tail) h = receive' data h.
Proof.
  intros Htail. unfold receive.
  rewrite receive_loop_tail by assumption.
  destruct data as [|b data]; [reflexivity|].
  apply receive_loop_length.
  - rewrite length_app. cbn. lia.
  - cbn. lia.
Qed.

(** After a frame that throws, [rx] keeps its bytes. *)
Lemma receive_loop_throw (len : nat) (data rx : list byte) (h : handler) :
  len ≠ 0%nat -> snd (frame' rx h) = false ->
  receive_loop' len (x00 :: data) rx h = receive_loop' len data rx (fst (frame' rx h)).
Proof.
  intros Hlen Hthrow. cbn. destruct len; [congruence|]. cbn.
  destruct (frame' rx h) as [h' done]. cbn in *. subst done. reflexivity.
Qed.

End Receive.

(** C1 (defect in the code).  A frame whose bytes span two reads is not
    reassembled: [rx] is a local of [receive], so the bytes of the first read
    are gone when the second arrives.  The stream of the single frame
    {"id":1} emits its object when fed whole, and nothing when it is fed as
    the two chunks {"id" and :1}. *)
Theorem receive_split_frame_lost (v : revision) :
  let whole := Demo.framed "{'id':1}" in
  let first := Demo.bytes "{'id'" in
  let second := Demo.framed ":1}" in
  (first ++ second)%list = whole
  /\ packages (Demo.receive v whole new_handler) = [JObj [("id", num 1)]]
  /\ packages (Demo.receive v first new_handler) = []
  /\ packages (Demo.receive v second (Demo.receive v first new_handler)) = []
  /\ trace (Demo.receive v second (Demo.receive v first new_handler)) = [NodeError JsSyntaxError].
Proof. destruct v; vm_compute; auto. Qed.

(** C2 (defect in the code).  [rx = []] is the last statement of the [try]:
    after a frame that does not parse, [rx] still holds its bytes and the next
    frame of the chunk is parsed behind them.  In the chunk  x NUL {"id":1} NUL
    the second frame is well formed (alone it is decoded), yet nothing is
    emitted and two errors are reported. *)
Theorem receive_bad_frame_spoils_next (v : revision) :
  let good := Demo.framed "{'id':1}" in
  let chunk := (Demo.framed "x" ++ good)%list in
  packages (Demo.receive v good new_handler) = [JObj [("id", num 1)]]
  /\ packages (Demo.receive v chunk new_handler) = []
  /\ trace (Demo.receive v chunk new_handler) = [NodeError JsSyntaxError; NodeError JsSyntaxError]
  /\ packages (Demo.receive v good (Demo.receive v (Demo.framed "x") new_handler))
     = [JObj [("id", num 1)]].
Proof. destruct v; vm_compute; auto. Qed.

(** ** Requests and their timers (send) *)

(** The timer of a request rejects its promise and leaves the listener of
    the request where it is. *)
Lemma timer_fired_listeners (name : string) (p : nat) (h : handler) :
  listeners (timer_fired name p h) = listeners h.
Proof.
  unfold timer_fired. destruct (filter _ (timeouts h)) as [|rq l]; [reflexivity|].
  unfold settle. cbn. destruct (settled h !! p); [reflexivity|].
  destruct (rq_then rq); reflexivity.
Qed.

(** C3 (defect in the code).  Request 5 is sent and no response arrives.  When
    its timer fires the promise is rejected with the error that names the
    device and the 10 seconds, but the listener stays registered: the response
    {"id":5,"result":1} that arrives later finds it and runs it. *)
Theorem timeout_leaves_listener (v : revision) :
  let h1 := Demo.run v false [Call_send (Demo.request "StatusGet" 5) None; On_connect 0] new_handler in
  let h2 := Demo.step v false (Timer 0) h1 in
  let late := Demo.framed "{'id':5,'result':1}" in
  let h3 := Demo.step v false (On_data 0 late) h2 in
  let rq := {| rq_id := 5; rq_promise := 0; rq_then := None |} in
  listeners h1 = [rq] /\ timeouts h1 = [rq] /\ settled h1 !! 0%nat = None
  /\ settled h2 !! 0%nat
     = Some (Rejected (JsError (dq "Q-SYS device 'Core' did not respond within 10 seconds.")))
  /\ timeouts h2 = []
  /\ listeners h2 = [rq]
  /\ trace h3 = (trace h2 ++ [Emit_package (JObj [("id", num 5); ("result", num 1)]); ClearTimeout 0])%list
  /\ listeners h3 = [].
Proof. destruct v; vm_compute; auto 10. Qed.

(** ** What the primitives change *)

Lemma updateStatus_fold (status : Status) (error : option js_error) (l : list string) (h : handler) :
  fold_left (fun h' nodeId => log (StatusCallback nodeId (socket h') status error) h') l h
  = set_trace (trace h ++ map (fun k => StatusCallback k (socket h) status error) l) h.
Proof.
  revert h. induction l as [|k l IH]; intros h; cbn.
  - destruct h; cbn. unfold set_trace; cbn. by rewrite app_nil_r.
  - rewrite IH. unfold set_trace, log; cbn. by rewrite <- app_assoc.
Qed.

Lemma updateStatus_spec (status : Status) (error : option js_error) (h : handler) :
  updateStatus status error h
  = set_trace (trace h ++ map (fun k => StatusCallback k (socket h) status error) (statusCallbacks h)) h.
Proof. apply updateStatus_fold. Qed.

(** An invariant of the steps of [receive] is an invariant of [receive].
    [ok] is what the invariant knows of every registered listener. *)
Section Frames.

Variable version : revision.
Variable I : handler -> Prop.
Variable ok : request -> Prop.

Lemma keeps_ret {A} (a : A) : keeps I (ret a).
Proof. by intros h. Qed.

Lemma keeps_lift {A} (c : completion A) : keeps I (lift c).
Proof. by intros h. Qed.

Lemma keeps_act (f : handler -> handler) : (forall h, I h -> I (f h)) -> keeps I (act f).
Proof. intros Hf h. apply Hf. Qed.

Lemma keeps_bind {A B} (m : M A) (k : A -> M B) :
  keeps I m -> (forall a, keeps I (k a)) -> keeps I (bind m k).
Proof.
  intros Hm Hk h Hh. unfold bind. specialize (Hm h Hh).
  destruct (m h) as [h' [a|e]]; cbn in *; [|assumption].
  by apply Hk.
Qed.

Hypothesis I_timeouts :
  forall p h, I h -> I (set_timeouts (filter (fun r => rq_promise r ≠ p) (timeouts h)) h).
Hypothesis I_listeners :
  forall p h, I h -> I (set_listeners (filter (fun r => rq_promise r ≠ p) (listeners h)) h).
Hypothesis I_settle :
  forall rq o h, ok rq -> I h -> I (settle (rq_promise rq) (rq_then rq) o h).
Hypothesis I_clear : forall p h, I h -> I (log (ClearTimeout p) h).
Hypothesis I_package : forall obj h, I h -> I (log (Emit_package obj) h).
Hypothesis I_ok : forall h, I h -> Forall ok (listeners h).

Lemma keeps_listener (rq : request) (data : json) : ok rq -> keeps I (listener version rq data).
Proof.
  intros Hrq. unfold listener. apply keeps_bind; [apply keeps_lift|]. intros i.
  destruct (is_number i (rq_id rq)); [|apply keeps_ret].
  apply keeps_bind.
  { apply keeps_act. intros h Hh. by apply I_clear, I_timeouts. }
  intros _. apply keeps_bind; [apply keeps_act; intros h; apply I_listeners|]. intros _.
  destruct version.
  - apply keeps_act. intros h. by apply I_settle.
  - apply keeps_bind; [apply keeps_lift|]. intros error.
    apply keeps_bind; [|intros _; apply keeps_act; intros h; by apply I_settle].
    destruct error; [|apply keeps_ret].
    apply keeps_bind; [apply keeps_lift|]. intros code.
    apply keeps_bind; [apply keeps_lift|]. intros message.
    apply keeps_act. intros h. by apply I_settle.
Qed.

Lemma keeps_call_listeners (ls : list request) (obj : json) :
  Forall ok ls -> keeps I (call_listeners version ls obj).
Proof.
  induction 1 as [|rq ls Hrq _ IH]; cbn; [apply keeps_ret|].
  apply keeps_bind; [by apply keeps_listener|]. intros _. exact IH.
Qed.

Lemma keeps_emit_package (obj : json) : keeps I (emit_package version obj).
Proof.
  unfold emit_package. apply keeps_bind; [apply keeps_act, I_package|].
  intros _ h Hh. by apply keeps_call_listeners; [apply I_ok|].
Qed.

(** ... and the whole of [receive], when every logged effect keeps it. *)
Variable JSON_parse : string -> option json.
Variable ToNumber : json -> option Q.
Hypothesis I_log : forall e h, I h -> I (log e h).

Lemma keeps_notification (obj : json) : keeps I (notification ToNumber obj).
Proof.
  unfold notification. apply keeps_bind; [apply keeps_lift|]. intros [|]; [|apply keeps_ret].
  apply keeps_bind; [apply keeps_lift|]. intros method.
  destruct (is_string method "EngineStatus").
  { apply keeps_bind; [apply keeps_lift|]. intros params.
    apply keeps_bind; [apply keeps_lift|]. intros state.
    destruct (is_string state "Active"); [apply keeps_act, I_log|].
    destruct (is_string state "Standby"); [|apply keeps_ret].
    apply keeps_act. intros h Hh. unfold closeSocket. destruct (socket h); [by apply I_log|done]. }
  destruct (is_string method "ChangeGroup.Poll"); [|apply keeps_ret].
  apply keeps_bind; [apply keeps_lift|]. intros result.
  apply keeps_bind; [apply keeps_lift|]. intros changes.
  apply keeps_bind; [apply keeps_lift|]. intros len.
  destruct changes as [c|]; [|apply keeps_ret].
  destruct (negb (is_number len 0)); [|apply keeps_ret].
  apply keeps_act. intros h. unfold emit_changes.
  generalize (seq 0 (iterations ToNumber len)). intros l. revert h.
  induction l as [|i l IH]; intros h Hh; cbn; [done|].
  by apply IH, I_log.
Qed.

Lemma keeps_dispatch (obj : json) : keeps I (dispatch ToNumber version obj).
Proof.
  unfold dispatch. apply keeps_bind; [apply keeps_notification|].
  intros _. apply keeps_emit_package.
Qed.

Lemma keeps_frame (rx : list byte) (h : handler) :
  I h -> I (fst (frame JSON_parse ToNumber version rx h)).
Proof.
  intros Hh. unfold frame. destruct (JSON_parse _) as [obj|]; [|by apply I_log].
  pose proof (keeps_dispatch obj h Hh) as H.
  destruct (dispatch ToNumber version obj h) as [h' [a|e]]; cbn in *; [assumption|].
  by apply I_log.
Qed.

Lemma keeps_receive_loop (len : nat) (data rx : list byte) (h : handler) :
  I h -> I (receive_loop JSON_parse ToNumber version len data rx h).
Proof.
  revert rx h. induction data as [|b data IH]; intros rx h Hh; cbn; [done|].
  destruct (Byte.eqb b x00 && negb (len =? 0)%nat); [|by apply IH].
  pose proof (keeps_frame rx h Hh) as H.
  destruct (frame JSON_parse ToNumber version rx h) as [h' done]; cbn in *.
  by apply IH.
Qed.

Lemma keeps_receive (data : list byte) (h : handler) :
  I h -> I (receive JSON_parse ToNumber version data h).
Proof. apply keeps_receive_loop. Qed.

End Frames.

(** *** Two preorders: the connection is left alone; the trace grows *)

Lemma same_connection_refl (h : handler) : same_connection h h.
Proof. by split. Qed.

Lemma same_connection_trans (h1 h2 h3 : handler) :
  same_connection h1 h2 -> same_connection h2 h3 -> same_connection h1 h3.
Proof. intros [] []; split; congruence. Qed.

Lemma same_connection_settle (p : nat) (r : option sock) (o : outcome) (h : handler) :
  same_connection h (settle p r o h).
Proof. unfold settle. destruct (settled h !! p); [|destruct r]; by split. Qed.

Lemma same_connection_step (f : handler -> handler) (h0 h : handler) :
  same_connection h (f h) -> same_connection h0 h -> same_connection h0 (f h).
Proof. intros Hf Hh. by apply (same_connection_trans h0 h). Qed.

Ltac same_connection_steps :=
  try done; try (intros; apply same_connection_refl);
  intros; (apply same_connection_step; [|assumption]);
  first [apply same_connection_settle | by split].

Lemma receive_same_connection JSON_parse ToNumber version (data : list byte) (h : handler) :
  same_connection h (receive JSON_parse ToNumber version data h).
Proof.
  apply (keeps_receive version (same_connection h) (fun _ => True));
    try apply same_connection_refl; try (intros; by apply Forall_true);
    same_connection_steps.
Qed.

Lemma frame_same_connection JSON_parse ToNumber version (rx : list byte) (h : handler) :
  same_connection h (fst (frame JSON_parse ToNumber version rx h)).
Proof.
  apply (keeps_frame version (same_connection h) (fun _ => True));
    try apply same_connection_refl; try (intros; by apply Forall_true);
    same_connection_steps.
Qed.

Lemma adds_refl E (h : handler) : adds E h h.
Proof. exists []. by rewrite app_nil_r. Qed.

Lemma adds_trans E (h1 h2 h3 : handler) : adds E h1 h2 -> adds E h2 h3 -> adds E h1 h3.
Proof.
  intros (a & Ha & Fa) (b & Hb & Fb). exists (a ++ b). split.
  - by rewrite Hb, Ha, app_assoc.
  - by apply Forall_app.
Qed.

Lemma adds_log (E : effect -> Prop) (e : effect) (h : handler) : E e -> adds E h (log e h).
Proof. intros He. exists [e]. split; [reflexivity|]. by constructor. Qed.

Lemma adds_settle E (p : nat) (r : option sock) (o : outcome) (h : handler) :
  adds E h (settle p r o h).
Proof.
  unfold settle. destruct (settled h !! p); [|destruct r]; exists []; cbn; by rewrite app_nil_r.
Qed.

Lemma call_listeners_adds version (ls : list request) (obj : json) (h : handler) :
  adds is_ClearTimeout h (fst (call_listeners version ls obj h)).
Proof.
  apply (keeps_call_listeners version (adds is_ClearTimeout h) (fun _ => True));
    try apply adds_refl; try (by apply Forall_true);
    intros; (eapply adds_trans; [eassumption|]).
  - exists []; cbn; by rewrite app_nil_r.
  - exists []; cbn; by rewrite app_nil_r.
  - apply adds_settle.
  - by apply adds_log.
Qed.

(** ** EngineStatus *)

Lemma notification_engine_status ToNumber (fs : list (string * json)) (params : json)
    (state : jsval) (h : handler) :
  assoc "method" fs = Some (JStr "EngineStatus") ->
  assoc "params" fs = Some params ->
  get (Some params) "State" = Normal state ->
  notification ToNumber (JObj fs) h
  = (if is_string state "Active" then log Emit_ready h
     else if is_string state "Standby" then closeSocket (socket h) h
     else h, Normal tt).
Proof.
  intros Hmethod Hparams Hstate.
  unfold notification, bind, lift. cbn [has_property get].
  rewrite Hmethod, Hparams, Hstate. cbn.
  destruct (is_string state "Active"); [reflexivity|].
  destruct (is_string state "Standby"); reflexivity.
Qed.

Lemma emit_package_trace version (obj : json) (h : handler) :
  exists rest,
    trace (fst (emit_package version obj h)) = trace h ++ Emit_package obj :: rest
    /\ Forall is_ClearTimeout rest.
Proof.
  unfold emit_package, bind, act. cbn [listeners log set_trace].
  destruct (call_listeners_adds version (listeners h) obj (log (Emit_package obj) h))
    as (rest & Hrest & Hall).
  exists rest. split; [|assumption].
  rewrite Hrest. cbn. by rewrite <- app_assoc.
Qed.

(** The effects of a frame with method "EngineStatus". *)
Lemma engine_status_effects JSON_parse ToNumber version
    (rx : list byte) (fs : list (string * json)) (params : json) (state : jsval) (h : handler) :
  JSON_parse (string_of_list_byte rx) = Some (JObj fs) ->
  assoc "method" fs = Some (JStr "EngineStatus") ->
  assoc "params" fs = Some params ->
  get (Some params) "State" = Normal state ->
  let h' := fst (frame JSON_parse ToNumber version rx h) in
  same_connection h h'
  /\ (is_string state "Standby" = true ->
      exists rest,
        trace h' = trace h ++ match socket h with Some s => [Destroy s] | None => [] end
                           ++ Emit_package (JObj fs) :: rest)
  /\ (is_string state "Active" = true ->
      exists rest,
        trace h' = trace h ++ Emit_ready :: Emit_package (JObj fs) :: rest
        /\ Forall (fun e => is_ClearTimeout e \/ exists err, e = NodeError err) rest).
Proof.
  intros Hparse Hmethod Hparams Hstate h'.
  split; [apply frame_same_connection|].
  subst h'. unfold frame. rewrite Hparse. unfold dispatch, bind.
  rewrite (notification_engine_status ToNumber fs params state h Hmethod Hparams Hstate).
  split.
  - intros Hstandby.
    assert (is_string state "Active" = false) as ->.
    { destruct state as [[]|]; try discriminate. cbn in *.
      apply String.eqb_eq in Hstandby. by subst. }
    rewrite Hstandby.
    destruct (emit_package_trace version (JObj fs) (closeSocket (socket h) h)) as (rest & Hrest & _).
    destruct (emit_package version (JObj fs) (closeSocket (socket h) h)) as [h2 [a|e]]; cbn in *.
    + exists rest. rewrite Hrest. destruct (socket h); cbn; [|reflexivity].
      by rewrite <- app_assoc.
    + exists (rest ++ [NodeError e]). rewrite Hrest. destruct (socket h); cbn.
      * by rewrite <- !app_assoc.
      * by rewrite <- app_assoc.
  - intros ->.
    destruct (emit_package_trace version (JObj fs) (log Emit_ready h)) as (rest & Hrest & Hall).
    destruct (emit_package version (JObj fs) (log Emit_ready h)) as [h2 [a|e]]; cbn in *.
    + exists rest. split; [by rewrite Hrest, <- app_assoc|].
      eapply Forall_impl; [exact Hall|]. by left.
    + exists (rest ++ [NodeError e]). split; [by rewrite Hrest, <- !app_assoc|].
      apply Forall_app. split.
      * eapply Forall_impl; [exact Hall|]. by left.
      * constructor; [|constructor]. right. by exists e.
Qed.

(** C8.  A decoded frame with method "EngineStatus": when params.State is
    "Standby" the socket stored as the current connection is destroyed; when
    it is "Active" the ready event is emitted, and what follows in the trace
    is the package event and the timers its listeners clear, no effect on a
    socket.  In both cases the fields of the connection are as before. *)
Theorem engine_status_frame JSON_parse ToNumber version
    (rx : list byte) (fs : list (string * json)) (params : json) (state : jsval) (h : handler) :
  JSON_parse (string_of_list_byte rx) = Some (JObj fs) ->
  assoc "method" fs = Some (JStr "EngineStatus") ->
  assoc "params" fs = Some params ->
  get (Some params) "State" = Normal state ->
  let h' := fst (frame JSON_parse ToNumber version rx h) in
  same_connection h h'
  /\ (is_string state "Standby" = true ->
      exists rest,
        trace h' = trace h ++ match socket h with Some s => [Destroy s] | None => [] end
                           ++ Emit_package (JObj fs) :: rest)
  /\ (is_string state "Active" = true ->
      exists rest,
        trace h' = trace h ++ Emit_ready :: Emit_package (JObj fs) :: rest
        /\ Forall (fun e => is_ClearTimeout e \/ exists err, e = NodeError err) rest).
Proof. apply engine_status_effects. Qed.

Lemma engine_status_frame_witness :
  let rx := Demo.bytes "{'method':'EngineStatus','params':{'State':'Standby'}}" in
  let fs := [("method", JStr "EngineStatus"); ("params", JObj [("State", JStr "Standby")])] in
  let h := Demo.run Correlator false [Call_getSocket; On_connect 0] new_handler in
  let h' := fst (frame Reader.json_parse Runtime.to_number Correlator rx h) in
  socket h = Some 0%nat
  /\ same_connection h h'
  /\ (is_string (Some (JStr "Standby")) "Standby" = true ->
      exists rest,
        trace h' = trace h ++ match socket h with Some s => [Destroy s] | None => [] end
                           ++ Emit_package (JObj fs) :: rest)
  /\ (is_string (Some (JStr "Standby")) "Active" = true ->
      exists rest,
        trace h' = trace h ++ Emit_ready :: Emit_package (JObj fs) :: rest
        /\ Forall (fun e => is_ClearTimeout e \/ exists err, e = NodeError err) rest).
Proof.
  split; [reflexivity|].
  apply (engine_status_frame Reader.json_parse Runtime.to_number Correlator
           (Demo.bytes "{'method':'EngineStatus','params':{'State':'Standby'}}")
           [("method", JStr "EngineStatus"); ("params", JObj [("State", JStr "Standby")])]
           (JObj [("State", JStr "Standby")]) (Some (JStr "Standby"))); reflexivity.
Defined.

(** ** The correlator: listeners and responses *)

Lemma settle_settled (p : nat) (r : option sock) (o : outcome) (h : handler) (q : nat) :
  is_Some (settled (settle p r o h) !! q) <-> is_Some (settled h !! q) \/ q = p.
Proof.
  unfold settle. destruct (settled h !! p) eqn:Hp.
  - split; [by left|]. intros [H| ->]; [assumption|]. by rewrite Hp.
  - assert (settled (match r with
                     | Some s => set_reactions (reactions (set_settled (<[p:=o]> (settled h)) h) ++ [(s, o)])
                                   (set_settled (<[p:=o]> (settled h)) h)
                     | None => set_settled (<[p:=o]> (settled h)) h
                     end) = <[p:=o]> (settled h)) as -> by (by destruct r).
    destruct (decide (q = p)) as [->|Hne].
    + rewrite lookup_insert_eq. split; [by right|by eauto].
    + rewrite lookup_insert_ne by done. split; [by left|]. by intros [H|H].
Qed.

(** Settling twice is settling once. *)
Lemma settle_twice (p : nat) (r : option sock) (o1 o2 : outcome) (h : handler) :
  settle p r o2 (settle p r o1 h) = settle p r o1 h.
Proof.
  unfold settle at 1.
  assert (is_Some (settled (settle p r o1 h) !! p)) as [o ->]; [|reflexivity].
  apply settle_settled. by right.
Qed.

Lemma get_not_null (error : json) (k : string) :
  error ≠ JNull -> exists x, get (Some error) k = Normal x.
Proof.
  intros Hnull. destruct error; try congruence; cbn; eauto.
  - destruct (String.eqb k "length"); eauto.
  - destruct (String.eqb k "length"); eauto.
Qed.

Lemma listener_spec version (rq : request) (data : json) (i : jsval) (h : handler) :
  get (Some data) "id" = Normal i ->
  listeners_safe version data ->
  listener version rq data h
  = (if is_number i (rq_id rq) then complete version data rq h else h, Normal tt).
Proof.
  intros Hid Hsafe. unfold listener, bind, lift. rewrite Hid.
  destruct (is_number i (rq_id rq)); [|reflexivity].
  unfold act, complete, completion_of. destruct version; [reflexivity|].
  destruct Hsafe as [|Hsafe]; [discriminate|].
  assert (data ≠ JNull) as Hdata by (intros ->; discriminate).
  destruct (get_not_null data "error" Hdata) as [error Herror].
  rewrite Herror in *. destruct error as [error|]; [|reflexivity].
  assert (error ≠ JNull) as Hnull by congruence.
  destruct (get_not_null error "code" Hnull) as [code ->].
  destruct (get_not_null error "message" Hnull) as [message ->].
  by rewrite settle_twice.
Qed.

Lemma call_listeners_spec version (ls : list request) (data : json) (i : jsval) (h : handler) :
  get (Some data) "id" = Normal i ->
  listeners_safe version data ->
  call_listeners version ls data h = (fold_left (respond version data i) ls h, Normal tt).
Proof.
  intros Hid Hsafe. revert h. induction ls as [|rq ls IH]; intros h; [reflexivity|].
  cbn. unfold bind. rewrite (listener_spec version rq data i h Hid Hsafe). apply IH.
Qed.

Lemma respond_settled version (data : json) (i : jsval) (ls : list request) (h : handler) (q : nat) :
  is_Some (settled (fold_left (respond version data i) ls h) !! q)
  <-> is_Some (settled h !! q)
      \/ exists rq, rq ∈ ls /\ rq_promise rq = q /\ is_number i (rq_id rq) = true.
Proof.
  revert h. induction ls as [|rq ls IH]; intros h; cbn [fold_left].
  - split; [by left|]. intros [H|(rq & Hin & _)]; [assumption|]. by apply elem_of_nil in Hin.
  - rewrite IH. unfold respond. destruct (is_number i (rq_id rq)) eqn:Hm.
    + unfold complete. rewrite settle_settled. cbn. split.
      * intros [[H| ->]|(rq' & Hin & Hp & Hm')]; [by left| |].
        -- right. exists rq. split; [apply elem_of_cons; by left|done].
        -- right. exists rq'. split; [apply elem_of_cons; by right|done].
      * intros [H|(rq' & Hin & Hp & Hm')]; [by left; left|].
        apply elem_of_cons in Hin as [->|Hin]; [by left; right|].
        right. by exists rq'.
    + split.
      * intros [H|(rq' & Hin & Hp & Hm')]; [by left|].
        right. exists rq'. split; [apply elem_of_cons; by right|done].
      * intros [H|(rq' & Hin & Hp & Hm')]; [by left|].
        apply elem_of_cons in Hin as [->|Hin]; [congruence|].
        right. by exists rq'.
Qed.

Lemma respond_unmatched version (data : json) (i : jsval) (ls : list request) (h : handler) :
  (forall rq, rq ∈ ls -> is_number i (rq_id rq) = false) ->
  fold_left (respond version data i) ls h = h.
Proof.
  revert h. induction ls as [|rq ls IH]; intros h Hno; [reflexivity|].
  cbn [fold_left]. unfold respond at 2. rewrite Hno by (apply elem_of_cons; by left).
  apply IH. intros rq' Hin. apply Hno, elem_of_cons. by right.
Qed.

Lemma NoDup_map_inj {A B} (f : A -> B) (l : list A) (x y : A) :
  NoDup (map f l) -> x ∈ l -> y ∈ l -> f x = f y -> x = y.
Proof.
  induction l as [|a l IH]; cbn; intros Hnd Hx Hy Hf.
  - by apply elem_of_nil in Hx.
  - apply NoDup_cons in Hnd as [Ha Hnd].
    apply elem_of_cons in Hx as [->|Hx]; apply elem_of_cons in Hy as [->|Hy];
      [reflexivity| | |by apply IH].
    + exfalso. apply Ha. rewrite Hf. apply list_elem_of_In, in_map, list_elem_of_In, Hy.
    + exfalso. apply Ha. rewrite <- Hf. apply list_elem_of_In, in_map, list_elem_of_In, Hx.
Qed.

Lemma is_number_inj (i : jsval) (m n : Z) :
  is_number i m = true -> is_number i n = true -> m = n.
Proof.
  destruct i as [[]|]; try discriminate. cbn. intros Hm Hn.
  apply Qeq_bool_iff in Hm, Hn. rewrite Hm in Hn.
  unfold Qeq in Hn. cbn in Hn. lia.
Qed.

Lemma emit_package_spec version (data : json) (i : jsval) (h : handler) :
  get (Some data) "id" = Normal i ->
  listeners_safe version data ->
  emit_package version data h
  = (fold_left (respond version data i) (listeners h) (log (Emit_package data) h), Normal tt).
Proof.
  intros Hid Hsafe. unfold emit_package, bind, act.
  by rewrite (call_listeners_spec version _ data i _ Hid Hsafe).
Qed.

(** C9.  A response is offered to every listener, and a listener acts on it
    exactly when the id of the response equals the id of its request: a
    pending request is completed by the response if and only if the ids are
    equal, wherever it stands among the listeners; when the ids of the
    requests are pairwise distinct at most one pending request is completed;
    and a response whose id is that of no listener changes nothing (the
    package event is in the trace, every entry is as before). *)
Theorem response_matched_by_id version (data : json) (i : jsval) (h : handler) :
  get (Some data) "id" = Normal i ->
  listeners_safe version data ->
  NoDup (map rq_promise (listeners h)) ->
  let h' := fst (emit_package version data h) in
  let pending rq := rq ∈ listeners h /\ settled h !! rq_promise rq = None in
  let completed rq := is_Some (settled h' !! rq_promise rq) in
  (forall rq, pending rq -> (completed rq <-> is_number i (rq_id rq) = true))
  /\ (NoDup (map rq_id (listeners h)) ->
      forall rq1 rq2, pending rq1 -> pending rq2 -> completed rq1 -> completed rq2 -> rq1 = rq2)
  /\ ((forall rq, rq ∈ listeners h -> is_number i (rq_id rq) = false) ->
      h' = log (Emit_package data) h).
Proof.
  intros Hid Hsafe Hnd h' pending completed. subst h'.
  assert (forall rq, pending rq -> (completed rq <-> is_number i (rq_id rq) = true)) as Hiff.
  { intros rq [Hin Hp]. unfold completed.
    rewrite (emit_package_spec version data i h Hid Hsafe). cbn [fst].
    rewrite respond_settled. cbn [settled log set_trace listeners]. split.
    - intros [H|(rq' & Hin' & Heq & Hm)].
      + rewrite Hp in H. by destruct H.
      + by rewrite <- (NoDup_map_inj rq_promise (listeners h) rq' rq Hnd Hin' Hin Heq).
    - intros Hm. right. by exists rq. }
  split; [exact Hiff|]. split.
  - intros Hids rq1 rq2 H1 H2 C1 C2.
    apply Hiff in C1, C2; try assumption.
    apply (NoDup_map_inj rq_id (listeners h)); [assumption|apply H1|apply H2|].
    by apply (is_number_inj i).
  - intros Hno. rewrite (emit_package_spec version data i h Hid Hsafe). cbn [fst].
    by apply respond_unmatched.
Qed.

Lemma response_matched_by_id_witness :
  let h := Demo.run Correlator false
             [Call_send (Demo.request "StatusGet" 5) None;
              Call_send (Demo.request "StatusGet" 6) None; On_connect 0] new_handler in
  let data := JObj [("id", num 6); ("result", JNull)] in
  let h' := fst (emit_package Correlator data h) in
  let pending rq := rq ∈ listeners h /\ settled h !! rq_promise rq = None in
  let completed rq := is_Some (settled h' !! rq_promise rq) in
  listeners h = [ {| rq_id := 5; rq_promise := 0; rq_then := None |};
                  {| rq_id := 6; rq_promise := 1; rq_then := None |} ]
  /\ (forall rq, pending rq -> (completed rq <-> is_number (Some (num 6)) (rq_id rq) = true))
  /\ (NoDup (map rq_id (listeners h)) ->
      forall rq1 rq2, pending rq1 -> pending rq2 -> completed rq1 -> completed rq2 -> rq1 = rq2)
  /\ ((forall rq, rq ∈ listeners h -> is_number (Some (num 6)) (rq_id rq) = false) ->
      h' = log (Emit_package data) h).
Proof.
  split; [reflexivity|].
  apply (response_matched_by_id Correlator (JObj [("id", num 6); ("result", JNull)]) (Some (num 6))).
  - reflexivity.
  - left. reflexivity.
  - apply (bool_decide_unpack _). vm_compute. exact I.
Defined.

(** ** Error responses and their hints *)


Lemma as_integer_is_number (code : jsval) (z : Z) :
  as_integer code = Some z -> is_number code z = true.
Proof.
  destruct code as [[]|]; try discriminate. unfold as_integer, is_number.
  destruct (Pos.eqb_spec (Qden (Qred q)) 1) as [Hden|]; [|discriminate].
  intros [= <-]. apply Qeq_bool_iff.
  rewrite <- (Qred_correct q) at 1.
  destruct (Qred q) as [n d]. cbn in *. subst d. reflexivity.
Qed.

Lemma settle_lookup (p : nat) (r : option sock) (o : outcome) (h : handler) :
  settled h !! p = None -> settled (settle p r o h) !! p = Some o.
Proof.
  intros Hp. unfold settle. rewrite Hp. destruct r; cbn; apply lookup_insert_eq.
Qed.

Lemma hint_unknown (code : jsval) :
  (forall z, z ∈ known_codes -> is_number code z = false) -> hint code = "Unknown Error".
Proof.
  intros Hother. unfold hint. destruct (as_integer code) as [z|] eqn:Hz; [|reflexivity].
  apply as_integer_is_number in Hz.
  assert (z ∉ known_codes) as Hnot by (intros Hin; rewrite (Hother z Hin) in Hz; discriminate).
  unfold known_codes in Hnot. rewrite !not_elem_of_cons in Hnot.
  destruct Hnot as (? & ? & ? & ? & ? & ? & ? & ? & ? & ? & ? & ? & ? & ? & ? & _).
  destruct z as [|p|p]; [reflexivity| |];
    repeat (destruct p as [p|p|]; first [reflexivity | congruence | idtac]).
Qed.

(** C6.  In the revision with [QSysApiError], a response that matches a
    pending request and carries an error (an object, or any value but null)
    completes the request by rejecting its promise with
    [QSysApiError(error.code, error.message)]; the hint of that error is the
    entry of the table for its code, and "Unknown Error" for a code outside
    the table. *)
Theorem error_response_rejects_with_hint (rq : request) (data error : json) (i : jsval) (h : handler) :
  get (Some data) "id" = Normal i ->
  is_number i (rq_id rq) = true ->
  get (Some data) "error" = Normal (Some error) ->
  error ≠ JNull ->
  settled h !! rq_promise rq = None ->
  let h' := fst (listener ApiError rq data h) in
  (exists code message,
      get (Some error) "code" = Normal code
      /\ get (Some error) "message" = Normal message
      /\ settled h' !! rq_promise rq = Some (Rejected (QSysApiError code message))
      /\ hint_of (QSysApiError code message) = Some (hint code))
  /\ hint (Some (num (-32700))) = "Parse error. Invalid JSON was received by the server."
  /\ hint (Some (num (-32600))) = "Invalid request. The JSON sent is not a valid Request object."
  /\ hint (Some (num (-32601))) = "Method not found."
  /\ hint (Some (num (-32602))) = "Invalid params."
  /\ hint (Some (num (-32603))) = "Server error."
  /\ hint (Some (num (-32604))) =
       "Core is on Standby. This code is returned when a QRC command is received while the Core is not the active Core in a redundant Core configuration."
  /\ hint (Some (num 2)) = "Invalid Page Request ID"
  /\ hint (Some (num 3)) = "Bad Page Request - could not create the requested Page Request"
  /\ hint (Some (num 4)) = "Missing file"
  /\ hint (Some (num 5)) = "Change Groups exhausted"
  /\ hint (Some (num 6)) = "Unknown change croup"
  /\ hint (Some (num 7)) = "Unknown component name"
  /\ hint (Some (num 8)) = "Unknown control"
  /\ hint (Some (num 9)) = "Illegal mixer channel index"
  /\ hint (Some (num 10)) = "Logon required"
  /\ (forall code, (forall z, z ∈ known_codes -> is_number code z = false) ->
                   hint code = "Unknown Error").
Proof.
  intros Hid Hmatch Herror Hnull Hpending h'. split.
  - destruct (get_not_null error "code" Hnull) as [code Hcode].
    destruct (get_not_null error "message" Hnull) as [message Hmessage].
    exists code, message. repeat split; try assumption. subst h'.
    rewrite (listener_spec ApiError rq data i h Hid); [|right; congruence].
    rewrite Hmatch. cbn [fst]. unfold complete, completion_of.
    rewrite Herror, Hcode, Hmessage. by apply settle_lookup.
  - repeat (split; [reflexivity|]). apply hint_unknown.
Qed.

(** The response {"id":7,"error":{"code":7,"message":"Unknown component"}}
    to the pending request 7. *)
Lemma error_response_rejects_with_hint_witness :
  let h := Demo.run ApiError false
             [Call_send (Demo.request "Component.GetControls" 7) None; On_connect 0] new_handler in
  let rq := {| rq_id := 7; rq_promise := 0; rq_then := None |} in
  let error := JObj [("code", num 7); ("message", JStr "Unknown component")] in
  let data := JObj [("id", num 7); ("error", error)] in
  let failure := QSysApiError (Some (num 7)) (Some (JStr "Unknown component")) in
  listeners h = [rq]
  /\ settled h !! 0%nat = None
  /\ settled (fst (listener ApiError rq data h)) !! 0%nat = Some (Rejected failure)
  /\ hint_of failure = Some "Unknown component name".
Proof.
  intros h rq error data failure.
  assert (error ≠ JNull) as Hnull by discriminate.
  destruct (error_response_rejects_with_hint rq data error (Some (num 7)) h
              eq_refl eq_refl eq_refl Hnull eq_refl)
    as [(code & message & Hcode & Hmessage & Hsettled & Hhint)
        (_ & _ & _ & _ & _ & _ & _ & _ & _ & _ & _ & H7 & _)].
  injection Hcode as <-. injection Hmessage as <-.
  split; [reflexivity|]. split; [reflexivity|]. split; [exact Hsettled|].
  unfold failure. rewrite Hhint, H7. reflexivity.
Defined.

(** ** One attempt at a time (getSocket, initSocket) *)

Section SingleFlight.

Variable JSON_parse : string -> option json.
Variable JSON_stringify : QsysMessage.t -> string.
Variable ToNumber : json -> option Q.
Variable version : revision.
Variable config : Config.
Variable name : string.
Variables username password : option string.
Variables target_host target_port : string.

Local Abbreviation step' :=
  (step JSON_parse JSON_stringify ToNumber version config name username password
        target_host target_port).
Local Abbreviation run' :=
  (run JSON_parse JSON_stringify ToNumber version config name username password
       target_host target_port).

Lemma step_quiet (e : event) (h : handler) :
  let h1 := handle JSON_parse JSON_stringify ToNumber version config name username password
                   target_host target_port e h in
  reactions h1 = [] -> resumptions h1 = [] ->
  step' e h = set_resumptions [] (set_reactions [] h1).
Proof.
  intros h1 Hreactions Hresumptions. unfold step, run_reactions, run_resumptions.
  fold h1. rewrite Hreactions. cbn. by rewrite Hresumptions.
Qed.

Lemma demand_step (d : demand) (h : handler) :
  socket h = None -> quiescent h -> attempts h !! attempt_of h = None ->
  let h' := step' (call d) h in
  socket h' = None /\ quiescent h' /\ attempts h' = attempts h
  /\ connectionPromise h' = Some (attempt_of h)
  /\ sockets h' = (if connectionPromise h is Some _ then sockets h else S (sockets h))
  /\ exists added, waiting h' = waiting h ++ added
                   /\ Forall (fun w => sp_attempt w = attempt_of h) added
                   /\ length added = sends [d].
Proof.
  intros Hsocket [Hreactions Hresumptions]. unfold attempt_of. intros Hpending.
  destruct d as [input| |]; cbn [call]; rewrite step_quiet; unfold handle;
    unfold send, stamp, getSocket, initSocket, reserveId;
    rewrite ?Hsocket; repeat (case_match; simplify_eq/=); try done; try congruence;
    (repeat split; try done; first [by exists []; rewrite app_nil_r
                                   | eexists; split; [reflexivity|]; by repeat constructor]).
Qed.

(** C5.  While no connection exists, a burst of demands ([send] without a
    socket, [getSocket], [initSocket]) opens at most one transport, and none
    when an attempt is already in flight: every demand is given the promise
    of the one attempt, and every [send] of the burst waits for it.  (The
    attempt in flight, or else the one the burst starts, has not settled.) *)
Theorem single_flight (ds : list demand) (h : handler) :
  socket h = None -> quiescent h -> attempts h !! attempt_of h = None ->
  let h' := run' (map call ds) h in
  let a := attempt_of h in
  (connectionPromise h = Some a -> initSocket h = (h, a) /\ getSocket h = (h, Later a))
  /\ sockets h' = (if connectionPromise h is Some _ then sockets h
                   else if ds is [] then sockets h else S (sockets h))
  /\ (sockets h' <= S (sockets h))%nat
  /\ socket h' = None
  /\ (ds ≠ [] -> connectionPromise h' = Some a)
  /\ exists added, waiting h' = waiting h ++ added
                   /\ Forall (fun w => sp_attempt w = a) added
                   /\ length added = sends ds.
Proof.
  intros Hsocket Hquiet Hpending h' a. split.
  { intros Hc. unfold getSocket, initSocket. by rewrite Hsocket, Hc. }
  subst h' a. revert h Hsocket Hquiet Hpending.
  induction ds as [|d ds IH]; intros h Hsocket Hquiet Hpending.
  - cbn. repeat split; try done.
    + by destruct (connectionPromise h).
    + lia.
    + exists []. by rewrite app_nil_r.
  - cbn [map run fold_left].
    destruct (demand_step d h Hsocket Hquiet Hpending)
      as (Hs1 & Hq1 & Hat1 & Hc1 & Hn1 & added1 & Hw1 & Ha1 & Hl1).
    assert (attempt_of (step' (call d) h) = attempt_of h) as Heq
        by (unfold attempt_of at 1; by rewrite Hc1).
    assert (attempts (step' (call d) h) !! attempt_of (step' (call d) h) = None) as Hp1
        by (by rewrite Heq, Hat1).
    destruct (IH _ Hs1 Hq1 Hp1) as (Hn & _ & Hs & Hc & added & Hw & Ha & Hl).
    unfold run in *.
    rewrite Heq in *. rewrite Hc1 in Hn. rewrite Hn, Hn1.
    repeat split; try done.
    + destruct (connectionPromise h); lia.
    + intros _. destruct ds; [exact Hc1|]. by apply Hc.
    + exists (added1 ++ added). rewrite Hw, Hw1, app_assoc. repeat split; try done.
      * by apply Forall_app.
      * rewrite length_app, Hl, Hl1. by destruct d.
Qed.

End SingleFlight.

Lemma single_flight_witness :
  let ds := [Demand_send (Demo.request "StatusGet" 1); Demand_getSocket;
             Demand_send (Demo.request "StatusGet" 2); Demand_initSocket] in
  let h' := Demo.run Correlator false (map call ds) new_handler in
  socket new_handler = None /\ quiescent new_handler
  /\ attempts new_handler !! attempt_of new_handler = None
  /\ sockets h' = 1%nat
  /\ connectionPromise h' = Some 0%nat
  /\ exists added, waiting h' = added
                   /\ Forall (fun w => sp_attempt w = 0%nat) added /\ length added = 2%nat.
Proof.
  intros ds h'.
  destruct (single_flight Reader.json_parse Runtime.stringify Runtime.to_number Correlator
              (Demo.config false) "Core" (Some "admin") (Some "secret") "core" "1710"
              ds new_handler eq_refl (conj eq_refl eq_refl) eq_refl)
    as (_ & Hn & _ & _ & Hc & added & Hw & Ha & Hl).
  split; [reflexivity|]. split; [by split|]. split; [reflexivity|]. split; [exact Hn|].
  split; [by apply Hc|]. exists added. by repeat split.
Defined.

(** ** Teardown *)

Lemma close_all_fold (l : list sock) (h : handler) :
  fold_left (fun h' s => closeSocket (Some s) h') l h = set_trace (trace h ++ map Destroy l) h.
Proof.
  revert h. induction l as [|s l IH]; intros h; cbn [fold_left map].
  - destruct h; cbn. unfold set_trace; cbn. by rewrite app_nil_r.
  - rewrite IH. unfold set_trace, closeSocket, log; cbn. by rewrite <- app_assoc.
Qed.

(** C4, counterexample.  Request 5 is pending on socket 0 when the socket
    closes: its promise is not settled and its timer stays armed. *)
Lemma teardown_rejects_pending_fails :
  ~ teardown_rejects_pending Correlator /\ ~ teardown_rejects_pending ApiError.
Proof.
  split; intros H.
  - pose (h := Demo.run Correlator false
                 [Call_send (Demo.request "StatusGet" 5) None; On_connect 0] new_handler).
    destruct (H h (On_close 0) {| rq_id := 5; rq_promise := 0; rq_then := None |})
      as [[error Herror] _]; [exact I|by apply list_elem_of_singleton|reflexivity|].
    vm_compute in Herror. discriminate.
  - pose (h := Demo.run ApiError false
                 [Call_send (Demo.request "StatusGet" 5) None; On_connect 0] new_handler).
    destruct (H h (On_close 0) {| rq_id := 5; rq_promise := 0; rq_then := None |})
      as [[error Herror] _]; [exact I|by apply list_elem_of_singleton|reflexivity|].
    vm_compute in Herror. discriminate.
Qed.

Section Teardown.

Variable JSON_parse : string -> option json.
Variable JSON_stringify : QsysMessage.t -> string.
Variable ToNumber : json -> option Q.
Variable version : revision.
Variable config : Config.
Variable name : string.
Variables username password : option string.
Variables target_host target_port : string.

Local Abbreviation step' :=
  (step JSON_parse JSON_stringify ToNumber version config name username password
        target_host target_port).

Lemma gone_spec (s : sock) (message : string) (h : handler) :
  quiescent h ->
  let h' := run_resumptions JSON_stringify
              (run_reactions version
                 (if bool_decide (s < sockets h)%nat then on_gone s message h else h)) in
  listeners h' = listeners h /\ timeouts h' = timeouts h /\ settled h' = settled h
  /\ waiting h' = waiting h /\ attempts h' = attempts h
  /\ ((s < sockets h)%nat ->
      trace h' = trace h ++ [Destroy s; NodeDebug message]
      /\ socket h' = if bool_decide (socket h = Some s) then None else socket h).
Proof.
  intros [Hreactions Hresumptions]. unfold run_reactions, run_resumptions, on_gone.
  repeat case_bool_decide; try congruence; try lia;
    cbn; rewrite ?Hreactions; cbn; rewrite ?Hresumptions; cbn;
    split_and!; try done; try (intros ?; lia);
    intros _; (split; [by rewrite <- app_assoc|done]).
Qed.

(** C4, as the code has it.  On a teardown event (close, end or timeout of a
    socket, or the node closing) the socket is destroyed and, for the three
    socket events, the stored socket is cleared when it is that socket.  The
    pending requests are left as they are: no promise is settled, no listener
    removed and no timer disarmed, so each request stays pending until its
    response arrives or its own timer fires. *)
Theorem teardown_leaves_pending (e : event) (h : handler) :
  teardown e -> quiescent h ->
  let h' := step' e h in
  listeners h' = listeners h /\ timeouts h' = timeouts h /\ settled h' = settled h
  /\ waiting h' = waiting h /\ attempts h' = attempts h
  /\ (forall s, e = On_close s \/ e = On_end s \/ e = On_timeout s -> (s < sockets h)%nat ->
        (exists message, trace h' = trace h ++ [Destroy s; NodeDebug message])
        /\ socket h' = if bool_decide (socket h = Some s) then None else socket h)
  /\ (e = Node_close ->
        trace h' = trace h ++ (if noOpIntervalId h then [ClearInterval] else [])
                           ++ map Destroy (seq 0 (sockets h))
        /\ socket h' = socket h).
Proof.
  intros He Hquiet.
  destruct e; try (by destruct He); cbn zeta.
  1-3: unfold step, handle;
       match goal with
       | |- context [on_gone ?s ?m _] =>
           destruct (gone_spec s m h Hquiet) as (? & ? & ? & ? & ? & Hgone)
       end;
       (split_and!; try done);
       intros s' Hs' Hlt; assert (s' = s) as -> by (by destruct Hs' as [[=]|[[=]|[=]]]);
       destruct (Hgone Hlt) as [Htrace Hsocket]; (split; [by eexists|done]).
  destruct Hquiet as [Hreactions Hresumptions].
  rewrite step_quiet; unfold handle; rewrite ?close_all_fold;
    [|by destruct (noOpIntervalId h)..].
  destruct (noOpIntervalId h); cbn; (split_and!; try done; try (by intros ? [[=]|[[=]|[=]]]));
    intros _; by rewrite <- ?app_assoc.
Qed.

End Teardown.

Lemma teardown_leaves_pending_witness :
  let h := Demo.run Correlator false
             [Call_send (Demo.request "StatusGet" 5) None; On_connect 0] new_handler in
  let h' := Demo.step Correlator false (On_close 0) h in
  let rq := {| rq_id := 5; rq_promise := 0; rq_then := None |} in
  teardown (On_close 0) /\ quiescent h
  /\ listeners h' = [rq] /\ timeouts h' = [rq] /\ settled h' = ∅
  /\ trace h' = trace h ++ [Destroy 0; NodeDebug "Socket to core:1710 closed."]
  /\ socket h = Some 0%nat /\ socket h' = None.
Proof.
  intros h h' rq.
  assert (quiescent h) as Hquiet by (by split).
  destruct (teardown_leaves_pending Reader.json_parse Runtime.stringify Runtime.to_number
              Correlator (Demo.config false) "Core" (Some "admin") (Some "secret") "core" "1710"
              (On_close 0) h I Hquiet)
    as (Hl & Ht & Hs & _ & _ & Hgone & _).
  destruct (Hgone 0%nat (or_introl eq_refl)) as [[message Htrace] Hsocket]; [vm_compute; lia|].
  split; [exact I|]. split; [exact Hquiet|].
  split; [exact Hl|]. split; [exact Ht|]. split; [exact Hs|].
  split; [reflexivity|]. split; [reflexivity|exact Hsocket].
Defined.

(** ** The stored socket *)

Lemma settle_attempt_socket (s : sock) (o : attempt_outcome) (h : handler) :
  socket (settle_attempt s o h) = socket h.
Proof. unfold settle_attempt. by case_match. Qed.

Lemma handleReject_socket (s : sock) (error : js_error) (h : handler) :
  socket (handleReject s error h) = socket h.
Proof. unfold handleReject. by rewrite settle_attempt_socket, updateStatus_spec. Qed.

Lemma handleResolve_socket (s : sock) (h : handler) :
  socket (handleResolve s h) = Some s.
Proof. unfold handleResolve. by rewrite settle_attempt_socket, updateStatus_spec. Qed.

Lemma logon_settled_socket version (r : sock * outcome) (h : handler) :
  is_Some (socket h) -> is_Some (socket (logon_settled version r h)).
Proof.
  intros Hs. unfold logon_settled.
  repeat case_match; rewrite ?handleReject_socket, ?handleResolve_socket; eauto.
Qed.

Lemma run_reactions_socket version (h : handler) :
  is_Some (socket h) -> is_Some (socket (run_reactions version h)).
Proof.
  unfold run_reactions. generalize (reactions h). intros l.
  change (socket h) with (socket (set_reactions [] h)).
  generalize (set_reactions [] h). clear h.
  induction l as [|r l IH]; intros h Hs; [exact Hs|].
  cbn. apply IH. by apply logon_settled_socket.
Qed.

Lemma settle_socket (p : nat) (r : option sock) (o : outcome) (h : handler) :
  socket (settle p r o h) = socket h.
Proof. unfold settle. by repeat case_match. Qed.

Lemma resume_socket JSON_stringify (r : suspended * attempt_outcome) (h : handler) :
  socket (resume JSON_stringify r h) = socket h.
Proof. unfold resume. repeat case_match; [done|apply settle_socket]. Qed.

Lemma run_resumptions_socket JSON_stringify (h : handler) :
  socket (run_resumptions JSON_stringify h) = socket h.
Proof.
  unfold run_resumptions. generalize (resumptions h). intros l.
  change (socket h) with (socket (set_resumptions [] h)).
  generalize (set_resumptions [] h). clear h.
  induction l as [|r l IH]; intros h; [reflexivity|].
  cbn. rewrite IH. apply resume_socket.
Qed.

Lemma send_socket JSON_stringify (input : QsysMessage.t) (forced : option sock) (h : handler) :
  socket (fst (send JSON_stringify input forced h)) = socket h.
Proof.
  unfold send, stamp, reserveId, getSocket, initSocket.
  repeat (case_match; simplify_eq/=); done.
Qed.

Section StoredSocket.

Variable JSON_parse : string -> option json.
Variable JSON_stringify : QsysMessage.t -> string.
Variable ToNumber : json -> option Q.
Variable version : revision.
Variable config : Config.
Variable name : string.
Variables username password : option string.
Variables target_host target_port : string.

Local Abbreviation handle' :=
  (handle JSON_parse JSON_stringify ToNumber version config name username password
          target_host target_port).
Local Abbreviation step' :=
  (step JSON_parse JSON_stringify ToNumber version config name username password
        target_host target_port).

(** Only the handlers of close, end and timeout assign [undefined] to
    [this.socket], and only when it holds their socket. *)
Lemma handle_socket (e : event) (h : handler) (s : sock) :
  socket h = Some s ->
  is_Some (socket (handle' e h)) \/ e = On_close s \/ e = On_end s \/ e = On_timeout s.
Proof.
  intros Hs. destruct e; cbn [handle].
  - left. rewrite send_socket. by rewrite Hs.
  - left. unfold getSocket. rewrite Hs. cbn. by rewrite Hs.
  - left. unfold initSocket. repeat (case_match; simplify_eq/=); by rewrite Hs.
  - left. unfold getComponentList. rewrite send_socket. by rewrite Hs.
  - left. unfold registerStatusCallback. case_match; cbn; by rewrite Hs.
  - left. unfold unregisterStatusCallback. case_match; cbn; by rewrite Hs.
  - left. case_match; [|by rewrite Hs].
    destruct (send JSON_stringify (logon username password) (Some s0) h) as [h1 p] eqn:Hsend.
    unfold attach_then. cbn.
    change h1 with (fst (h1, p)). rewrite <- Hsend, send_socket. by rewrite Hs.
  - unfold on_gone. repeat (case_bool_decide; simplify_eq/=); try (left; by rewrite Hs); auto.
  - unfold on_gone. repeat (case_bool_decide; simplify_eq/=); try (left; by rewrite Hs); auto.
  - unfold on_gone. repeat (case_bool_decide; simplify_eq/=); try (left; by rewrite Hs); auto.
  - left. unfold on_attempt_failed. case_match; rewrite ?handleReject_socket; cbn; by rewrite Hs.
  - left. unfold on_attempt_failed. case_match; rewrite ?handleReject_socket; cbn; by rewrite Hs.
  - left. repeat case_match; rewrite ?handleResolve_socket; cbn; rewrite ?Hs; eauto.
  - left. repeat case_match; cbn; by rewrite Hs.
  - left. case_match; [|by rewrite Hs].
    rewrite (sc_socket _ _ (receive_same_connection JSON_parse ToNumber version data h)).
    by rewrite Hs.
  - left. rewrite close_all_fold. case_match; cbn; by rewrite Hs.
  - left. unfold timer_fired. case_match; rewrite ?settle_socket; cbn; by rewrite Hs.
Qed.

Lemma step_socket (e : event) (h : handler) (s : sock) :
  socket h = Some s -> socket (step' e h) = None ->
  e = On_close s \/ e = On_end s \/ e = On_timeout s.
Proof.
  intros Hs Hnone. destruct (handle_socket e h s Hs) as [Hsome|]; [|assumption].
  unfold step in Hnone. rewrite run_resumptions_socket in Hnone.
  apply (run_reactions_socket version) in Hsome. rewrite Hnone in Hsome. by destruct Hsome.
Qed.

(** C10.  [closeSocket] destroys the socket it is given and leaves
    [this.socket] as it is.  With [this.socket] holding socket [s]: whatever
    socket [closeSocket] is called with, the field still holds [s]; an event
    after which the field is empty is the close, end or timeout event of [s];
    and after a frame with method "EngineStatus" and state "Standby" the
    socket [s] is destroyed while the field still holds it, so that
    [getSocket] returns [s] and [send] writes to [s]. *)
Theorem closeSocket_leaves_field (h : handler) (s : sock) :
  socket h = Some s ->
  (forall x, socket (closeSocket x h) = Some s
             /\ trace (closeSocket x h) = trace h ++ (if x is Some y then [Destroy y] else []))
  /\ (forall e, socket (step' e h) = None -> e = On_close s \/ e = On_end s \/ e = On_timeout s)
  /\ (forall rx fs params,
        JSON_parse (string_of_list_byte rx) = Some (JObj fs) ->
        assoc "method" fs = Some (JStr "EngineStatus") ->
        assoc "params" fs = Some params ->
        get (Some params) "State" = Normal (Some (JStr "Standby")) ->
        let h' := fst (frame JSON_parse ToNumber version rx h) in
        socket h' = Some s
        /\ (exists rest, trace h' = trace h ++ Destroy s :: rest)
        /\ getSocket h' = (h', Now s)
        /\ forall input, exists stamped,
             trace (fst (send JSON_stringify input None h'))
             = trace h' ++ [Write s (encapsulate JSON_stringify stamped);
                            SetTimeout (promises h') (10 * 1000)]).
Proof.
  intros Hs. split_and!.
  - intros [y|]; cbn; [by rewrite Hs|]. by rewrite app_nil_r.
  - intros e. by apply step_socket.
  - intros rx fs params Hparse Hmethod Hparams Hstate h'.
    destruct (engine_status_effects JSON_parse ToNumber version rx fs params _ h
                Hparse Hmethod Hparams Hstate) as (Hsame & Hstandby & _).
    fold h' in Hsame, Hstandby.
    assert (socket h' = Some s) as Hs' by (by rewrite (sc_socket _ _ Hsame)).
    split_and!; [exact Hs'| | |].
    + destruct (Hstandby eq_refl) as [rest Hrest]. rewrite Hs in Hrest. by eexists.
    + unfold getSocket. by rewrite Hs'.
    + intros input. unfold send, stamp, reserveId. rewrite Hs'.
      destruct (QsysMessage.id input); cbn; eexists; by rewrite <- app_assoc.
Qed.

End StoredSocket.

Lemma closeSocket_leaves_field_witness :
  let h := Demo.run Correlator false [Call_getSocket; On_connect 0] new_handler in
  let standby := Demo.bytes "{'method':'EngineStatus','params':{'State':'Standby'}}" in
  let h' := fst (frame Reader.json_parse Runtime.to_number Correlator standby h) in
  socket h = Some 0%nat
  /\ socket h' = Some 0%nat
  /\ (exists rest, trace h' = trace h ++ Destroy 0 :: rest)
  /\ getSocket h' = (h', Now 0%nat)
  /\ exists stamped,
       trace (fst (send Runtime.stringify (Demo.request "StatusGet" 5) None h'))
       = trace h' ++ [Write 0 (encapsulate Runtime.stringify stamped); SetTimeout 0 (10 * 1000)].
Proof.
  intros h standby h'.
  destruct (closeSocket_leaves_field Reader.json_parse Runtime.stringify Runtime.to_number
              Correlator (Demo.config false) "Core" (Some "admin") (Some "secret") "core" "1710"
              h 0%nat eq_refl) as (_ & _ & Hstandby).
  destruct (Hstandby standby
              [("method", JStr "EngineStatus"); ("params", JObj [("State", JStr "Standby")])]
              (JObj [("State", JStr "Standby")]) eq_refl eq_refl eq_refl eq_refl)
    as (Hs & Hd & Hg & Hw).
  split; [reflexivity|]. split; [exact Hs|]. split; [exact Hd|]. split; [exact Hg|].
  apply Hw.
Defined.

(** ** A failed Logon *)

Lemma logon_settled_failed version (s : sock) (o : outcome) (h : handler) :
  failed o -> logon_settled version (s, o) h = handleReject s (failure_of version o) h.
Proof.
  intros Hfailed. unfold logon_settled, failure_of. destruct o as [response|e]; [|reflexivity].
  unfold failed in Hfailed. destruct (get (Some response) "error") as [error|e]; [|reflexivity].
  rewrite Hfailed. destruct version; [reflexivity|].
  by destruct (get error "code"), (get error "message").
Qed.

Lemma Forall_filtered {A} (Q P : A -> Prop) `{!forall x, Decision (P x)} (l : list A) :
  Forall Q l -> Forall Q (filter P l).
Proof.
  rewrite !Forall_forall. intros Hl x Hx. apply list_elem_of_filter in Hx as [_ Hx]. auto.
Qed.

Section Refused.

Variable s : sock.
Variable lp : nat.
Variable error : js_error.

Lemma refused_settle (p : nat) (r : option sock) (o : outcome) (h : handler) :
  (r = Some s -> p = lp) -> refused s lp error h -> refused s lp error (settle p r o h).
Proof.
  intros Hr (Hs & Ha & Hd & Hl & Ht & Hq). unfold settle.
  destruct (settled h !! p) eqn:Hp; [done|].
  assert (r ≠ Some s) as Hne.
  { intros Heq. specialize (Hr Heq). subst p. rewrite Hp in Hd. by destruct Hd. }
  assert (is_Some (<[p := o]> (settled h) !! lp)) as Hd'.
  { destruct (decide (p = lp)) as [->|Hpl]; [rewrite lookup_insert_eq; by eexists|].
    by rewrite lookup_insert_ne. }
  destruct r as [s'|]; unfold refused, logon_over; cbn; split_and!; try done.
  apply Forall_app. split; [done|]. constructor; [|constructor]. cbn. congruence.
Qed.

Lemma refused_settle_attempt (s' : sock) (o : attempt_outcome) (h : handler) :
  refused s lp error h -> refused s lp error (settle_attempt s' o h).
Proof.
  intros (Hs & Ha & Hd & Hl & Ht & Hq). unfold settle_attempt.
  destruct (attempts h !! s') eqn:Hs'; [done|].
  unfold refused, logon_over. split_and!; try done. cbn.
  rewrite lookup_insert_ne; [done|congruence].
Qed.

Lemma refused_handleReject (s' : sock) (e : js_error) (h : handler) :
  refused s lp error h -> refused s lp error (handleReject s' e h).
Proof.
  intros Hh. unfold handleReject. apply refused_settle_attempt.
  rewrite updateStatus_spec. exact Hh.
Qed.

Lemma refused_handleResolve (s' : sock) (h : handler) :
  s' ≠ s -> refused s lp error h -> refused s lp error (handleResolve s' h).
Proof.
  intros Hne (Hs & Ha & Hd & Hl & Ht & Hq). unfold handleResolve. apply refused_settle_attempt.
  rewrite updateStatus_spec. unfold refused, logon_over.
  destruct (socket h); cbn; split_and!; try done; congruence.
Qed.

Lemma refused_receive JSON_parse ToNumber version (data : list byte) (h : handler) :
  refused s lp error h -> refused s lp error (receive JSON_parse ToNumber version data h).
Proof.
  apply (keeps_receive version (refused s lp error)
           (fun rq => rq_then rq = Some s -> rq_promise rq = lp)); try done.
  - intros p h' (Hs & Ha & Hd & Hl & Ht & Hq). unfold refused, logon_over.
    split_and!; try done. cbn. by apply Forall_filtered.
  - intros p h' (Hs & Ha & Hd & Hl & Ht & Hq). unfold refused, logon_over.
    split_and!; try done. cbn. by apply Forall_filtered.
  - intros rq o h' Hrq. by apply refused_settle.
  - by intros h' (Hs & Ha & Hd & Hl & Ht & Hq).
Qed.

Lemma refused_send_continue JSON_stringify (input : QsysMessage.t) (id : Z) (p : nat)
    (s' : sock) (h : handler) :
  refused s lp error h -> refused s lp error (send_continue JSON_stringify input id p s' h).
Proof.
  intros (Hs & Ha & Hd & Hl & Ht & Hq). unfold send_continue, refused, logon_over. cbn.
  split_and!; try done; (apply Forall_app; split; [done|]); by repeat constructor.
Qed.

Lemma refused_same (h h' : handler) :
  socket h' = socket h -> attempts h' = attempts h -> settled h' = settled h ->
  listeners h' = listeners h -> timeouts h' = timeouts h -> reactions h' = reactions h ->
  refused s lp error h -> refused s lp error h'.
Proof. unfold refused, logon_over. by intros -> -> -> -> -> ->. Qed.

Lemma refused_send JSON_stringify (input : QsysMessage.t) (forced : option sock) (h : handler) :
  refused s lp error h -> refused s lp error (fst (send JSON_stringify input forced h)).
Proof.
  intros Hh. unfold send.
  destruct (stamp input h) as [[h1 input1] id] eqn:Hstamp.
  assert (refused s lp error (set_promises (S (promises h1)) h1)) as Hh1.
  { unfold stamp, reserveId in Hstamp. destruct (QsysMessage.id input); by simplify_eq. }
  destruct (match forced with Some s0 => Some s0 | None => socket h end).
  - cbn. by apply refused_send_continue.
  - destruct (getSocket (set_promises (S (promises h1)) h1)) as [h2 [s2|a]] eqn:Hget;
      cbn; (eapply refused_same; [..|exact Hh1]); cbn;
      unfold getSocket, initSocket in Hget; repeat case_match; by simplify_eq.
Qed.

Lemma refused_resume JSON_stringify (r : suspended * attempt_outcome) (h : handler) :
  refused s lp error h -> refused s lp error (resume JSON_stringify r h).
Proof.
  intros Hh. unfold resume. repeat case_match.
  - by apply refused_send_continue.
  - by apply refused_settle.
Qed.

Lemma refused_run_resumptions JSON_stringify (h : handler) :
  refused s lp error h -> refused s lp error (run_resumptions JSON_stringify h).
Proof.
  intros Hh. unfold run_resumptions.
  assert (refused s lp error (set_resumptions [] h)) as H0 by done.
  revert H0. generalize (set_resumptions [] h). generalize (resumptions h). clear.
  induction l as [|r l IH]; intros h Hh; [done|].
  cbn. by apply IH, refused_resume.
Qed.

Lemma refused_run_reactions version (h : handler) :
  refused s lp error h -> refused s lp error (run_reactions version h).
Proof.
  intros (Hs & Ha & Hd & Hl & Ht & Hq). unfold run_reactions.
  assert (refused s lp error (set_reactions [] h)) as H0
      by (unfold refused, logon_over; by split_and!).
  revert H0 Hq. generalize (set_reactions [] h). generalize (reactions h). clear.
  induction l as [|[s' o] l IH]; intros h Hh Hl; [done|].
  apply Forall_cons in Hl as [Hne Hl]. cbn in Hne.
  cbn. apply IH; [|done]. unfold logon_settled.
  repeat case_match; by first [apply refused_handleReject | apply refused_handleResolve].
Qed.

End Refused.

Section HandshakeFailure.

Variable JSON_parse : string -> option json.
Variable JSON_stringify : QsysMessage.t -> string.
Variable ToNumber : json -> option Q.
Variable version : revision.
Variable config : Config.
Variable name : string.
Variables username password : option string.
Variables target_host target_port : string.

Local Abbreviation handle' :=
  (handle JSON_parse JSON_stringify ToNumber version config name username password
          target_host target_port).
Local Abbreviation step' :=
  (step JSON_parse JSON_stringify ToNumber version config name username password
        target_host target_port).
Local Abbreviation run' :=
  (run JSON_parse JSON_stringify ToNumber version config name username password
       target_host target_port).

Hypothesis authentication_on : authentication_enabled config = true.

Lemma refused_handle (s : sock) (lp : nat) (error : js_error) (e : event) (h : handler) :
  e ≠ On_ready s -> refused s lp error h -> refused s lp error (handle' e h).
Proof.
  intros He Hh. destruct e; cbn [handle].
  - by apply refused_send.
  - unfold getSocket, initSocket. by repeat (case_match; simplify_eq/=).
  - unfold initSocket. by repeat (case_match; simplify_eq/=).
  - by apply refused_send.
  - unfold registerStatusCallback. by case_match.
  - unfold unregisterStatusCallback. by case_match.
  - case_match; [|done].
    destruct (send JSON_stringify (logon username password) (Some s0) h)
      as [h1 p] eqn:Hsend.
    assert (refused s lp error h1) as (Hs & Ha & Hd & Hl & Ht & Hq).
    { change h1 with (fst (h1, p)). rewrite <- Hsend. by apply refused_send. }
    assert (s0 ≠ s) by (intros ->; by apply He).
    assert (forall l : list request,
              Forall (fun rq => rq_then rq = Some s -> rq_promise rq = lp) l ->
              Forall (fun rq => rq_then rq = Some s -> rq_promise rq = lp)
                (map (fun r => if bool_decide (rq_promise r = p)
                               then {| rq_id := rq_id r; rq_promise := p; rq_then := Some s0 |}
                               else r) l)) as Hmark.
    { induction 1 as [|rq l Hrq _ IH]; cbn; constructor; [|done].
      destruct (bool_decide (rq_promise rq = p)); cbn; [congruence|done]. }
    unfold attach_then, refused, logon_over. cbn. split_and!; by try apply Hmark.
  - unfold on_gone. destruct Hh as (Hs & Ha & Hd & Hl & Ht & Hq). unfold refused, logon_over.
    repeat (case_bool_decide; simplify_eq/=); by split_and!.
  - unfold on_gone. destruct Hh as (Hs & Ha & Hd & Hl & Ht & Hq). unfold refused, logon_over.
    repeat (case_bool_decide; simplify_eq/=); by split_and!.
  - unfold on_gone. destruct Hh as (Hs & Ha & Hd & Hl & Ht & Hq). unfold refused, logon_over.
    repeat (case_bool_decide; simplify_eq/=); by split_and!.
  - unfold on_attempt_failed. case_match; [|done]. by apply refused_handleReject.
  - unfold on_attempt_failed. case_match; [|done]. by apply refused_handleReject.
  - rewrite authentication_on. by case_match.
  - by repeat case_match.
  - case_match; [|done]. by apply refused_receive.
  - rewrite close_all_fold. by case_match.
  - unfold timer_fired. destruct (filter _ (timeouts h)) as [|rq l] eqn:Hf; [done|].
    assert (rq ∈ timeouts h /\ rq_promise rq = promise) as [Hin Hp].
    { assert (rq ∈ filter (fun r => rq_promise r = promise) (timeouts h)) as Hin
          by (rewrite Hf; apply elem_of_cons; by left).
      by apply list_elem_of_filter in Hin as [? ?]. }
    assert (rq_then rq = Some s -> promise = lp) as Hrq.
    { destruct Hh as (_ & _ & _ & _ & Ht & _). rewrite Forall_forall in Ht.
      intros Hthen. rewrite <- Hp. by apply Ht. }
    apply refused_settle; [done|]. destruct Hh as (Hs & Ha & Hd & Hl & Ht & Hq).
    unfold refused, logon_over. split_and!; try done. cbn. by apply Forall_filtered.
Qed.

Lemma refused_step (s : sock) (lp : nat) (error : js_error) (e : event) (h : handler) :
  e ≠ On_ready s -> refused s lp error h -> refused s lp error (step' e h).
Proof.
  intros He Hh. unfold step.
  by apply refused_run_resumptions, refused_run_reactions, refused_handle.
Qed.

Lemma refused_run (s : sock) (lp : nat) (error : js_error) (es : list event) (h : handler) :
  Forall (fun e => e ≠ On_ready s) es -> refused s lp error h ->
  refused s lp error (run' es h).
Proof.
  intros Hes. revert h. induction Hes as [|e es He _ IH]; intros h Hh; [done|].
  cbn. by apply IH, refused_step.
Qed.

End HandshakeFailure.

Lemma handleReject_spec (s : sock) (error : js_error) (h : handler) :
  attempts h !! s = None ->
  let h1 := handleReject s error h in
  trace h1 = trace h ++ map (fun k => StatusCallback k (socket h) Error (Some error))
                            (statusCallbacks h)
  /\ connectionPromise h1 = None
  /\ socket h1 = socket h
  /\ attempts h1 !! s = Some (Rejected error)
  /\ resumptions h1 = resumptions h ++ map (fun w => (w, Rejected error))
                                            (filter (fun w => sp_attempt w = s) (waiting h))
  /\ listeners h1 = listeners h /\ timeouts h1 = timeouts h /\ reactions h1 = reactions h.
Proof.
  intros Ha. cbn zeta. unfold handleReject. rewrite updateStatus_spec. unfold settle_attempt.
  cbn. rewrite Ha. cbn. split_and!; try done. apply lookup_insert_eq.
Qed.

(** * Further properties *)

(** ** Chunks and frames *)

Section Chunks.

Variable JSON_parse : string -> option json.
Variable ToNumber : json -> option Q.
Variable version : revision.

Local Abbreviation receive_loop' := (receive_loop JSON_parse ToNumber version).
Local Abbreviation receive' := (receive JSON_parse ToNumber version).
Local Abbreviation frame' := (frame JSON_parse ToNumber version).
Local Abbreviation feed' := (feed JSON_parse ToNumber version).

Lemma receive_loop_frame (len : nat) (f data rx : list byte) (h : handler) :
  len ≠ 0%nat -> Forall (fun b => b ≠ x00) f ->
  receive_loop' len (f ++ x00 :: data) rx h
  = receive_loop' len data (feed' (rx, h) f).1 (feed' (rx, h) f).2.
Proof.
  intros Hlen Hf. revert rx. induction Hf as [|b f Hb _ IH]; intros rx.
  - cbn. destruct len; [congruence|]. cbn. unfold feed. cbn. rewrite app_nil_r.
    by destruct (frame' rx h) as [h' []].
  - cbn. destruct (Byte.eqb b x00) eqn:E; [apply Byte.byte_dec_bl in E; congruence|].
    cbn. rewrite IH. unfold feed. cbn. by rewrite <- app_assoc.
Qed.

Lemma receive_loop_frames (len : nat) (fs : list (list byte)) (tail rx : list byte) (h : handler) :
  len ≠ 0%nat -> Forall (Forall (fun b => b ≠ x00)) fs -> Forall (fun b => b ≠ x00) tail ->
  receive_loop' len (chunk fs tail) rx h = (fold_left feed' fs (rx, h)).2.
Proof.
  intros Hlen Hfs Htail. unfold chunk. rewrite receive_loop_tail by assumption.
  revert rx h. induction Hfs as [|f fs Hf _ IH]; intros rx h; [reflexivity|].
  cbn [map concat fold_left]. rewrite <- app_assoc. cbn [app].
  rewrite receive_loop_frame by assumption.
  rewrite IH. by destruct (feed' (rx, h) f).
Qed.

(** X1.  What [receive] does with a chunk, frame by frame.  A chunk is a run
    of frames, each closed by a NUL, and the bytes after the last NUL.  At
    every NUL the bytes read since the NUL before are appended to what the
    frames before left in [rx], and the whole is decoded as one frame; [rx] is
    emptied when that succeeds and kept when it fails.  The bytes after the
    last NUL have no effect. *)
Theorem receive_frames (fs : list (list byte)) (tail : list byte) (h : handler) :
  Forall (Forall (fun b => b ≠ x00)) fs -> Forall (fun b => b ≠ x00) tail ->
  receive' (chunk fs tail) h = (fold_left feed' fs ([], h)).2.
Proof.
  intros Hfs Htail. unfold receive.
  destruct fs as [|f fs].
  - unfold chunk. cbn [map concat app fold_left snd].
    change (receive' tail h = h). by rewrite <- (app_nil_l tail), receive_tail.
  - apply receive_loop_frames; try assumption.
    unfold chunk. cbn. rewrite !length_app. cbn. lia.
Qed.

End Chunks.

(** Bytes of a frame: none is the delimiter. *)
Ltac no_delimiter := repeat first [apply Forall_nil_2 | apply Forall_cons_2; [discriminate|]].

(** The chunk  x NUL {"id":1} NUL {"id"  of two frames and the start of a
    third. *)
Lemma receive_frames_witness :
  let fs := [Demo.bytes "x"; Demo.bytes "{'id':1}"] in
  let tail := Demo.bytes "{'id'" in
  receive Reader.json_parse Runtime.to_number Correlator (chunk fs tail) new_handler
  = (fold_left (feed Reader.json_parse Runtime.to_number Correlator) fs ([], new_handler)).2.
Proof.
  apply (receive_frames Reader.json_parse Runtime.to_number Correlator).
  - apply Forall_cons_2; [vm_compute; no_delimiter|].
    apply Forall_cons_2; [vm_compute; no_delimiter|]. apply Forall_nil_2.
  - vm_compute. no_delimiter.
Defined.

(** ** The frames that are delivered *)

Lemma omap_not_package (l : list effect) :
  Forall not_package l ->
  omap (fun e => match e with Emit_package obj => Some obj | _ => None end) l = [].
Proof.
  induction 1 as [|e l He _ IH]; [reflexivity|]. cbn. rewrite IH. by destruct e.
Qed.

Lemma adds_packages (h h' : handler) : adds not_package h h' -> packages h' = packages h.
Proof.
  intros (l & Hl & Hall). unfold packages. rewrite Hl, omap_app, (omap_not_package _ Hall).
  apply app_nil_r.
Qed.

Lemma notification_spec ToNumber (obj : json) (h : handler) :
  if malformed obj then notification ToNumber obj h = (h, Throw JsTypeError)
  else exists h1, notification ToNumber obj h = (h1, Normal tt).
Proof.
  unfold notification, bind, lift, act, ret.
  destruct obj as [|b|q|s|l|fs]; try reflexivity.
  - cbn. eauto.
  - cbn [malformed has_property get].
    destruct (assoc "method" fs) as [method|] eqn:Hmethod; cbn [is_Some bool_decide];
      [|cbn; eauto].
    rewrite bool_decide_eq_true_2 by eauto.
    destruct (is_string (Some method) "EngineStatus").
    { destruct (assoc "params" fs) as [[]|]; cbn; try reflexivity;
        repeat case_match; eauto. }
    destruct (is_string (Some method) "ChangeGroup.Poll"); [|eauto].
    destruct (assoc "result" fs) as [result|]; [|reflexivity].
    destruct result; try reflexivity; cbn [get].
    all: repeat match goal with
           | |- context [String.eqb ?a ?b] => destruct (String.eqb a b)
           | |- context [is_index_key ?k] => destruct (is_index_key k)
           end.
    all: try match goal with
           | |- context [absent ?c] => destruct c as [[]|] eqn:?; cbn [absent get]
           end.
    all: try reflexivity.
    all: repeat case_match; simplify_eq; eauto.
Qed.

Lemma seq_lookups {A} (l : list A) : map (fun i => l !! i) (seq 0 (length l)) = map Some l.
Proof.
  induction l as [|a l IH]; [reflexivity|].
  cbn [length seq map]. f_equal. rewrite <- seq_shift, map_map. exact IH.
Qed.

Lemma log_fold (l : list effect) (h : handler) :
  fold_left (fun h' e => log e h') l h = set_trace (trace h ++ l) h.
Proof.
  revert h. induction l as [|e l IH]; intros h; cbn [fold_left].
  - destruct h; unfold set_trace; cbn. by rewrite app_nil_r.
  - rewrite IH. unfold log, set_trace; cbn. by rewrite <- app_assoc.
Qed.

Lemma emit_changes_array ToNumber (changes : list json) (h : handler) :
  emit_changes ToNumber (JArr changes) (Some (num (Z.of_nat (length changes)))) h
  = set_trace (trace h ++ map (fun c => Emit_rx (Some c)) changes) h.
Proof.
  unfold emit_changes, iterations, num.
  assert (Z.to_nat (Qceiling (inject_Z (Z.of_nat (length changes)))) = length changes) as ->.
  { rewrite Qceiling_Z. lia. }
  rewrite <- (log_fold (map _ changes)).
  rewrite <- (map_map Some Emit_rx), <- seq_lookups, map_map.
  generalize (seq 0 (length changes)). intros l. revert h.
  induction l as [|i l IH]; intros h; [reflexivity|]. cbn. apply IH.
Qed.

Lemma notification_poll ToNumber (fs : list (string * json)) (result : json)
    (changes : list json) (h : handler) :
  assoc "method" fs = Some (JStr "ChangeGroup.Poll") ->
  assoc "result" fs = Some result ->
  get (Some result) "Changes" = Normal (Some (JArr changes)) ->
  notification ToNumber (JObj fs) h
  = (set_trace (trace h ++ map (fun c => Emit_rx (Some c)) changes) h, Normal tt).
Proof.
  intros Hmethod Hresult Hchanges.
  unfold notification, bind, lift. cbn [has_property get].
  rewrite Hmethod, Hresult, Hchanges. cbn -[emit_changes].
  destruct changes as [|c changes].
  - cbn. destruct h; unfold set_trace; cbn. by rewrite app_nil_r.
  - assert (Qeq_bool (inject_Z (Z.of_nat (length (c :: changes)))) (inject_Z 0) = false) as ->.
    { apply not_true_is_false. intros H. apply Qeq_bool_iff in H.
      unfold Qeq in H. cbn in H. lia. }
    cbn [negb]. unfold act. by rewrite <- (emit_changes_array ToNumber).
Qed.

Lemma fold_log_map {A} (f : A -> effect) (l : list A) (h : handler) :
  fold_left (fun h' a => log (f a) h') l h = set_trace (trace h ++ map f l) h.
Proof.
  rewrite <- log_fold. revert h. induction l as [|a l IH]; intros h; [reflexivity|]. cbn. apply IH.
Qed.

Lemma notification_adds ToNumber (obj : json) (h : handler) :
  adds not_package h (fst (notification ToNumber obj h)).
Proof.
  unfold notification, bind, lift, act, ret, closeSocket, emit_changes.
  repeat case_match; simplify_eq/=; try apply adds_refl; try by apply adds_log.
  rewrite fold_log_map. eexists. split; [reflexivity|].
  apply Forall_forall. intros e He. apply list_elem_of_In, in_map_iff in He as (i & <- & _). exact I.
Qed.

Lemma frame_after_notification JSON_parse ToNumber version
    (rx : list byte) (obj : json) (h h1 : handler) :
  JSON_parse (string_of_list_byte rx) = Some obj ->
  notification ToNumber obj h = (h1, Normal tt) ->
  exists rest,
    trace (fst (frame JSON_parse ToNumber version rx h)) = trace h1 ++ Emit_package obj :: rest
    /\ Forall after_package rest.
Proof.
  intros Hparse Hnote. unfold frame. rewrite Hparse. unfold dispatch, bind. rewrite Hnote.
  destruct (emit_package_trace version obj h1) as (rest & Hrest & Hall).
  destruct (emit_package version obj h1) as [h2 [a|e]]; cbn in *.
  - exists rest. split; [exact Hrest|]. eapply Forall_impl; [exact Hall|]. by left.
  - exists (rest ++ [NodeError e]). split; [by rewrite Hrest, <- app_assoc|].
    apply Forall_app. split.
    + eapply Forall_impl; [exact Hall|]. by left.
    + constructor; [|constructor]. right. by exists e.
Qed.

Lemma after_package_not_package (l : list effect) : Forall after_package l -> Forall not_package l.
Proof.
  intros H. eapply Forall_impl; [exact H|]. intros e [He|[err ->]]; [by destruct e|exact I].
Qed.

(** X2.  Which decoded frames reach the listeners.  A frame whose text
    parses to a primitive (a number, a string, a boolean, null), to an
    EngineStatus without params or to a ChangeGroup.Poll without
    result.Changes makes the [switch] throw a TypeError: the error is
    reported, nothing else happens, no package event is emitted and [rx]
    keeps the bytes.  Every other decoded frame is emitted as one package
    event. *)
Theorem frame_delivery JSON_parse ToNumber version (rx : list byte) (obj : json) (h : handler) :
  JSON_parse (string_of_list_byte rx) = Some obj ->
  if malformed obj
  then frame JSON_parse ToNumber version rx h = (log (NodeError JsTypeError) h, false)
  else packages (fst (frame JSON_parse ToNumber version rx h)) = packages h ++ [obj].
Proof.
  intros Hparse. pose proof (notification_spec ToNumber obj h) as Hspec.
  destruct (malformed obj).
  - unfold frame. rewrite Hparse. unfold dispatch, bind. by rewrite Hspec.
  - destruct Hspec as [h1 Hnote].
    destruct (frame_after_notification JSON_parse ToNumber version rx obj h h1 Hparse Hnote)
      as (rest & Hrest & Hall).
    pose proof (notification_adds ToNumber obj h) as Hadds. rewrite Hnote in Hadds.
    unfold packages at 1. rewrite Hrest, omap_app.
    fold (packages h1). rewrite (adds_packages h h1 Hadds). f_equal.
    pose proof (omap_not_package rest (after_package_not_package rest Hall)) as Hnone.
    cbn in *. by rewrite Hnone.
Qed.

(** X3.  A ChangeGroup.Poll frame whose result.Changes is an array emits
    one rx event per change, in the order of the array, before its package
    event; nothing for an empty array.  The fields of the connection are as
    before. *)
Theorem poll_emits_changes JSON_parse ToNumber version
    (rx : list byte) (fs : list (string * json)) (result : json) (changes : list json)
    (h : handler) :
  JSON_parse (string_of_list_byte rx) = Some (JObj fs) ->
  assoc "method" fs = Some (JStr "ChangeGroup.Poll") ->
  assoc "result" fs = Some result ->
  get (Some result) "Changes" = Normal (Some (JArr changes)) ->
  let h' := fst (frame JSON_parse ToNumber version rx h) in
  same_connection h h'
  /\ exists rest,
       trace h' = trace h ++ map (fun c => Emit_rx (Some c)) changes
                          ++ Emit_package (JObj fs) :: rest
       /\ Forall after_package rest.
Proof.
  intros Hparse Hmethod Hresult Hchanges h'. split; [apply frame_same_connection|].
  destruct (frame_after_notification JSON_parse ToNumber version rx (JObj fs) h _ Hparse
              (notification_poll ToNumber fs result changes h Hmethod Hresult Hchanges))
    as (rest & Hrest & Hall).
  exists rest. split; [|exact Hall]. subst h'. rewrite Hrest. cbn. by rewrite <- app_assoc.
Qed.

(** The frame  5  is a number: it is reported and not emitted. *)
Lemma frame_delivery_witness :
  frame Reader.json_parse Runtime.to_number Correlator (Demo.bytes "5") new_handler
  = (log (NodeError JsTypeError) new_handler, false).
Proof.
  assert (Reader.json_parse (string_of_list_byte (Demo.bytes "5")) = Some (num 5)) as Hparse
      by (vm_compute; reflexivity).
  exact (frame_delivery Reader.json_parse Runtime.to_number Correlator (Demo.bytes "5") (num 5)
           new_handler Hparse).
Defined.

(** A poll with two changes. *)
Lemma poll_emits_changes_witness :
  let rx := Demo.bytes "{'method':'ChangeGroup.Poll','result':{'Id':'g','Changes':[{'Name':'a'},{'Name':'b'}]}}" in
  let a := JObj [("Name", JStr "a")] in
  let b := JObj [("Name", JStr "b")] in
  let result := JObj [("Id", JStr "g"); ("Changes", JArr [a; b])] in
  let fs := [("method", JStr "ChangeGroup.Poll"); ("result", result)] in
  let h' := fst (frame Reader.json_parse Runtime.to_number Correlator rx new_handler) in
  same_connection new_handler h'
  /\ exists rest,
       trace h' = trace new_handler ++ map (fun c => Emit_rx (Some c)) [a; b]
                                    ++ Emit_package (JObj fs) :: rest
       /\ Forall after_package rest.
Proof.
  intros rx a b result fs.
  assert (Reader.json_parse (string_of_list_byte rx) = Some (JObj fs)) as Hparse
      by (vm_compute; reflexivity).
  exact (poll_emits_changes Reader.json_parse Runtime.to_number Correlator rx fs result [a; b]
           new_handler Hparse eq_refl eq_refl eq_refl).
Defined.

(** ** What the events leave alone *)

Section Stable.

Variable I : handler -> Prop.

Hypothesis I_socket : stable_under set_socket I.
Hypothesis I_connectionPromise : stable_under set_connectionPromise I.
Hypothesis I_listeners : stable_under set_listeners I.
Hypothesis I_timeouts : stable_under set_timeouts I.
Hypothesis I_waiting : stable_under set_waiting I.
Hypothesis I_promises : stable_under set_promises I.
Hypothesis I_reactions : stable_under set_reactions I.
Hypothesis I_resumptions : stable_under set_resumptions I.
Hypothesis I_trace : stable_under set_trace I.
Hypothesis I_settled : forall p o h, settled h !! p = None -> I h -> I (set_settled (<[p := o]> (settled h)) h).
Hypothesis I_attempts : forall s o h, attempts h !! s = None -> I h -> I (set_attempts (<[s := o]> (attempts h)) h).

Lemma stable_log (e : effect) (h : handler) : I h -> I (log e h).
Proof. apply I_trace. Qed.

Lemma stable_settle (p : nat) (r : option sock) (o : outcome) (h : handler) :
  I h -> I (settle p r o h).
Proof.
  intros Hh. unfold settle. destruct (settled h !! p) eqn:Hp; [done|].
  destruct r; [apply I_reactions|]; by apply I_settled.
Qed.

Lemma stable_settle_attempt (s : sock) (o : attempt_outcome) (h : handler) :
  I h -> I (settle_attempt s o h).
Proof.
  intros Hh. unfold settle_attempt. destruct (attempts h !! s) eqn:Hs; [done|].
  by apply I_resumptions, I_waiting, I_attempts.
Qed.

Lemma stable_updateStatus (status : Status) (error : option js_error) (h : handler) :
  I h -> I (updateStatus status error h).
Proof. intros Hh. rewrite updateStatus_spec. by apply I_trace. Qed.

Lemma stable_closeSocket (s : option sock) (h : handler) : I h -> I (closeSocket s h).
Proof. intros Hh. destruct s; [by apply stable_log|done]. Qed.

Lemma stable_handleReject (s : sock) (error : js_error) (h : handler) :
  I h -> I (handleReject s error h).
Proof.
  intros Hh. unfold handleReject.
  by apply stable_settle_attempt, stable_updateStatus, I_connectionPromise.
Qed.

Lemma stable_handleResolve (s : sock) (h : handler) : I h -> I (handleResolve s h).
Proof.
  intros Hh. unfold handleResolve.
  apply stable_settle_attempt, stable_updateStatus, I_connectionPromise, I_socket.
  destruct (socket h); [by apply stable_closeSocket|done].
Qed.

Lemma stable_send_continue JSON_stringify (input : QsysMessage.t) (id : Z) (p : nat) (s : sock)
    (h : handler) :
  I h -> I (send_continue JSON_stringify input id p s h).
Proof.
  intros Hh. unfold send_continue.
  by apply stable_log, I_timeouts, I_listeners, stable_log.
Qed.

Lemma stable_resume JSON_stringify (r : suspended * attempt_outcome) (h : handler) :
  I h -> I (resume JSON_stringify r h).
Proof.
  intros Hh. destruct r as [w [s|e]]; cbn.
  - by apply stable_send_continue.
  - by apply stable_settle.
Qed.

Lemma stable_run_resumptions JSON_stringify (h : handler) :
  I h -> I (run_resumptions JSON_stringify h).
Proof.
  intros Hh. unfold run_resumptions.
  assert (I (set_resumptions [] h)) as H0 by (by apply I_resumptions).
  revert H0. generalize (set_resumptions [] h). generalize (resumptions h). clear Hh h.
  induction l as [|r l IH]; intros h Hh; [done|].
  cbn. by apply IH, stable_resume.
Qed.

Lemma stable_logon_settled version (r : sock * outcome) (h : handler) :
  I h -> I (logon_settled version r h).
Proof.
  intros Hh. unfold logon_settled.
  repeat case_match; by first [apply stable_handleReject | apply stable_handleResolve].
Qed.

Lemma stable_run_reactions version (h : handler) : I h -> I (run_reactions version h).
Proof.
  intros Hh. unfold run_reactions.
  assert (I (set_reactions [] h)) as H0 by (by apply I_reactions).
  revert H0. generalize (set_reactions [] h). generalize (reactions h). clear Hh h.
  induction l as [|r l IH]; intros h Hh; [done|].
  cbn. by apply IH, stable_logon_settled.
Qed.

Lemma stable_receive JSON_parse ToNumber version (data : list byte) (h : handler) :
  I h -> I (receive JSON_parse ToNumber version data h).
Proof.
  apply (keeps_receive version I (fun _ => True)); try (intros; by apply Forall_true).
  - intros p h'. apply I_timeouts.
  - intros p h'. apply I_listeners.
  - intros rq o h' _. apply stable_settle.
  - intros p h'. apply stable_log.
  - intros obj h'. apply stable_log.
  - intros e h'. apply stable_log.
Qed.

Lemma stable_timer_fired name (p : nat) (h : handler) : I h -> I (timer_fired name p h).
Proof.
  intros Hh. unfold timer_fired. destruct (filter _ (timeouts h)); [done|].
  by apply stable_settle, I_timeouts.
Qed.

Lemma stable_on_gone (s : sock) (message : string) (h : handler) : I h -> I (on_gone s message h).
Proof.
  intros Hh. unfold on_gone. apply stable_log.
  case_bool_decide; [apply I_socket|]; by apply stable_closeSocket.
Qed.

Lemma stable_attach_then (p : nat) (s : sock) (h : handler) : I h -> I (attach_then p s h).
Proof. intros Hh. unfold attach_then. by apply I_timeouts, I_listeners. Qed.

(** The other assignments, each needed for the events that make it. *)
Local Abbreviation I_lastId := (stable_under set_lastId I).
Local Abbreviation I_sockets := (stable_under set_sockets I).
Local Abbreviation I_noOpIntervalId := (stable_under set_noOpIntervalId I).
Local Abbreviation I_statusCallbacks := (stable_under set_statusCallbacks I).

Lemma stable_stamp (input : QsysMessage.t) (h : handler) :
  I_lastId -> I h -> I (stamp input h).1.1.
Proof.
  intros HlastId Hh. unfold stamp, reserveId. destruct (QsysMessage.id input); cbn; [done|].
  by apply HlastId.
Qed.

Lemma stable_initSocket (h : handler) :
  I_sockets -> I_noOpIntervalId -> I h -> I (initSocket h).1.
Proof.
  intros Hsockets HnoOp Hh. unfold initSocket.
  destruct (connectionPromise h); cbn; [done|].
  destruct (noOpIntervalId h); cbn.
  - by apply stable_log, Hsockets, I_connectionPromise.
  - by apply stable_log, HnoOp, stable_log, Hsockets, I_connectionPromise.
Qed.

Lemma stable_forced_send JSON_stringify (input : QsysMessage.t) (s : sock) (h : handler) :
  I_lastId -> I h -> I (send JSON_stringify input (Some s) h).1.
Proof.
  intros HlastId Hh. unfold send.
  pose proof (stable_stamp input h HlastId Hh) as Hstamp.
  destruct (stamp input h) as [[h1 input1] id]. cbn in *.
  by apply stable_send_continue, I_promises.
Qed.

Lemma stable_send JSON_stringify (input : QsysMessage.t) (h : handler) :
  I_lastId -> I_sockets -> I_noOpIntervalId -> I h -> I (send JSON_stringify input None h).1.
Proof.
  intros HlastId Hsockets HnoOp Hh. unfold send.
  pose proof (stable_stamp input h HlastId Hh) as Hstamp.
  destruct (stamp input h) as [[h1 input1] id]. cbn in Hstamp.
  destruct (socket h); cbn; [by apply stable_send_continue, I_promises|].
  unfold getSocket.
  destruct (socket (set_promises (S (promises h1)) h1)); cbn; [by apply I_resumptions, I_promises|].
  pose proof (stable_initSocket (set_promises (S (promises h1)) h1) Hsockets HnoOp
                (I_promises _ _ Hstamp)) as Hinit.
  destruct (initSocket (set_promises (S (promises h1)) h1)) as [h2 a]. cbn in *.
  destruct (attempts h2 !! a); cbn; [by apply I_resumptions|by apply I_waiting].
Qed.

Section Events.

Variable JSON_parse : string -> option json.
Variable JSON_stringify : QsysMessage.t -> string.
Variable ToNumber : json -> option Q.
Variable version : revision.
Variable config : Config.
Variable name : string.
Variables username password : option string.
Variables target_host target_port : string.

Local Abbreviation handle' :=
  (handle JSON_parse JSON_stringify ToNumber version config name username password
          target_host target_port).
Local Abbreviation step' :=
  (step JSON_parse JSON_stringify ToNumber version config name username password
        target_host target_port).

Lemma stable_handle (e : event) (h : handler) :
  (reserves e = true -> I_lastId) ->
  (demands e = true -> I_sockets /\ I_noOpIntervalId) ->
  (registers e = true -> I_statusCallbacks) ->
  I h -> I (handle' e h).
Proof.
  intros HlastId Hdemand Hregistry Hh. destruct e; cbn [handle].
  - destruct forced as [s|].
    + apply stable_forced_send; auto.
    + destruct Hdemand; [done|]. apply stable_send; auto.
  - destruct Hdemand as [Hsockets HnoOp]; [done|]. unfold getSocket.
    destruct (socket h); [done|].
    pose proof (stable_initSocket h Hsockets HnoOp Hh). by destruct (initSocket h).
  - destruct Hdemand as [Hsockets HnoOp]; [done|]. by apply stable_initSocket.
  - destruct Hdemand; [done|]. apply stable_send; auto.
  - unfold registerStatusCallback. case_match; [done|]. by apply Hregistry.
  - unfold unregisterStatusCallback. case_match; [|done]. by apply Hregistry.
  - case_match; [|done].
    pose proof (stable_forced_send JSON_stringify (logon username password) s h (HlastId eq_refl) Hh).
    destruct (send JSON_stringify (logon username password) (Some s) h) as [h1 p].
    by apply stable_attach_then.
  - case_match; [|done]. by apply stable_on_gone.
  - case_match; [|done]. by apply stable_on_gone.
  - case_match; [|done]. by apply stable_on_gone.
  - case_match; [|done]. by apply stable_handleReject, stable_closeSocket.
  - case_match; [|done]. by apply stable_handleReject, stable_closeSocket.
  - case_match; [|done]. case_match; [by apply stable_log|].
    by apply stable_handleResolve, stable_log.
  - case_match; [|done]. case_match; [apply stable_closeSocket|]; by apply stable_log.
  - case_match; [|done]. by apply stable_receive.
  - rewrite close_all_fold. apply I_trace. case_match; [by apply stable_log|done].
  - by apply stable_timer_fired.
Qed.

Lemma stable_step (e : event) (h : handler) :
  (reserves e = true -> I_lastId) ->
  (demands e = true -> I_sockets /\ I_noOpIntervalId) ->
  (registers e = true -> I_statusCallbacks) ->
  I h -> I (step' e h).
Proof.
  intros. unfold step. by apply stable_run_resumptions, stable_run_reactions, stable_handle.
Qed.

End Events.

End Stable.

(** What holds of a field that only its own assignment changes. *)
Ltac stable_field := unfold stable_under; intros; assumption.

Section Fields.

Variable JSON_parse : string -> option json.
Variable JSON_stringify : QsysMessage.t -> string.
Variable ToNumber : json -> option Q.
Variable version : revision.
Variable config : Config.
Variable name : string.
Variables username password : option string.
Variables target_host target_port : string.

Local Abbreviation handle' :=
  (handle JSON_parse JSON_stringify ToNumber version config name username password
          target_host target_port).
Local Abbreviation step' :=
  (step JSON_parse JSON_stringify ToNumber version config name username password
        target_host target_port).

Lemma microtasks_statusCallbacks (h : handler) :
  statusCallbacks (run_resumptions JSON_stringify (run_reactions version h)) = statusCallbacks h.
Proof.
  apply (stable_run_resumptions (fun h' => statusCallbacks h' = statusCallbacks h));
    [stable_field..|].
  apply (stable_run_reactions (fun h' => statusCallbacks h' = statusCallbacks h));
    [stable_field..|reflexivity].
Qed.

Lemma filter_all {A} (P : A -> Prop) `{!forall x, Decision (P x)} (l : list A) :
  Forall P l -> filter P l = l.
Proof.
  induction 1 as [|a l Ha _ IH]; [reflexivity|].
  rewrite filter_cons, decide_True by done. by rewrite IH.
Qed.

Lemma statusCallbacks_step (e : event) (h : handler) :
  statusCallbacks (step' e h)
  = match e with
    | Call_registerStatusCallback nodeId =>
        if bool_decide (nodeId ∈ statusCallbacks h) then statusCallbacks h
        else statusCallbacks h ++ [nodeId]
    | Call_unregisterStatusCallback nodeId => filter (fun k => k ≠ nodeId) (statusCallbacks h)
    | _ => statusCallbacks h
    end.
Proof.
  unfold step. rewrite microtasks_statusCallbacks.
  destruct e;
    try (apply (stable_handle (fun h' => statusCallbacks h' = statusCallbacks h));
         [stable_field..| | | |reflexivity]; first [discriminate | intros _; try split; stable_field]).
  - cbn [handle]. unfold registerStatusCallback. by case_bool_decide.
  - cbn [handle]. unfold unregisterStatusCallback. case_bool_decide as Hin; [done|].
    symmetry. apply filter_all, Forall_forall. intros k Hk ->. by apply Hin.
Qed.

Lemma sockets_microtasks (h : handler) :
  sockets (run_resumptions JSON_stringify (run_reactions version h)) = sockets h.
Proof.
  apply (stable_run_resumptions (fun h' => sockets h' = sockets h)); [stable_field..|].
  apply (stable_run_reactions (fun h' => sockets h' = sockets h)); [stable_field..|reflexivity].
Qed.

Lemma sockets_send (input : QsysMessage.t) (forced : option sock) (h : handler) :
  sockets (send JSON_stringify input forced h).1
  = if opens (Call_send input forced) h then S (sockets h) else sockets h.
Proof.
  unfold opens, send, stamp, reserveId, getSocket, initSocket.
  destruct forced as [s|]; cbn; [by destruct (QsysMessage.id input)|].
  destruct (socket h) as [s|] eqn:Hs; cbn; [by destruct (QsysMessage.id input)|].
  destruct (connectionPromise h) as [a|] eqn:Hc; cbn.
  - destruct (QsysMessage.id input); cbn; rewrite Hs; cbn; rewrite Hc; cbn; by case_match.
  - destruct (QsysMessage.id input); cbn; rewrite Hs; cbn; rewrite Hc; cbn;
      destruct (noOpIntervalId h); cbn; by case_match.
Qed.

(** X4.  The registry of status callbacks after an event:
    [registerStatusCallback] adds the node after the others unless it is
    registered already, [unregisterStatusCallback] removes it, and no other
    event, of a socket, a timer or a call, changes the registry. *)
Theorem registry_step (e : event) (h : handler) :
  statusCallbacks (step' e h)
  = match e with
    | Call_registerStatusCallback nodeId =>
        if bool_decide (nodeId ∈ statusCallbacks h) then statusCallbacks h
        else statusCallbacks h ++ [nodeId]
    | Call_unregisterStatusCallback nodeId => filter (fun k => k ≠ nodeId) (statusCallbacks h)
    | _ => statusCallbacks h
    end.
Proof. apply statusCallbacks_step. Qed.

(** X5.  When a transport is opened.  The number of sockets that [connect]
    has returned grows by one on a call of [send], [getSocket] or
    [getComponentList] made while no socket is stored and no attempt is under
    way, and on a call of [initSocket] made while no attempt is under way.
    After any other event it is as before: the close, end, timeout or error
    of a socket, a failed attempt, a timer or a frame never reconnect. *)
Theorem connections_opened (e : event) (h : handler) :
  sockets (step' e h) = if opens e h then S (sockets h) else sockets h.
Proof.
  unfold step. rewrite sockets_microtasks.
  destruct e;
    try (change (opens _ h) with false; cbv iota;
         apply (stable_handle (fun h' => sockets h' = sockets h));
         [stable_field..| | | |reflexivity]; first [discriminate | intros _; stable_field]).
  - apply sockets_send.
  - unfold opens, handle, getSocket, initSocket.
    destruct (socket h); cbn; [done|]. destruct (connectionPromise h); cbn; [done|].
    by destruct (noOpIntervalId h).
  - unfold opens, handle, initSocket.
    destruct (connectionPromise h); cbn; try done; by destruct (noOpIntervalId h).
  - unfold handle, getComponentList. rewrite sockets_send. reflexivity.
Qed.

Lemma settled_step (e : event) (h : handler) (p : nat) (o : outcome) :
  settled h !! p = Some o -> settled (step' e h) !! p = Some o.
Proof.
  apply (stable_step (fun h' => settled h' !! p = Some o)); try stable_field.
  - intros p' o' h' Hnone Hsome. cbn. rewrite lookup_insert_ne; [done|congruence].
  - intros _. split; stable_field.
Qed.

Lemma attempts_step (e : event) (h : handler) (s : sock) (o : attempt_outcome) :
  attempts h !! s = Some o -> attempts (step' e h) !! s = Some o.
Proof.
  apply (stable_step (fun h' => attempts h' !! s = Some o)); try stable_field.
  - intros s' o' h' Hnone Hsome. cbn. rewrite lookup_insert_ne; [done|congruence].
  - intros _. split; stable_field.
Qed.

(** X6.  A settlement is final.  Once the promise of a request is settled,
    and once the promise of a connection attempt is settled, no sequence of
    events changes its outcome: a response that arrives after the timeout
    finds the promise rejected and leaves it so. *)
Theorem settlement_final (es : list event) (h : handler) :
  (forall p o, settled h !! p = Some o ->
               settled (run JSON_parse JSON_stringify ToNumber version config name username
                            password target_host target_port es h) !! p = Some o)
  /\ (forall s o, attempts h !! s = Some o ->
                  attempts (run JSON_parse JSON_stringify ToNumber version config name username
                                password target_host target_port es h) !! s = Some o).
Proof.
  revert h. induction es as [|e es IH]; intros h; [done|].
  cbn [run fold_left]. destruct (IH (step' e h)) as [IHs IHa]. split.
  - intros p o Hp. by apply IHs, settled_step.
  - intros s o Hs. by apply IHa, attempts_step.
Qed.

(** X7.  In every state that a sequence of events leads to from a new
    handler, no node is registered twice, and [updateStatus] calls the
    callback of every registered node, once each, in the order of
    registration, with the stored socket. *)
Theorem status_fan_out (es : list event) (status : Status) (error : option js_error) :
  let h := run JSON_parse JSON_stringify ToNumber version config name username password
               target_host target_port es new_handler in
  NoDup (statusCallbacks h)
  /\ trace (updateStatus status error h)
     = trace h ++ map (fun k => StatusCallback k (socket h) status error) (statusCallbacks h).
Proof.
  cbn zeta. split; [|by rewrite updateStatus_spec].
  assert (NoDup (statusCallbacks new_handler)) as H0 by constructor.
  revert H0. generalize new_handler. induction es as [|e es IH]; intros h Hh; [done|].
  cbn [run fold_left]. apply IH. rewrite statusCallbacks_step.
  destruct e; try done.
  - case_bool_decide as Hin; [done|]. apply NoDup_app. split_and!; [done| |apply NoDup_singleton].
    intros k Hk Hk'. apply list_elem_of_singleton in Hk'. by subst.
  - by apply NoDup_filter.
Qed.

End Fields.

(** ** What the nodes show *)

Lemma last_app_all {A} (pre l : list A) (x : A) :
  l ≠ [] -> Forall (fun y => y = x) l -> last (pre ++ l) = Some x.
Proof.
  intros Hne Hall. destruct (exists_last Hne) as (l' & y & ->).
  rewrite app_assoc, last_snoc. f_equal.
  apply Forall_app in Hall as [_ Hy]. by apply Forall_cons in Hy as [? _].
Qed.

(** After a call of [updateStatus], and effects that are no status
    callbacks, every registered node shows the status of the call. *)
Lemma shown_after (runtime : js_error -> string) (pre post : list effect) (l : list string)
    (socket : option sock) (status : Status) (error : option js_error) (k : string) :
  k ∈ l -> Forall not_status post ->
  Display.shown runtime (pre ++ map (fun k => StatusCallback k socket status error) l ++ post) k
  = Some (Display.nodeStatus runtime status error).
Proof.
  intros Hk Hpost. unfold Display.shown. rewrite !omap_app.
  assert (omap (fun e => match e with
                         | StatusCallback k' _ status error =>
                             if String.eqb k' k then Some (Display.nodeStatus runtime status error)
                             else None
                         | _ => None
                         end) post = []) as ->.
  { induction Hpost as [|e post He _ IH]; [reflexivity|]. cbn. rewrite IH. by destruct e. }
  rewrite app_nil_r. apply last_app_all.
  - intros Hnil. apply list_elem_of_In, in_split in Hk as (l1 & l2 & ->).
    rewrite map_app, omap_app in Hnil. cbn in Hnil. rewrite String.eqb_refl in Hnil.
    by apply app_eq_nil in Hnil as [_ ?].
  - clear Hk. induction l as [|k' l IH]; [constructor|]. cbn.
    destruct (String.eqb k' k); [constructor; [done|]|]; exact IH.
Qed.

(** ** A connection is made *)

Lemma run_reactions_quiet version (h : handler) : reactions h = [] -> run_reactions version h = h.
Proof. unfold run_reactions. destruct h; cbn. by intros ->. Qed.

Lemma run_resumptions_quiet JSON_stringify (h : handler) :
  resumptions h = [] -> run_resumptions JSON_stringify h = h.
Proof. unfold run_resumptions. destruct h; cbn. by intros ->. Qed.

Lemma flush_spec JSON_stringify (s : sock) (ws : list suspended) (h : handler) :
  fold_left (fun h' r => resume JSON_stringify r h') (map (fun w => (w, Fulfilled s)) ws) h
  = set_trace (trace h ++ flat_map (resumed JSON_stringify s) ws)
      (set_timeouts (timeouts h ++ map request_of ws)
         (set_listeners (listeners h ++ map request_of ws) h)).
Proof.
  revert h. induction ws as [|w ws IH]; intros h.
  - cbn. destruct h; unfold set_trace, set_timeouts, set_listeners; cbn.
    by rewrite !app_nil_r.
  - cbn [map fold_left flat_map]. rewrite IH. clear IH.
    destruct h. cbn. by rewrite <- !app_assoc.
Qed.

Lemma waiting_for_others (s : sock) (ws : list suspended) :
  filter (fun w => sp_attempt w = s) (filter (fun w => sp_attempt w ≠ s) ws) = [].
Proof.
  induction ws as [|w ws IH]; [reflexivity|].
  rewrite filter_cons. destruct (decide (sp_attempt w ≠ s)) as [Hne|He]; [|exact IH].
  rewrite filter_cons, decide_False by done. exact IH.
Qed.

Section Connected.

Variable JSON_parse : string -> option json.
Variable JSON_stringify : QsysMessage.t -> string.
Variable ToNumber : json -> option Q.
Variable version : revision.
Variable config : Config.
Variable name : string.
Variables username password : option string.
Variables target_host target_port : string.
Variable runtime : js_error -> string.

Local Abbreviation step' :=
  (step JSON_parse JSON_stringify ToNumber version config name username password
        target_host target_port).

Lemma handleResolve_reactions (s : sock) (h : handler) :
  reactions (handleResolve s h) = reactions h.
Proof.
  unfold handleResolve. rewrite updateStatus_spec. unfold settle_attempt.
  destruct (socket h); cbn; by case_match.
Qed.

(** [handleResolve] and the calls of [send] it resumes. *)
Lemma handleResolve_spec (s : sock) (h : handler) :
  attempts h !! s = None -> resumptions h = [] ->
  let h' := run_resumptions JSON_stringify (handleResolve s h) in
  socket h' = Some s
  /\ connectionPromise h' = None
  /\ attempts h' = <[s := Fulfilled s]> (attempts h)
  /\ waiting h' = filter (fun w => sp_attempt w ≠ s) (waiting h)
  /\ listeners h' = listeners h ++ map request_of (waiting_for s h)
  /\ timeouts h' = timeouts h ++ map request_of (waiting_for s h)
  /\ trace h' = trace h ++ match socket h with Some c => [Destroy c] | None => [] end
                        ++ map (fun k => StatusCallback k (Some s) Connected None) (statusCallbacks h)
                        ++ flat_map (resumed JSON_stringify s) (waiting_for s h)
  /\ settled h' = settled h /\ reactions h' = reactions h /\ resumptions h' = [].
Proof.
  intros Hattempt Hresumptions. cbn zeta.
  unfold handleResolve, run_resumptions, waiting_for.
  rewrite updateStatus_spec. unfold settle_attempt.
  destruct (socket h) as [c|] eqn:Hsocket; cbn; rewrite Hattempt; cbn;
    rewrite Hresumptions; cbn;
    rewrite flush_spec; cbn; split_and!; try done; by rewrite <- ?app_assoc.
Qed.

(** X8.  A connection without authentication.  When socket [s] connects and
    its attempt is pending, the socket stored before, if any, is destroyed,
    [s] is stored, the connection promise is cleared and resolved with [s],
    every registered node is called with "Connected" and [s] and shows green
    "Connected.", and the calls of [send] that waited for the attempt resume
    in the order of the calls: each writes its frame to [s], registers its
    listener and arms its timer. *)
Theorem connect_completes (s : sock) (h : handler) :
  authentication_enabled config = false ->
  (s < sockets h)%nat -> attempts h !! s = None -> quiescent h ->
  let h' := step' (On_connect s) h in
  socket h' = Some s
  /\ connectionPromise h' = None
  /\ attempts h' !! s = Some (Fulfilled s)
  /\ waiting_for s h' = []
  /\ listeners h' = listeners h ++ map request_of (waiting_for s h)
  /\ timeouts h' = timeouts h ++ map request_of (waiting_for s h)
  /\ trace h' = trace h
       ++ [NodeDebug (socket_message target_host target_port "Connection to socket to " " established.")]
       ++ match socket h with Some c => [Destroy c] | None => [] end
       ++ map (fun k => StatusCallback k (Some s) Connected None) (statusCallbacks h)
       ++ flat_map (resumed JSON_stringify s) (waiting_for s h)
  /\ (forall k, k ∈ statusCallbacks h ->
        Display.shown runtime (trace h') k
        = Some {| Display.fill := "green"; Display.shape := "dot";
                  Display.text := "Connected." |}).
Proof.
  intros Hauth Hs Hattempt [Hreactions Hresumptions]. cbn zeta.
  unfold step, handle. rewrite bool_decide_eq_true_2 by assumption. rewrite Hauth.
  set (h1 := log _ h).
  rewrite run_reactions_quiet by (by rewrite handleResolve_reactions).
  destruct (handleResolve_spec s h1 Hattempt Hresumptions)
    as (H1 & H2 & H3 & H4 & H5 & H6 & H7 & _).
  split_and!; try done.
  - rewrite H3. apply lookup_insert_eq.
  - unfold waiting_for. rewrite H4. apply waiting_for_others.
  - rewrite H7. cbn. by rewrite <- !app_assoc.
  - intros k Hk. rewrite H7. cbn [trace log set_trace statusCallbacks socket].
    rewrite !app_assoc, <- (app_assoc _ (map _ (statusCallbacks h))).
    rewrite shown_after; [done..|].
    apply Forall_forall. intros e He. apply list_elem_of_In, in_flat_map in He as (w & _ & He).
    cbn in He. by destruct He as [<-|[<-|[]]].
Qed.

End Connected.

(** A node has registered its status callback and a request waits for the
    connection when socket 0 connects. *)
Lemma connect_completes_witness :
  let h := Demo.run Correlator false
             [Call_registerStatusCallback "status"; Call_send (Demo.request "StatusGet" 5) None]
             new_handler in
  let h' := step Reader.json_parse Runtime.stringify Runtime.to_number Correlator
              (Demo.config false) "Core" (Some "admin") (Some "secret") "core" "1710"
              (On_connect 0) h in
  waiting_for 0 h = [ {| sp_attempt := 0%nat;
                         sp_input := {| QsysMessage.jsonrpc := Some "2.0";
                                        QsysMessage.method := Some "StatusGet";
                                        QsysMessage.id := Some 5;
                                        QsysMessage.params := Some (num 0) |};
                         sp_id := 5; sp_promise := 0%nat |} ]
  /\ socket h' = Some 0%nat
  /\ listeners h' = listeners h ++ map request_of (waiting_for 0 h)
  /\ Display.shown (fun _ => "") (trace h') "status"
     = Some {| Display.fill := "green"; Display.shape := "dot"; Display.text := "Connected." |}.
Proof.
  intros h h'.
  assert (authentication_enabled (Demo.config false) = false) as Hauth by reflexivity.
  assert (0 < sockets h)%nat as Hs by (vm_compute; lia).
  assert (attempts h !! 0%nat = None) as Hattempt by (vm_compute; reflexivity).
  assert (quiescent h) as Hquiet by (split; vm_compute; reflexivity).
  assert ("status" ∈ statusCallbacks h) as Hin by (vm_compute; apply list_elem_of_here).
  destruct (connect_completes Reader.json_parse Runtime.stringify Runtime.to_number Correlator
              (Demo.config false) "Core" (Some "admin") (Some "secret") "core" "1710"
              (fun _ => "") 0%nat h Hauth Hs Hattempt Hquiet)
    as (Hsocket & _ & _ & _ & Hlisteners & _ & _ & Hshown).
  split; [vm_compute; reflexivity|]. split; [exact Hsocket|]. split; [exact Hlisteners|].
  exact (Hshown "status" Hin).
Defined.

(** ** Logon *)

Lemma receive_single JSON_parse ToNumber version (rx : list byte) (h : handler) :
  Forall (fun b => b ≠ x00) rx ->
  receive JSON_parse ToNumber version (rx ++ [x00]) h
  = fst (frame JSON_parse ToNumber version rx h).
Proof.
  intros Hrx. unfold receive.
  rewrite (receive_loop_frame JSON_parse ToNumber version _ rx [] [] h); [|rewrite length_app; cbn; lia|done].
  unfold feed. cbn. by destruct (frame JSON_parse ToNumber version rx h).
Qed.

Section Logon.

Variable JSON_parse : string -> option json.
Variable JSON_stringify : QsysMessage.t -> string.
Variable ToNumber : json -> option Q.
Variable version : revision.
Variable config : Config.
Variable name : string.
Variables username password : option string.
Variables target_host target_port : string.

Local Abbreviation step' :=
  (step JSON_parse JSON_stringify ToNumber version config name username password
        target_host target_port).

Lemma ready_spec (s : sock) (h : handler) :
  authentication_enabled config = true -> (s < sockets h)%nat -> quiescent h ->
  step' (On_ready s) h
  = attach_then (promises h) s
      (send_continue JSON_stringify (logon_request username password (lastId h)) (lastId h)
         (promises h) s (set_promises (S (promises h)) (set_lastId (increment (lastId h)) h))).
Proof.
  intros Hauth Hs [Hreactions Hresumptions]. unfold step.
  match goal with
  | |- run_resumptions _ (run_reactions _ ?a) = ?b => assert (a = b) as ->
  end.
  { unfold handle. rewrite bool_decide_eq_true_2, Hauth by assumption. reflexivity. }
  rewrite run_reactions_quiet by (destruct h; exact Hreactions).
  by rewrite run_resumptions_quiet by (destruct h; exact Hresumptions).
Qed.

Lemma map_mark_ids (p : nat) (s : sock) (l : list request) (i : jsval) :
  (forall rq, rq ∈ l -> is_number i (rq_id rq) = false) ->
  forall rq, rq ∈ map (fun r => if bool_decide (rq_promise r = p)
                                then {| rq_id := rq_id r; rq_promise := p; rq_then := Some s |}
                                else r) l ->
             is_number i (rq_id rq) = false.
Proof.
  intros Hl rq Hin. apply list_elem_of_In, in_map_iff in Hin as (r & <- & Hr).
  apply list_elem_of_In, Hl in Hr. by case_bool_decide.
Qed.

(** The frame that answers the Logon of [ready_spec]. *)
Lemma logon_answer (s : sock) (rx : list byte) (fs : list (string * json)) (i : json) (h : handler) :
  authentication_enabled config = true -> (s < sockets h)%nat -> quiescent h ->
  (forall rq, rq ∈ listeners h -> is_number (Some i) (rq_id rq) = false) ->
  Forall (fun b => b ≠ x00) rx ->
  JSON_parse (string_of_list_byte rx) = Some (JObj fs) ->
  assoc "id" fs = Some i -> is_number (Some i) (lastId h) = true ->
  assoc "method" fs = None -> assoc "error" fs = None ->
  let h1 := step' (On_ready s) h in
  receive JSON_parse ToNumber version (rx ++ [x00]) h1
  = complete version (JObj fs) {| rq_id := lastId h; rq_promise := promises h; rq_then := Some s |}
      (log (Emit_package (JObj fs)) h1).
Proof.
  intros Hauth Hs Hquiet Hids Hrx Hparse Hid Hmatch Hmethod Herror h1.
  rewrite receive_single by exact Hrx.
  unfold frame. rewrite Hparse. unfold dispatch, bind.
  assert (notification ToNumber (JObj fs) h1 = (h1, Normal tt)) as ->
      by (unfold notification, bind, lift; cbn [has_property]; by rewrite Hmethod).
  rewrite (emit_package_spec version (JObj fs) (Some i) h1);
    [|cbn; by rewrite Hid|right; cbn; rewrite Herror; discriminate].
  cbn [fst].
  assert (listeners h1
          = map (fun r => if bool_decide (rq_promise r = promises h)
                          then {| rq_id := rq_id r; rq_promise := promises h; rq_then := Some s |}
                          else r) (listeners h)
            ++ [ {| rq_id := lastId h; rq_promise := promises h; rq_then := Some s |} ]) as ->.
  { subst h1. rewrite (ready_spec s h Hauth Hs Hquiet). destruct h; cbn.
    rewrite map_app. cbn. by rewrite bool_decide_eq_true_2. }
  rewrite fold_left_app.
  rewrite (respond_unmatched _ _ _ (map _ (listeners h)));
    [|exact (map_mark_ids (promises h) s (listeners h) (Some i) Hids)].
  cbn [fold_left]. unfold respond. cbn [rq_id]. by rewrite Hmatch.
Qed.

(** X9.  A connection with authentication.  On the ready event of socket
    [s] the handler writes the Logon request to [s], with an id of its own,
    and stores nothing yet.  When the response to it arrives, with no error
    and no method, the promise of the Logon is fulfilled with the response,
    [s] is stored, the connection promise is resolved with [s], every
    registered node is called with "Connected", and the calls of [send] that
    waited for the attempt resume in order. *)
Theorem logon_success_connects (s : sock) (rx : list byte) (fs : list (string * json))
    (i : json) (h : handler) :
  authentication_enabled config = true ->
  (s < sockets h)%nat -> attempts h !! s = None -> quiescent h ->
  settled h !! promises h = None ->
  (forall rq, rq ∈ listeners h -> is_number (Some i) (rq_id rq) = false) ->
  Forall (fun b => b ≠ x00) rx ->
  JSON_parse (string_of_list_byte rx) = Some (JObj fs) ->
  assoc "id" fs = Some i -> is_number (Some i) (lastId h) = true ->
  assoc "method" fs = None -> assoc "error" fs = None ->
  let h1 := step' (On_ready s) h in
  let h2 := step' (On_data s (rx ++ [x00])) h1 in
  trace h1 = trace h ++ resumed JSON_stringify s
                          {| sp_attempt := s; sp_input := logon_request username password (lastId h);
                             sp_id := lastId h; sp_promise := promises h |}
  /\ socket h1 = socket h
  /\ attempts h1 !! s = None
  /\ settled h2 !! promises h = Some (Fulfilled (JObj fs))
  /\ socket h2 = Some s
  /\ connectionPromise h2 = None
  /\ attempts h2 !! s = Some (Fulfilled s)
  /\ trace h2 = trace h1 ++ [Emit_package (JObj fs); ClearTimeout (promises h)]
                         ++ match socket h with Some c => [Destroy c] | None => [] end
                         ++ map (fun k => StatusCallback k (Some s) Connected None) (statusCallbacks h)
                         ++ flat_map (resumed JSON_stringify s) (waiting_for s h).
Proof.
  intros Hauth Hs Hattempt Hquiet Hfresh Hids Hrx Hparse Hid Hmatch Hmethod Herror h1 h2.
  pose proof (logon_answer s rx fs i h Hauth Hs Hquiet Hids Hrx Hparse Hid Hmatch Hmethod Herror)
    as Hanswer. cbn zeta in Hanswer. fold h1 in Hanswer.
  assert (completion_of version (JObj fs) = Fulfilled (JObj fs)) as Hcompletion
      by (unfold completion_of; destruct version; [reflexivity|]; cbn; by rewrite Herror).
  assert (trace h1 = trace h ++ resumed JSON_stringify s
                          {| sp_attempt := s; sp_input := logon_request username password (lastId h);
                             sp_id := lastId h; sp_promise := promises h |}
          /\ socket h1 = socket h /\ attempts h1 = attempts h /\ sockets h1 = sockets h
          /\ settled h1 = settled h /\ reactions h1 = [] /\ resumptions h1 = []
          /\ waiting h1 = waiting h /\ statusCallbacks h1 = statusCallbacks h
          /\ connectionPromise h1 = connectionPromise h)
    as (Ht1 & Hs1 & Ha1 & Hn1 & Hd1 & Hr1 & Hq1 & Hw1 & Hc1 & Hp1).
  { subst h1. rewrite (ready_spec s h Hauth Hs Hquiet).
    destruct Hquiet as [Hreactions Hresumptions]. destruct h; cbn in *.
    split_and!; try done. by rewrite <- app_assoc. }
  split; [exact Ht1|]. split; [exact Hs1|]. split; [by rewrite Ha1|].
  set (rq := {| rq_id := lastId h; rq_promise := promises h; rq_then := Some s |}) in *.
  set (H := set_reactions [] (complete version (JObj fs) rq (log (Emit_package (JObj fs)) h1))).
  assert (h2 = run_resumptions JSON_stringify (handleResolve s H)) as ->.
  { subst h2. unfold step, handle. rewrite bool_decide_eq_true_2 by (by rewrite Hn1).
    rewrite Hanswer. f_equal. unfold run_reactions.
    assert (reactions (complete version (JObj fs) rq (log (Emit_package (JObj fs)) h1))
            = [(s, Fulfilled (JObj fs))]) as ->.
    { unfold complete. rewrite Hcompletion. unfold settle. cbn [rq_promise rq_then rq].
      cbn [settled set_listeners set_timeouts log set_trace]. rewrite Hd1, Hfresh.
      cbn. by rewrite Hr1. }
    cbn [fold_left]. fold H. unfold logon_settled. cbn [get]. rewrite Herror. reflexivity. }
  assert (socket H = socket h /\ attempts H = attempts h /\ resumptions H = []
          /\ waiting H = waiting h /\ statusCallbacks H = statusCallbacks h
          /\ trace H = trace h1 ++ [Emit_package (JObj fs); ClearTimeout (promises h)]
          /\ settled H !! promises h = Some (Fulfilled (JObj fs)))
    as (HsH & HaH & HqH & HwH & HcH & HtH & HdH).
  { subst H. unfold complete. rewrite Hcompletion. unfold settle. cbn [rq_promise rq_then rq].
    cbn [settled set_listeners set_timeouts log set_trace]. rewrite Hd1, Hfresh.
    cbn. rewrite Hs1, Ha1, Hq1, Hw1, Hc1. split_and!; try done.
    - by rewrite <- app_assoc.
    - apply lookup_insert_eq. }
  destruct (handleResolve_spec JSON_stringify s H) as (H1 & H2 & H3 & H4 & H5 & H6 & H7 & H8 & _);
    [by rewrite HaH|exact HqH|].
  split_and!.
  - by rewrite H8.
  - exact H1.
  - exact H2.
  - rewrite H3. apply lookup_insert_eq.
  - rewrite H7, HtH, HsH, HcH. unfold waiting_for. rewrite HwH. by rewrite <- !app_assoc.
Qed.

End Logon.

(** With authentication, socket 0 is ready while a request waits; the
    device answers the Logon, which took the id 0. *)
Lemma logon_success_connects_witness :
  let h := Demo.run Correlator true
             [Call_registerStatusCallback "status"; Call_send (Demo.request "StatusGet" 5) None;
              On_connect 0] new_handler in
  let rx := Demo.bytes "{'jsonrpc':'2.0','id':0,'result':true}" in
  let h1 := step Reader.json_parse Runtime.stringify Runtime.to_number Correlator
              (Demo.config true) "Core" (Some "admin") (Some "secret") "core" "1710"
              (On_ready 0) h in
  let h2 := step Reader.json_parse Runtime.stringify Runtime.to_number Correlator
              (Demo.config true) "Core" (Some "admin") (Some "secret") "core" "1710"
              (On_data 0 (rx ++ [x00])) h1 in
  socket h = None
  /\ socket h1 = socket h
  /\ socket h2 = Some 0%nat
  /\ attempts h2 !! 0%nat = Some (Fulfilled 0%nat)
  /\ settled h2 !! promises h
     = Some (Fulfilled (JObj [("jsonrpc", JStr "2.0"); ("id", num 0); ("result", JBool true)])).
Proof.
  intros h rx h1 h2.
  assert (authentication_enabled (Demo.config true) = true) as Hauth by reflexivity.
  assert (0 < sockets h)%nat as Hs by (vm_compute; lia).
  assert (attempts h !! 0%nat = None) as Hattempt by (vm_compute; reflexivity).
  assert (quiescent h) as Hquiet by (split; vm_compute; reflexivity).
  assert (settled h !! promises h = None) as Hfresh by (vm_compute; reflexivity).
  assert (forall rq, rq ∈ listeners h -> is_number (Some (num 0)) (rq_id rq) = false) as Hids.
  { intros rq Hrq. assert (listeners h = []) as Hnil by (vm_compute; reflexivity).
    rewrite Hnil in Hrq. by apply elem_of_nil in Hrq. }
  assert (Forall (fun b => b ≠ x00) rx) as Hrx by (vm_compute; no_delimiter).
  assert (Reader.json_parse (string_of_list_byte rx)
          = Some (JObj [("jsonrpc", JStr "2.0"); ("id", num 0); ("result", JBool true)]))
    as Hparse by (vm_compute; reflexivity).
  assert (is_number (Some (num 0)) (lastId h) = true) as Hmatch by (vm_compute; reflexivity).
  destruct (logon_success_connects Reader.json_parse Runtime.stringify Runtime.to_number
              Correlator (Demo.config true) "Core" (Some "admin") (Some "secret") "core" "1710"
              0%nat rx _ (num 0) h Hauth Hs Hattempt Hquiet Hfresh Hids Hrx Hparse
              eq_refl Hmatch eq_refl eq_refl)
    as (_ & Hs1 & _ & Hsettled & Hs2 & _ & Ha2 & _).
  split; [vm_compute; reflexivity|]. split; [exact Hs1|]. split; [exact Hs2|].
  split; [exact Ha2|exact Hsettled].
Defined.

(** ** The ids of the requests under way *)

Lemma shrinks_refl (h : handler) : shrinks h h.
Proof. by split. Qed.

Lemma shrinks_trans (h1 h2 h3 : handler) : shrinks h1 h2 -> shrinks h2 h3 -> shrinks h1 h3.
Proof. intros [H1 E1] [H2 E2]. split; [by etrans|congruence]. Qed.

Lemma shrinks_fields (h h' : handler) :
  listeners h' = listeners h -> waiting h' = waiting h -> resumptions h' = resumptions h ->
  lastId h' = lastId h -> shrinks h h'.
Proof. intros Hl Hw Hr Hi. unfold shrinks, pending_ids. by rewrite Hl, Hw, Hr, Hi. Qed.

Lemma submseteq_NoDup {A} (l k : list A) : l ⊆+ k -> NoDup k -> NoDup l.
Proof.
  intros Hsub Hk. apply submseteq_Permutation in Hsub as [k' Hk'].
  rewrite Hk' in Hk. by apply NoDup_app in Hk as [? _].
Qed.

Lemma ids_fresh_shrinks (h h' : handler) : shrinks h h' -> ids_fresh h -> ids_fresh h'.
Proof.
  intros [Hsub Hid] [Hnd Hlt]. split.
  - by apply (submseteq_NoDup _ _ Hsub).
  - rewrite Hid. rewrite Forall_forall in *. intros i Hi. apply Hlt.
    by apply (elem_of_submseteq _ _ _ Hi).
Qed.

Lemma increment_le (n : Z) : n <= increment n.
Proof.
  unfold increment.
  destruct ((- 2 ^ 53 <=? n) && (n <? 2 ^ 53)); [lia|].
  destruct ((- 2 ^ 54 <? n) && (n <? 2 ^ 54)); [|lia].
  destruct (n mod 4 =? 0); lia.
Qed.

Lemma increment_exact (n : Z) : 0 <= n < 2 ^ 53 -> increment n = n + 1.
Proof.
  intros [Hlo Hhi]. unfold increment.
  assert ((- 2 ^ 53 <=? n) && (n <? 2 ^ 53) = true) as ->; [|reflexivity].
  apply andb_true_intro. split; [apply Z.leb_le|apply Z.ltb_lt]; lia.
Qed.

(** At 2^53 the counter stands still, and the same id is handed out
    again. *)
Lemma reserveId_stuck (h : handler) :
  lastId h = 2 ^ 53 -> (reserveId h).2 = 2 ^ 53 /\ lastId (reserveId h).1 = 2 ^ 53.
Proof. intros Hid. unfold reserveId. cbn [fst snd lastId set_lastId]. by rewrite Hid. Qed.

Lemma ids_fresh_extends (h h' : handler) :
  0 <= lastId h < 2 ^ 53 -> extends h h' -> ids_fresh h -> ids_fresh h'.
Proof.
  intros Hbound [Hperm Hid] [Hnd Hlt]. rewrite (increment_exact _ Hbound) in Hid.
  unfold ids_fresh. rewrite Hperm, Hid. split.
  - apply NoDup_app. split_and!; [done| |apply NoDup_singleton].
    intros i Hi Hi'. apply list_elem_of_singleton in Hi'. subst i.
    rewrite Forall_forall in Hlt. specialize (Hlt _ Hi). lia.
  - apply Forall_app. split.
    + eapply Forall_impl; [exact Hlt|]. cbn. intros; lia.
    + constructor; [lia|constructor].
Qed.

Lemma shrinks_log (e : effect) (h : handler) : shrinks h (log e h).
Proof. by apply shrinks_fields. Qed.

Lemma shrinks_settle (p : nat) (r : option sock) (o : outcome) (h : handler) :
  shrinks h (settle p r o h).
Proof. unfold settle. destruct (settled h !! p); [|destruct r]; by apply shrinks_fields. Qed.

Lemma shrinks_filter_listeners (P : request -> Prop) `{!forall x, Decision (P x)} (h : handler) :
  shrinks h (set_listeners (filter P (listeners h)) h).
Proof.
  split; [|done]. unfold pending_ids. cbn. apply submseteq_skips_r.
  apply sublist_submseteq. apply (fmap_sublist rq_id), sublist_filter.
Qed.

Lemma shrinks_settle_attempt (s : sock) (o : attempt_outcome) (h : handler) :
  shrinks h (settle_attempt s o h).
Proof.
  unfold settle_attempt. destruct (attempts h !! s); [apply shrinks_refl|].
  split; [|done]. unfold pending_ids. cbn. apply submseteq_skips_l.
  rewrite map_app, map_map. cbn.
  rewrite <- (filter_app_complement (fun w => sp_attempt w = s) (waiting h)) at 3.
  rewrite map_app.
  assert (forall a b r : list Z, b ++ r ++ a ⊆+ (a ++ b) ++ r) as Hperm; [|apply Hperm].
  intros a b r. rewrite (Permutation_app_comm a b), <- app_assoc.
  apply submseteq_skips_l. by rewrite (Permutation_app_comm r a).
Qed.

Lemma shrinks_updateStatus (status : Status) (error : option js_error) (h : handler) :
  shrinks h (updateStatus status error h).
Proof. rewrite updateStatus_spec. by apply shrinks_fields. Qed.

Lemma shrinks_handleReject (s : sock) (error : js_error) (h : handler) :
  shrinks h (handleReject s error h).
Proof.
  unfold handleReject.
  eapply shrinks_trans; [|apply shrinks_settle_attempt].
  eapply shrinks_trans; [|apply shrinks_updateStatus]. by apply shrinks_fields.
Qed.

Lemma shrinks_handleResolve (s : sock) (h : handler) : shrinks h (handleResolve s h).
Proof.
  unfold handleResolve.
  eapply shrinks_trans; [|apply shrinks_settle_attempt].
  eapply shrinks_trans; [|apply shrinks_updateStatus].
  destruct (socket h); by apply shrinks_fields.
Qed.

Lemma shrinks_logon_settled version (r : sock * outcome) (h : handler) :
  shrinks h (logon_settled version r h).
Proof.
  unfold logon_settled.
  repeat case_match; first [apply shrinks_handleReject | apply shrinks_handleResolve].
Qed.

Lemma shrinks_run_reactions version (h : handler) : shrinks h (run_reactions version h).
Proof.
  unfold run_reactions.
  assert (shrinks h (set_reactions [] h)) as H0 by (by apply shrinks_fields).
  revert H0. generalize (set_reactions [] h). generalize (reactions h).
  induction l as [|r l IH]; intros h' Hh'; [done|].
  cbn. apply IH. eapply shrinks_trans; [exact Hh'|apply shrinks_logon_settled].
Qed.

Lemma shrinks_receive JSON_parse ToNumber version (data : list byte) (h : handler) :
  shrinks h (receive JSON_parse ToNumber version data h).
Proof.
  apply (keeps_receive version (shrinks h) (fun _ => True));
    try apply shrinks_refl; try (intros; by apply Forall_true).
  - intros p h' Hh'. eapply shrinks_trans; [exact Hh'|]. by apply shrinks_fields.
  - intros p h' Hh'. eapply shrinks_trans; [exact Hh'|]. apply shrinks_filter_listeners.
  - intros rq o h' _ Hh'. eapply shrinks_trans; [exact Hh'|]. apply shrinks_settle.
  - intros p h' Hh'. eapply shrinks_trans; [exact Hh'|]. apply shrinks_log.
  - intros obj h' Hh'. eapply shrinks_trans; [exact Hh'|]. apply shrinks_log.
  - intros e h' Hh'. eapply shrinks_trans; [exact Hh'|]. apply shrinks_log.
Qed.

Lemma resume_ids JSON_stringify (r : suspended * attempt_outcome) (h : handler) :
  resumptions h = [] ->
  pending_ids (resume JSON_stringify r h) ⊆+ pending_ids h ++ [sp_id r.1]
  /\ lastId (resume JSON_stringify r h) = lastId h
  /\ resumptions (resume JSON_stringify r h) = [].
Proof.
  intros Hr. destruct r as [w [s|e]]; cbn [resume fst].
  - unfold pending_ids, send_continue. cbn. rewrite Hr. cbn. rewrite !app_nil_r.
    split_and!; try done. rewrite map_app. cbn.
    rewrite <- !app_assoc. apply submseteq_skips_l.
    by rewrite (Permutation_app_comm [sp_id w]).
  - destruct (shrinks_settle (sp_promise w) None (Rejected e) h) as [Hsub Hid].
    split_and!; [by apply submseteq_inserts_r|done|].
    unfold settle. by destruct (settled h !! sp_promise w).
Qed.

Lemma shrinks_run_resumptions JSON_stringify (h : handler) :
  shrinks h (run_resumptions JSON_stringify h).
Proof.
  unfold run_resumptions.
  assert (pending_ids (set_resumptions [] h) ++ map (fun r => sp_id r.1) (resumptions h)
          ⊆+ pending_ids h) as H0.
  { unfold pending_ids. cbn. by rewrite app_nil_r, <- app_assoc. }
  assert (lastId (set_resumptions [] h) = lastId h) as H1 by done.
  assert (resumptions (set_resumptions [] h) = []) as H2 by done.
  revert H0 H1 H2. generalize (set_resumptions [] h). generalize (resumptions h).
  induction l as [|r l IH]; intros h' H0 H1 H2.
  - cbn in *. rewrite app_nil_r in H0. by split.
  - cbn [fold_left]. destruct (resume_ids JSON_stringify r h' H2) as (Hsub & Hid & Hr).
    apply IH; [|congruence|done].
    etrans; [|exact H0]. cbn [map].
    rewrite (cons_middle (sp_id r.1)), app_assoc. by apply submseteq_skips_r.
Qed.

Lemma shrinks_initSocket (h : handler) : shrinks h (initSocket h).1.
Proof.
  unfold initSocket. destruct (connectionPromise h); cbn; [apply shrinks_refl|].
  destruct (noOpIntervalId h); by apply shrinks_fields.
Qed.

Lemma put_first {A} (x : A) (l w r : list A) : (l ++ [x]) ++ w ++ r ≡ₚ (l ++ w ++ r) ++ [x].
Proof.
  rewrite <- !app_assoc. apply Permutation_app_head. cbn.
  rewrite (app_assoc w r [x]). apply Permutation_cons_append.
Qed.

Lemma put_second {A} (x : A) (l w r : list A) : l ++ (w ++ [x]) ++ r ≡ₚ (l ++ w ++ r) ++ [x].
Proof.
  rewrite <- !app_assoc. do 2 apply Permutation_app_head. cbn. apply Permutation_cons_append.
Qed.

Lemma put_third {A} (x : A) (l w r : list A) : l ++ w ++ r ++ [x] ≡ₚ (l ++ w ++ r) ++ [x].
Proof. by rewrite <- !app_assoc. Qed.

(** [send] with an id of its own choice. *)
Lemma extends_send JSON_stringify (input : QsysMessage.t) (forced : option sock) (h : handler) :
  QsysMessage.id input = None -> extends h (send JSON_stringify input forced h).1.
Proof.
  intros Hid. unfold send, stamp, reserveId. rewrite Hid.
  destruct (match forced with Some s => Some s | None => socket h end) as [s|].
  - unfold extends, pending_ids, send_continue. cbn. split; [|done].
    rewrite map_app. apply put_first.
  - unfold getSocket. cbn [socket set_promises set_lastId].
    match goal with
    | |- context [initSocket ?x] =>
        assert (listeners (initSocket x).1 = listeners h /\ waiting (initSocket x).1 = waiting h
                /\ resumptions (initSocket x).1 = resumptions h
                /\ lastId (initSocket x).1 = increment (lastId h)) as (Hl & Hw & Hr & Hi)
          by (unfold initSocket; cbn; repeat case_match; by simplify_eq/=);
        destruct (initSocket x) as [h2 a]
    end.
    destruct (socket h) eqn:Hs.
    + cbn. unfold extends, pending_ids. cbn. split; [|done].
      rewrite map_app. apply put_third.
    + cbn in *. destruct (attempts h2 !! a); cbn; unfold extends, pending_ids; cbn;
        rewrite Hl, Hw, Hr, Hi; (split; [|done]); rewrite map_app.
      * apply put_third.
      * apply put_second.
Qed.

Lemma shrinks_attach_then (p : nat) (s : sock) (h : handler) : shrinks h (attach_then p s h).
Proof.
  split; [|done]. unfold pending_ids, attach_then. cbn.
  rewrite map_map.
  assert (map (fun r => rq_id (if bool_decide (rq_promise r = p)
                               then {| rq_id := rq_id r; rq_promise := p; rq_then := Some s |}
                               else r)) (listeners h) = map rq_id (listeners h)) as ->; [|done].
  apply map_ext. intros r. by case_bool_decide.
Qed.

Section Ids.

Variable JSON_parse : string -> option json.
Variable JSON_stringify : QsysMessage.t -> string.
Variable ToNumber : json -> option Q.
Variable version : revision.
Variable config : Config.
Variable name : string.
Variables username password : option string.
Variables target_host target_port : string.

Local Abbreviation handle' :=
  (handle JSON_parse JSON_stringify ToNumber version config name username password
          target_host target_port).
Local Abbreviation step' :=
  (step JSON_parse JSON_stringify ToNumber version config name username password
        target_host target_port).
Local Abbreviation run' :=
  (run JSON_parse JSON_stringify ToNumber version config name username password
       target_host target_port).

(** An event reserves no id, or it reserves one and puts it under way. *)
Lemma handle_ids (e : event) (h : handler) :
  reserved_id e ->
  shrinks h (handle' e h) \/ exists h1, extends h h1 /\ shrinks h1 (handle' e h).
Proof.
  intros He. destruct e; cbn [handle].
  - right. eexists. split; [by apply extends_send|apply shrinks_refl].
  - left. unfold getSocket.
    destruct (socket h); [apply shrinks_refl|].
    pose proof (shrinks_initSocket h). by destruct (initSocket h).
  - left. apply shrinks_initSocket.
  - right. exists (getComponentList JSON_stringify h).1.
    split; [by apply extends_send|apply shrinks_refl].
  - left. unfold registerStatusCallback. case_match; by apply shrinks_fields.
  - left. unfold unregisterStatusCallback. case_match; by apply shrinks_fields.
  - case_match; [|left; apply shrinks_refl]. right.
    pose proof (extends_send JSON_stringify (logon username password) (Some s) h eq_refl) as Hsend.
    destruct (send JSON_stringify (logon username password) (Some s) h) as [h1 p].
    exists h1. split; [exact Hsend|apply shrinks_attach_then].
  - left. case_match; [|apply shrinks_refl].
    unfold on_gone. cbn. destruct (bool_decide (socket h = Some s)); by apply shrinks_fields.
  - left. case_match; [|apply shrinks_refl].
    unfold on_gone. cbn. destruct (bool_decide (socket h = Some s)); by apply shrinks_fields.
  - left. case_match; [|apply shrinks_refl].
    unfold on_gone. cbn. destruct (bool_decide (socket h = Some s)); by apply shrinks_fields.
  - left. case_match; [|apply shrinks_refl].
    unfold on_attempt_failed.
    eapply shrinks_trans; [|apply shrinks_handleReject]. apply shrinks_log.
  - left. case_match; [|apply shrinks_refl].
    unfold on_attempt_failed.
    eapply shrinks_trans; [|apply shrinks_handleReject]. apply shrinks_log.
  - left. case_match; [|apply shrinks_refl].
    case_match; [apply shrinks_log|].
    eapply shrinks_trans; [|apply shrinks_handleResolve]. apply shrinks_log.
  - left. repeat case_match; by apply shrinks_fields.
  - left. case_match; [|apply shrinks_refl].
    apply shrinks_receive.
  - left. rewrite close_all_fold.
    case_match; by apply shrinks_fields.
  - left. unfold timer_fired.
    destruct (filter _ (timeouts h)); [apply shrinks_refl|].
    eapply shrinks_trans; [|apply shrinks_settle]. by apply shrinks_fields.
Qed.

Lemma step_ids (e : event) (h : handler) :
  reserved_id e ->
  shrinks h (step' e h) \/ exists h1, extends h h1 /\ shrinks h1 (step' e h).
Proof.
  intros He. unfold step.
  assert (forall h0, shrinks h0 (handle' e h) ->
                     shrinks h0 (run_resumptions JSON_stringify
                                   (run_reactions version (handle' e h)))) as Hafter.
  { intros h0 H0. eapply shrinks_trans; [|apply shrinks_run_resumptions].
    eapply shrinks_trans; [exact H0|apply shrinks_run_reactions]. }
  destruct (handle_ids e h He) as [Hs|(h1 & He1 & Hs)]; [left|right; exists h1]; auto.
Qed.

(** The counter never goes back. *)
Lemma lastId_step (e : event) (h : handler) :
  reserved_id e -> lastId h <= lastId (step' e h).
Proof.
  intros He. destruct (step_ids e h He) as [[_ Hid]|(h1 & [_ Hid1] & [_ Hid])].
  - lia.
  - rewrite Hid, Hid1. apply increment_le.
Qed.

Lemma lastId_run (es : list event) (h : handler) :
  Forall reserved_id es -> lastId h <= lastId (run' es h).
Proof.
  intros Hes. revert h. induction Hes as [|e es He _ IH]; intros h; [done|].
  change (run' (e :: es) h) with (run' es (step' e h)).
  etrans; [by apply lastId_step|apply IH].
Qed.

Lemma ids_fresh_step (e : event) (h : handler) :
  reserved_id e -> 0 <= lastId h -> lastId (step' e h) < 2 ^ 53 ->
  ids_fresh h -> ids_fresh (step' e h).
Proof.
  intros He Hlo Hhi Hh.
  pose proof (lastId_step e h He) as Hle.
  destruct (step_ids e h He) as [Hs|(h1 & He1 & Hs)].
  - by apply (ids_fresh_shrinks h).
  - apply (ids_fresh_shrinks h1); [exact Hs|].
    apply (ids_fresh_extends h); [lia|exact He1|exact Hh].
Qed.

(** X10.  Ids that [send] reserves do not collide before the counter reaches
    2^53.  As long as every call of [send] leaves the id to the handler and
    the counter, which starts at 0, is below 2^53 at the end, the ids of the
    requests under way (registered, waiting for the connection or about to
    resume) are pairwise distinct and below the next id to reserve, whatever
    events happen in between; in particular no two registered listeners wait
    for the same id.  (At 2^53 the counter stands still, [reserveId_stuck],
    and every request from then on is given the id 2^53.) *)
Theorem reserved_ids_distinct (es : list event) (h : handler) :
  Forall reserved_id es -> ids_fresh h -> 0 <= lastId h ->
  let h' := run' es h in
  lastId h' < 2 ^ 53 ->
  ids_fresh h' /\ NoDup (map rq_id (listeners h')).
Proof.
  intros Hes Hh Hlo. cbn zeta. intros Hhi.
  assert (ids_fresh (run' es h)) as Hfresh.
  { revert h Hh Hlo Hhi. induction Hes as [|e es He Hes IH]; intros h Hh Hlo Hhi; [done|].
    change (run' (e :: es) h) with (run' es (step' e h)) in *.
    pose proof (lastId_step e h He) as Hle.
    pose proof (lastId_run es (step' e h) Hes) as Hle'.
    apply IH; [|lia|exact Hhi]. apply ids_fresh_step; [done|done|lia|done]. }
  split; [exact Hfresh|]. destruct Hfresh as [Hnd _].
  by apply NoDup_app in Hnd as [? _].
Qed.

End Ids.

(** Three requests that leave the id to the handler, and the Logon. *)
Lemma reserved_ids_distinct_witness :
  let send method := Call_send {| QsysMessage.jsonrpc := None; QsysMessage.method := Some method;
                                  QsysMessage.id := None; QsysMessage.params := None |} None in
  let es := [send "StatusGet"; send "Component.GetComponents"; On_connect 0; On_ready 0;
             send "NoOp"] in
  let h' := run Reader.json_parse Runtime.stringify Runtime.to_number Correlator
                (Demo.config true) "Core" (Some "admin") (Some "secret") "core" "1710"
                es new_handler in
  ids_fresh h' /\ NoDup (map rq_id (listeners h')).
Proof.
  intros send es.
  apply (reserved_ids_distinct Reader.json_parse Runtime.stringify Runtime.to_number Correlator
           (Demo.config true) "Core" (Some "admin") (Some "secret") "core" "1710" es new_handler).
  - repeat constructor.
  - split; [apply NoDup_nil_2|apply Forall_nil_2].
  - vm_compute. discriminate.
  - vm_compute. reflexivity.
Defined.

(** ** A failed connection attempt *)

Lemma reject_fold JSON_stringify (error : js_error) (ws : list suspended) (h : handler) :
  let h' := fold_left (fun h' r => resume JSON_stringify r h')
              (map (fun w => (w, Rejected error)) ws) h in
  (forall w, w ∈ ws -> settled h !! sp_promise w = None ->
             settled h' !! sp_promise w = Some (Rejected error))
  /\ (forall p o, settled h !! p = Some o -> settled h' !! p = Some o)
  /\ trace h' = trace h /\ listeners h' = listeners h /\ timeouts h' = timeouts h
  /\ socket h' = socket h /\ connectionPromise h' = connectionPromise h
  /\ attempts h' = attempts h /\ waiting h' = waiting h /\ resumptions h' = resumptions h
  /\ reactions h' = reactions h.
Proof.
  cbn zeta. revert h. induction ws as [|w ws IH]; intros h.
  - cbn. split_and!; try done. intros w Hw. by apply elem_of_nil in Hw.
  - cbn [map fold_left resume].
    set (h1 := settle (sp_promise w) None (Rejected error) h).
    destruct (IH h1) as (Hin & Hkeep & Ht & Hl & Hto & Hs & Hc & Ha & Hw & Hr & Hq).
    assert (trace h1 = trace h /\ listeners h1 = listeners h /\ timeouts h1 = timeouts h
            /\ socket h1 = socket h /\ connectionPromise h1 = connectionPromise h
            /\ attempts h1 = attempts h /\ waiting h1 = waiting h
            /\ resumptions h1 = resumptions h /\ reactions h1 = reactions h)
      as (Ht1 & Hl1 & Hto1 & Hs1 & Hc1 & Ha1 & Hw1 & Hr1 & Hq1)
      by (subst h1; unfold settle; by destruct (settled h !! sp_promise w)).
    assert (forall p o, settled h !! p = Some o -> settled h1 !! p = Some o) as Hkeep1.
    { intros p o Hp. subst h1. unfold settle.
      destruct (settled h !! sp_promise w) eqn:Hw'; [done|]. cbn.
      rewrite lookup_insert_ne; [done|congruence]. }
    split_and!; try congruence.
    + intros w' Hw' Hnone. apply elem_of_cons in Hw' as [->|Hw'].
      * apply Hkeep. subst h1. by apply settle_lookup.
      * destruct (settled h1 !! sp_promise w') as [o|] eqn:Hp; [|by apply Hin].
        apply Hkeep. rewrite Hp. f_equal.
        subst h1. unfold settle in Hp.
        destruct (settled h !! sp_promise w) eqn:Hw''; [congruence|]. cbn in Hp.
        destruct (decide (sp_promise w' = sp_promise w)) as [Heq|Hne].
        -- rewrite Heq, lookup_insert_eq in Hp. congruence.
        -- rewrite lookup_insert_ne in Hp by done. congruence.
    + intros p o Hp. by apply Hkeep, Hkeep1.
Qed.

Lemma handleReject_waiting (s : sock) (error : js_error) (h : handler) :
  attempts h !! s = None ->
  waiting (handleReject s error h) = filter (fun w => sp_attempt w ≠ s) (waiting h)
  /\ settled (handleReject s error h) = settled h.
Proof.
  intros Ha. unfold handleReject. rewrite updateStatus_spec. unfold settle_attempt.
  cbn. by rewrite Ha.
Qed.

Section AttemptFailed.

Variable JSON_parse : string -> option json.
Variable JSON_stringify : QsysMessage.t -> string.
Variable ToNumber : json -> option Q.
Variable version : revision.
Variable config : Config.
Variable name : string.
Variables username password : option string.
Variables target_host target_port : string.
Variable runtime : js_error -> string.

Local Abbreviation step' :=
  (step JSON_parse JSON_stringify ToNumber version config name username password
        target_host target_port).

(** X11.  A failed connection attempt.  On the connectionAttemptFailed or
    connectionAttemptTimeout event of socket [s], while its attempt is
    pending: the socket is destroyed, every registered node is called with
    "Error" and the error that names host and port, and shows red with its
    message; the connection promise is cleared and rejected, so that the
    next demand opens a new attempt; every call of [send] that waited for
    the attempt is rejected with the error, nothing is written and no
    listener or timer is added. *)
Theorem attempt_failure_rejects_waiting (e : event) (s : sock) (message : string) (h : handler) :
  e = On_connectionAttemptFailed s
      /\ message = socket_message target_host target_port "Connecting to socket " " failed."
  \/ e = On_connectionAttemptTimeout s
      /\ message = socket_message target_host target_port "Connecting to socket " " timed out." ->
  (s < sockets h)%nat -> attempts h !! s = None -> quiescent h ->
  let h' := step' e h in
  let error := JsError message in
  trace h' = trace h ++ Destroy s
                     :: map (fun k => StatusCallback k (socket h) Error (Some error))
                            (statusCallbacks h)
  /\ (forall k, k ∈ statusCallbacks h ->
        Display.shown runtime (trace h') k
        = Some {| Display.fill := "red"; Display.shape := "dot"; Display.text := message |})
  /\ attempts h' !! s = Some (Rejected error)
  /\ connectionPromise h' = None
  /\ socket h' = socket h
  /\ waiting_for s h' = []
  /\ (forall w, w ∈ waiting_for s h -> settled h !! sp_promise w = None ->
        settled h' !! sp_promise w = Some (Rejected error))
  /\ listeners h' = listeners h /\ timeouts h' = timeouts h.
Proof.
  intros He Hs Hattempt [Hreactions Hresumptions] h' error.
  assert (h' = run_resumptions JSON_stringify (handleReject s error (log (Destroy s) h))) as ->.
  { subst h'. unfold step.
    assert (handle JSON_parse JSON_stringify ToNumber version config name username password
              target_host target_port e h = handleReject s error (log (Destroy s) h)) as ->.
    { destruct He as [[-> ->]|[-> ->]]; cbn [handle];
        by rewrite bool_decide_eq_true_2 by assumption. }
    rewrite run_reactions_quiet; [done|].
    destruct (handleReject_spec s error (log (Destroy s) h) Hattempt)
      as (_ & _ & _ & _ & _ & _ & _ & ->). exact Hreactions. }
  destruct (handleReject_spec s error (log (Destroy s) h) Hattempt)
    as (Ht & Hc & Hs1 & Ha & Hr & Hl & Hto & Hq).
  destruct (handleReject_waiting s error (log (Destroy s) h) Hattempt) as [Hwaiting Hsettled].
  set (h1 := handleReject s error (log (Destroy s) h)) in *.
  cbn [resumptions log set_trace waiting] in Hr. rewrite Hresumptions in Hr. cbn [app] in Hr.
  unfold run_resumptions. rewrite Hr.
  destruct (reject_fold JSON_stringify error (filter (fun w => sp_attempt w = s) (waiting h))
              (set_resumptions [] h1))
    as (Hin & Hkeep & Ht2 & Hl2 & Hto2 & Hs2 & Hc2 & Ha2 & Hw2 & Hr2 & Hq2).
  assert (trace h1 = trace h ++ Destroy s
                     :: map (fun k => StatusCallback k (socket h) Error (Some error))
                            (statusCallbacks h)) as Htrace.
  { rewrite Ht. cbn. by rewrite <- app_assoc. }
  split_and!.
  - by rewrite Ht2.
  - intros k Hk. rewrite Ht2. cbn [trace set_resumptions]. rewrite Htrace.
    rewrite (cons_middle (Destroy s)), app_assoc.
    rewrite <- (app_nil_r (map _ (statusCallbacks h))). by rewrite shown_after.
  - by rewrite Ha2.
  - by rewrite Hc2.
  - by rewrite Hs2.
  - unfold waiting_for. rewrite Hw2. cbn [waiting set_resumptions].
    rewrite Hwaiting. apply waiting_for_others.
  - intros w Hw Hnone. apply Hin; [exact Hw|].
    cbn [settled set_resumptions]. by rewrite Hsettled.
  - by rewrite Hl2.
  - by rewrite Hto2.
Qed.

End AttemptFailed.

(** The attempt of socket 0 fails while a request waits for it. *)
Lemma attempt_failure_rejects_waiting_witness :
  let h := Demo.run Correlator false
             [Call_registerStatusCallback "status"; Call_send (Demo.request "StatusGet" 5) None]
             new_handler in
  let h' := step Reader.json_parse Runtime.stringify Runtime.to_number Correlator
              (Demo.config false) "Core" (Some "admin") (Some "secret") "core" "1710"
              (On_connectionAttemptFailed 0) h in
  let error := JsError "Connecting to socket core:1710 failed." in
  trace h' = trace h ++ [Destroy 0; StatusCallback "status" None Error (Some error)]
  /\ Display.shown (fun _ => "") (trace h') "status"
     = Some {| Display.fill := "red"; Display.shape := "dot";
               Display.text := "Connecting to socket core:1710 failed." |}
  /\ settled h' !! 0%nat = Some (Rejected error)
  /\ connectionPromise h' = None.
Proof.
  intros h h' error.
  assert (0 < sockets h)%nat as Hs by (vm_compute; lia).
  assert (attempts h !! 0%nat = None) as Hattempt by (vm_compute; reflexivity).
  assert (quiescent h) as Hquiet by (split; vm_compute; reflexivity).
  assert ("status" ∈ statusCallbacks h) as Hin by (vm_compute; apply list_elem_of_here).
  destruct (attempt_failure_rejects_waiting Reader.json_parse Runtime.stringify
              Runtime.to_number Correlator (Demo.config false) "Core" (Some "admin")
              (Some "secret") "core" "1710" (fun _ => "") (On_connectionAttemptFailed 0) 0%nat
              "Connecting to socket core:1710 failed." h
              (or_introl (conj eq_refl eq_refl)) Hs Hattempt Hquiet)
    as (Htrace & Hshown & _ & Hc & _ & _ & Hrejected & _).
  split; [vm_compute; reflexivity|]. split; [exact (Hshown "status" Hin)|].
  split; [|exact Hc].
  apply (Hrejected {| sp_attempt := 0%nat;
                      sp_input := {| QsysMessage.jsonrpc := Some "2.0";
                                     QsysMessage.method := Some "StatusGet";
                                     QsysMessage.id := Some 5;
                                     QsysMessage.params := Some (num 0) |};
                      sp_id := 5; sp_promise := 0%nat |}).
  - vm_compute. apply list_elem_of_here.
  - vm_compute. reflexivity.
Defined.

(** ** The registry of status callbacks *)

(** X12.  Registering a node that is not registered and unregistering it
    gives the handler back as it was; registering a node a second time
    changes nothing (the first callback stays). *)
Theorem unregister_after_register (nodeId : string) (h : handler) :
  nodeId ∉ statusCallbacks h ->
  unregisterStatusCallback nodeId (registerStatusCallback nodeId h) = h
  /\ registerStatusCallback nodeId (registerStatusCallback nodeId h)
     = registerStatusCallback nodeId h.
Proof.
  intros Hnew. unfold registerStatusCallback at 1 3 4.
  rewrite bool_decide_eq_false_2 by assumption. split.
  - unfold unregisterStatusCallback. cbn [statusCallbacks set_statusCallbacks].
    rewrite bool_decide_eq_true_2 by (apply elem_of_app; right; by apply list_elem_of_singleton).
    rewrite filter_app, filter_all by (apply Forall_forall; by intros k Hk ->).
    rewrite filter_cons, decide_False by (intros Hne; by apply Hne).
    rewrite filter_nil, app_nil_r. by destruct h.
  - unfold registerStatusCallback. cbn [statusCallbacks set_statusCallbacks].
    by rewrite bool_decide_eq_true_2
      by (apply elem_of_app; right; by apply list_elem_of_singleton).
Qed.

(** ** What [send] writes *)

(** X13.  What [send] writes is one frame for [receive]: when the JSON text
    of the request holds no NUL, [receive] given the bytes of [encapsulate]
    decodes exactly that text, once. *)
Theorem encapsulate_is_one_frame JSON_parse JSON_stringify ToNumber version
    (input : QsysMessage.t) (h : handler) :
  let text := JSON_stringify input in
  Forall (fun b => b ≠ x00) (list_byte_of_string text) ->
  receive JSON_parse ToNumber version (encapsulate JSON_stringify input) h
  = match JSON_parse text with
    | None => log (NodeError JsSyntaxError) h
    | Some obj =>
        match dispatch ToNumber version obj h with
        | (h', Normal _) => h'
        | (h', Throw e) => log (NodeError e) h'
        end
    end.
Proof.
  intros text Htext. unfold encapsulate. fold text.
  rewrite receive_single by exact Htext.
  unfold frame. rewrite string_of_list_byte_of_string.
  destruct (JSON_parse text) as [obj|]; [|reflexivity].
  by destruct (dispatch ToNumber version obj h) as [h' [[]|e]].
Qed.

Lemma unregister_after_register_witness :
  let h := Demo.run Correlator false [Call_registerStatusCallback "status"] new_handler in
  unregisterStatusCallback "mixer" (registerStatusCallback "mixer" h) = h
  /\ registerStatusCallback "mixer" (registerStatusCallback "mixer" h)
     = registerStatusCallback "mixer" h.
Proof.
  intros h. apply unregister_after_register.
  vm_compute. intros Hin. apply list_elem_of_singleton in Hin. discriminate.
Defined.

(** The request that [send] writes for StatusGet with the id 5. *)
Lemma encapsulate_is_one_frame_witness :
  let input := {| QsysMessage.jsonrpc := Some "2.0"; QsysMessage.method := Some "StatusGet";
                  QsysMessage.id := Some 5; QsysMessage.params := Some (num 0) |} in
  Runtime.stringify input = dq "{'jsonrpc':'2.0','method':'StatusGet','id':5,'params':0}"
  /\ receive Reader.json_parse Runtime.to_number Correlator
       (encapsulate Runtime.stringify input) new_handler
     = match Reader.json_parse (Runtime.stringify input) with
       | None => log (NodeError JsSyntaxError) new_handler
       | Some obj =>
           match dispatch Runtime.to_number Correlator obj new_handler with
           | (h', Normal _) => h'
           | (h', Throw e) => log (NodeError e) h'
           end
       end.
Proof.
  intros input. split; [vm_compute; reflexivity|].
  apply (encapsulate_is_one_frame Reader.json_parse Runtime.stringify Runtime.to_number
           Correlator input new_handler).
  vm_compute. no_delimiter.
Defined.

(** ** Strings *)

Lemma split_on_free (sep : ascii) (s : string) :
  free_of sep s = true -> split_on sep s = [s].
Proof.
  induction s as [|c s IH]; [reflexivity|]. cbn [split_on free_of].
  destruct (Ascii.eqb c sep); [discriminate|]. cbn [negb andb]. intros Hs. by rewrite IH.
Qed.

Lemma split_on_append (sep : ascii) (s r : string) :
  free_of sep s = true ->
  split_on sep (s ++ String sep r)%string = s :: split_on sep r.
Proof.
  induction s as [|c s IH]; unfold String.append; fold String.append;
    cbn [split_on free_of].
  - by rewrite Ascii.eqb_refl.
  - destruct (Ascii.eqb c sep); [discriminate|]. cbn [negb andb]. intros Hs. by rewrite IH.
Qed.

Lemma split_on_concat (sep : ascii) (ws : list string) :
  ws ≠ [] -> Forall (fun w => free_of sep w = true) ws ->
  split_on sep (String.concat (String sep EmptyString) ws) = ws.
Proof.
  intros Hne Hws. induction Hws as [|w ws Hw Hws IH]; [done|].
  destruct ws as [|w' ws]; [by apply split_on_free|].
  change (String.concat (String sep "") (w :: w' :: ws))
    with (w ++ String sep (String.concat (String sep "") (w' :: ws)))%string.
  rewrite split_on_append by assumption. by rewrite IH.
Qed.

(** ** The admin endpoints *)

(** X14.  The status of the admin endpoints, from the response of the
    device (later revision).  For the response that matches the request: the
    controls endpoint answers 404 when the response has an error with code 7,
    503 for any other error and when there is no result to read Controls
    from, 200 otherwise; the components endpoint answers 503 for an error
    and 200 otherwise. *)
Theorem controls_endpoint_status (rq : request) (data : json) (i : jsval) (h : handler) :
  get (Some data) "id" = Normal i ->
  is_number i (rq_id rq) = true ->
  listeners_safe ApiError data ->
  settled h !! rq_promise rq = None ->
  exists o,
    settled (listener ApiError rq data h).1 !! rq_promise rq = Some o
    /\ Admin.status (Admin.controls o)
       = match get (Some data) "error" with
         | Normal (Some error) =>
             match get (Some error) "code" with
             | Normal code => if is_number code 7 then 404 else 503
             | Throw _ => 503
             end
         | _ =>
             match get (Some data) "result" with
             | Normal result => if absent result then 503 else 200
             | Throw _ => 503
             end
         end
    /\ Admin.status (Admin.components o)
       = match get (Some data) "error" with
         | Normal (Some _) => 503
         | _ => 200
         end.
Proof.
  intros Hid Hmatch Hsafe Hpending.
  exists (completion_of ApiError data). split.
  { rewrite (listener_spec ApiError rq data i h Hid Hsafe), Hmatch. cbn [fst].
    unfold complete. by apply settle_lookup. }
  assert (data ≠ JNull) as Hdata by (intros ->; discriminate).
  destruct (get_not_null data "error" Hdata) as [error Herror].
  destruct (get_not_null data "result" Hdata) as [result Hresult].
  unfold completion_of. rewrite Herror.
  destruct error as [error|].
  - assert (error ≠ JNull) as Hnull by (destruct Hsafe as [|Hsafe]; [discriminate|congruence]).
    destruct (get_not_null error "code" Hnull) as [code Hcode].
    destruct (get_not_null error "message" Hnull) as [message Hmessage].
    rewrite Hcode, Hmessage. cbn. by destruct (is_number code 7).
  - unfold Admin.controls, Admin.components. rewrite Hresult. split; [|reflexivity].
    destruct result as [[]|]; cbn; try reflexivity; by repeat case_match.
Qed.

(** ** The target of a connection *)

(** X15.  Host and port of the connection.  [config.host] without a colon
    is the host, with port 1710; in host:port the port is what [parseInt]
    reads in the text after the colon, and 1710 when that text is empty;
    whatever follows a second colon is ignored. *)
Theorem target_default_port (parseInt : string -> number) (host port rest : string) :
  free_of ":" host = true -> free_of ":" port = true ->
  target parseInt host = (Some host, Double 1710)
  /\ target parseInt (host ++ ":" ++ port)
     = (Some host, if String.eqb port "" then Double 1710 else parseInt port)
  /\ target parseInt (host ++ ":" ++ port ++ ":" ++ rest)
     = target parseInt (host ++ ":" ++ port).
Proof.
  intros Hhost Hport. unfold target.
  rewrite (split_on_free ":" host Hhost).
  change (host ++ ":" ++ port)%string with (host ++ String ":" port)%string.
  change (host ++ ":" ++ port ++ ":" ++ rest)%string
    with (host ++ String ":" (port ++ String ":" rest))%string.
  rewrite !split_on_append, (split_on_free ":" port) by assumption. cbn.
  by destruct (String.eqb port "").
Qed.

(** The device answers the request 7 for the controls of a component it does
    not know. *)
Lemma controls_endpoint_status_witness :
  let h := Demo.run ApiError false
             [Call_send (Demo.request "Component.GetControls" 7) None; On_connect 0] new_handler in
  let rq := {| rq_id := 7; rq_promise := 0; rq_then := None |} in
  let data := JObj [("id", num 7);
                    ("error", JObj [("code", num 7); ("message", JStr "Unknown component")])] in
  exists o,
    settled (listener ApiError rq data h).1 !! 0%nat = Some o
    /\ Admin.status (Admin.controls o) = 404
    /\ Admin.status (Admin.components o) = 503.
Proof.
  intros h rq data.
  assert (listeners_safe ApiError data) as Hsafe by (right; discriminate).
  assert (settled h !! rq_promise rq = None) as Hpending by (vm_compute; reflexivity).
  exact (controls_endpoint_status rq data (Some (num 7)) h eq_refl eq_refl Hsafe Hpending).
Defined.

Lemma target_default_port_witness :
  target Examples.parse_int "core" = (Some "core", Double 1710)
  /\ target Examples.parse_int "core:1711" = (Some "core", Double 1711)
  /\ target Examples.parse_int "core:1711:x" = target Examples.parse_int "core:1711".
Proof.
  exact (target_default_port Examples.parse_int "core" "1711" "x" eq_refl eq_refl).
Defined.

(** ** The mixer node *)

Section MixerNode.

Variable parseInt : string -> number.
Variable StringToNumber : string -> number.
Variable Number_toString : number -> string.
Variable now : Z.
Variable config : Mixer.Config.

Local Abbreviation input := (Mixer.input parseInt StringToNumber Number_toString now config).
Local Abbreviation not_supported := (Mixer.not_supported Number_toString).
Local Abbreviation to_string := (Mixer.to_string Number_toString).

(** [message.method ?? this.config.method] *)
Local Abbreviation method_of message :=
  (match Mixer.MessageIn.method message with
   | Some m => m
   | None => Mixer.method config
   end).

Lemma is_one_of_elem (m : string) (names : list string) :
  Mixer.is_one_of m names = true -> m ∈ names.
Proof.
  unfold Mixer.is_one_of. intros H. apply existsb_exists in H as (x & Hin & Heq).
  apply String.eqb_eq in Heq. subst. by apply list_elem_of_In.
Qed.

Ltac each_method H :=
  apply is_one_of_elem in H; unfold Mixer.numeric_methods, Mixer.boolean_methods in H;
  repeat (apply elem_of_cons in H as [H|H]); [..|by apply elem_of_nil in H].



(** X18.  Every input of the mixer node ends in one of two ways: one
    warning, or one request "Mixer.<method>" for the configured component
    with the given id; then [done] is called, once.  A method outside the
    thirteen is refused with "Method '...' is not supported.". *)
Theorem input_warns_or_sends (message : Mixer.MessageIn.t) :
  let method := method_of message in
  let known := Mixer.is_one_of method (Mixer.numeric_methods ++ Mixer.boolean_methods) in
  ((exists text, input message = [Mixer.Warn text; Mixer.Done])
   \/ (exists m, input message = [Mixer.Send m; Mixer.Done]
                 /\ known = true
                 /\ Mixer.id m = now
                 /\ Mixer.rpc_method m = ("Mixer." ++ method)%string
                 /\ Mixer.param "Name" (Mixer.params m) = Some (Mixer.Str (Mixer.codename config))))
  /\ (known = false ->
      input message = [Mixer.Warn ("Method '" ++ method ++ "' is not supported.")%string; Mixer.Done]).
Proof.
  cbn zeta. unfold Mixer.input.
  destruct (Mixer.is_one_of (method_of message) (Mixer.numeric_methods ++ Mixer.boolean_methods))
    eqn:Hknown.
  - split; [|discriminate].
    destruct (method_of message) as [|c m] eqn:Hm; [discriminate|].
    each_method Hknown; rewrite Hknown;
      unfold Mixer.validate, Mixer.tested, Mixer.to_number;
      destruct (Mixer.MessageIn.payload message) as [| |b|s|n|l|fs];
      cbn [Mixer.is_one_of Mixer.numeric_methods Mixer.boolean_methods existsb String.eqb
           Ascii.eqb Bool.eqb orb andb isNaN negb];
      try (left; eexists; reflexivity);
      try (right; eexists; split; [reflexivity|]; by split_and!);
      match goal with
      | |- context [isNaN ?n] => destruct n; cbn [isNaN negb]
      end;
      try (left; eexists; reflexivity);
      try (right; eexists; split; [reflexivity|]; by split_and!).
  - assert (Mixer.validate parseInt StringToNumber Number_toString (method_of message)
              (Mixer.MessageIn.payload message)
            = Some ("Method '" ++ method_of message ++ "' is not supported.")%string) as Hv.
    { unfold Mixer.validate, Mixer.is_one_of in *. rewrite existsb_app in Hknown.
      apply orb_false_iff in Hknown as [-> ->]. reflexivity. }
    rewrite Hv. split; [left; by eexists|done].
Qed.

Lemma existsb_is_star_numbers (l : list number) :
  existsb Mixer.is_star (map Mixer.INumber l) = false.
Proof. induction l as [|n l IH]; [reflexivity|exact IH]. Qed.

Lemma existsb_is_star_strings (ws : list string) :
  Forall (fun w => w ≠ "*"%string) ws -> existsb Mixer.is_star (map Mixer.IString ws) = false.
Proof.
  induction 1 as [|w ws Hw _ IH]; [reflexivity|]. cbn.
  rewrite IH. by apply String.eqb_neq in Hw as ->.
Qed.

(** X19.  [parseSelections]: nothing selected for undefined or null; all
    ("*") for the string "*" and for an array that holds "*"; an array of
    numbers as it is; a string of pieces separated by single spaces as the
    numbers that [parseInt] reads in the pieces, one per piece, NaN for a
    piece without a number, so that the empty string selects NaN. *)
Theorem parseSelections_spec :
  let parse := Mixer.parseSelections parseInt in
  parse None = Mixer.Numbers []
  /\ parse (Some (Mixer.Text "*")) = Mixer.All
  /\ (forall l, Mixer.IString "*" ∈ l -> parse (Some (Mixer.Items l)) = Mixer.All)
  /\ (forall l, parse (Some (Mixer.Items (map Mixer.INumber l))) = Mixer.Numbers l)
  /\ (forall ws, ws ≠ [] ->
        Forall (fun w => free_of " " w = true /\ w ≠ "*"%string) ws ->
        parse (Some (Mixer.Text (String.concat " " ws))) = Mixer.Numbers (map parseInt ws))
  /\ parse (Some (Mixer.Text "")) = Mixer.Numbers [parseInt ""].
Proof.
  cbn zeta. split_and!; try reflexivity.
  - intros l Hin. unfold Mixer.parseSelections.
    assert (existsb Mixer.is_star l = true) as ->; [|reflexivity].
    apply existsb_exists. exists (Mixer.IString "*"). split; [by apply list_elem_of_In|reflexivity].
  - intros l. unfold Mixer.parseSelections. rewrite existsb_is_star_numbers, map_map. cbn.
    by rewrite map_id.
  - intros ws Hne Hws. unfold Mixer.parseSelections.
    assert (Forall (fun w => free_of " " w = true) ws) as Hfree
        by (eapply Forall_impl; [exact Hws|]; by intros w [? _]).
    assert (Forall (fun w => w ≠ "*"%string) ws) as Hstar
        by (eapply Forall_impl; [exact Hws|]; by intros w [_ ?]).
    rewrite (split_on_concat " " ws Hne Hfree).
    rewrite existsb_is_star_strings, map_map by assumption.
    assert (String.eqb (String.concat " " ws) "*" = false) as ->; [|reflexivity].
    apply String.eqb_neq. intros Heq.
    pose proof (split_on_concat " " ws Hne Hfree) as Hsplit. rewrite Heq in Hsplit.
    cbn in Hsplit. subst ws. apply Forall_cons in Hstar as [Hstar _]. by apply Hstar.
Qed.

End MixerNode.


(** ** A request and its response *)

Section RoundTrip.

Variable JSON_parse : string -> option json.
Variable JSON_stringify : QsysMessage.t -> string.
Variable ToNumber : json -> option Q.
Variable version : revision.
Variable config : Config.
Variable name : string.
Variables username password : option string.
Variables target_host target_port : string.

Local Abbreviation step' :=
  (step JSON_parse JSON_stringify ToNumber version config name username password
        target_host target_port).

(** A node sends a request with a reserved id over the stored socket, and
    the response with that id arrives. *)
Lemma request_round_trip (make : Z -> QsysMessage.t) (s s' : sock) (rx : list byte)
    (fs : list (string * json)) (i : json) (h : handler) :
  (forall id, QsysMessage.id (make id) = Some id) ->
  socket h = Some s -> quiescent h -> ids_fresh h -> settled h !! promises h = None ->
  (s' < sockets h)%nat ->
  Forall (fun b => b ≠ x00) rx ->
  JSON_parse (string_of_list_byte rx) = Some (JObj fs) ->
  assoc "id" fs = Some i -> is_number (Some i) (lastId h) = true ->
  assoc "method" fs = None -> assoc "error" fs ≠ Some JNull ->
  let h1 := (Nodes.request JSON_stringify make h).1 in
  let h2 := step' (On_data s' (rx ++ [x00])) h1 in
  (Nodes.request JSON_stringify make h).2 = promises h
  /\ trace h1 = trace h ++ [Write s (encapsulate JSON_stringify
                                       (stamped (make (lastId h)) (lastId h)));
                            SetTimeout (promises h) (10 * 1000)]
  /\ settled h1 !! promises h = None
  /\ settled h2 !! promises h = Some (completion_of version (JObj fs)).
Proof.
  intros Hmake Hsocket [Hreactions Hresumptions] [_ Hbelow] Hfresh Hs' Hrx Hparse Hid Hmatch
    Hmethod Herror h1 h2.
  set (rq := {| rq_id := lastId h; rq_promise := promises h; rq_then := None |}).
  assert ((Nodes.request JSON_stringify make h).2 = promises h
          /\ trace h1 = trace h ++ [Write s (encapsulate JSON_stringify
                                               (stamped (make (lastId h)) (lastId h)));
                                    SetTimeout (promises h) (10 * 1000)]
          /\ settled h1 = settled h /\ listeners h1 = listeners h ++ [rq]
          /\ sockets h1 = sockets h /\ reactions h1 = [] /\ resumptions h1 = [])
    as (Hp & Htrace & Hsettled & Hlisteners & Hsockets & Hr1 & Hq1).
  { subst h1. unfold Nodes.request, reserveId, send, stamp.
    cbn [socket set_lastId]. rewrite Hsocket, (Hmake (lastId h)).
    unfold send_continue, stamped. cbn. split_and!; try done. by rewrite <- app_assoc. }
  split; [exact Hp|]. split; [exact Htrace|]. split; [by rewrite Hsettled|].
  assert (forall r, r ∈ listeners h -> is_number (Some i) (rq_id r) = false) as Hothers.
  { intros r Hr. apply not_true_is_false. intros Hr'.
    pose proof (is_number_inj (Some i) _ _ Hr' Hmatch) as Heq.
    unfold pending_ids in Hbelow. apply Forall_app in Hbelow as [Hbelow _].
    rewrite Forall_forall in Hbelow.
    assert (rq_id r ∈ map rq_id (listeners h)) as Hin
        by (apply list_elem_of_In, in_map, list_elem_of_In, Hr).
    specialize (Hbelow _ Hin). cbn in Hbelow. lia. }
  assert (receive JSON_parse ToNumber version (rx ++ [x00]) h1
          = complete version (JObj fs) rq (log (Emit_package (JObj fs)) h1)) as Hanswer.
  { rewrite receive_single by exact Hrx.
    unfold frame. rewrite Hparse. unfold dispatch, bind.
    assert (notification ToNumber (JObj fs) h1 = (h1, Normal tt)) as ->
        by (unfold notification, bind, lift; cbn [has_property]; by rewrite Hmethod).
    rewrite (emit_package_spec version (JObj fs) (Some i) h1);
      [|cbn; by rewrite Hid|right; cbn; congruence].
    cbn [fst]. rewrite Hlisteners, fold_left_app.
    rewrite (respond_unmatched _ _ _ (listeners h)) by exact Hothers.
    cbn [fold_left]. unfold respond. cbn [rq_id rq]. by rewrite Hmatch. }
  subst h2. unfold step, handle.
  rewrite bool_decide_eq_true_2 by (by rewrite Hsockets). rewrite Hanswer.
  assert (settled (complete version (JObj fs) rq (log (Emit_package (JObj fs)) h1)) !! promises h
          = Some (completion_of version (JObj fs))
          /\ reactions (complete version (JObj fs) rq (log (Emit_package (JObj fs)) h1)) = []
          /\ resumptions (complete version (JObj fs) rq (log (Emit_package (JObj fs)) h1)) = [])
    as (Hdone & Hr2 & Hq2).
  { unfold complete, settle. cbn [rq_promise rq_then rq].
    cbn [settled set_listeners set_timeouts log set_trace]. rewrite Hsettled, Hfresh.
    cbn. rewrite Hr1, Hq1. split_and!; try done. apply lookup_insert_eq. }
  rewrite run_reactions_quiet by exact Hr2.
  by rewrite run_resumptions_quiet by exact Hq2.
Qed.

Lemma completion_of_settles (fs : list (string * json)) :
  assoc "error" fs ≠ Some JNull -> completion_of version (JObj fs) = settles version fs.
Proof.
  intros Herror. unfold completion_of, settles. destruct version; [reflexivity|].
  change (get (Some (JObj fs)) "error") with (Normal (assoc "error" fs)).
  destruct (assoc "error" fs) as [error|]; [|reflexivity].
  assert (error ≠ JNull) as Hnull by congruence. unfold error_of.
  destruct (get_not_null error "code" Hnull) as [code Hcode].
  destruct (get_not_null error "message" Hnull) as [message Hmessage].
  by rewrite Hcode, Hmessage.
Qed.

Lemma length_is_one (n : nat) :
  Qeq_bool (inject_Z (Z.of_nat n)) (inject_Z 1) = (n =? 1)%nat.
Proof.
  destruct (Nat.eqb_spec n 1) as [->|Hne]; [reflexivity|].
  apply not_true_is_false. intros H. apply Qeq_bool_iff in H.
  unfold Qeq in H. cbn in H. lia.
Qed.

(** X20. The input of a qsys-status node, over a stored socket: one frame
    with method StatusGet and the reserved id is written and a 10 s timer
    armed; the promise stays pending until the response with that id
    arrives and is then settled by it.  The node emits the message with
    payload = response.result ([undefined] when the response has none),
    except in the revision with QSysApiError for a response with an error,
    which is reported with node.error and nothing is emitted. *)
Theorem status_round_trip (s s' : sock) (rx : list byte) (fs : list (string * json)) (i : json)
    (h : handler) :
  socket h = Some s -> quiescent h -> ids_fresh h -> settled h !! promises h = None ->
  (s' < sockets h)%nat ->
  Forall (fun b => b ≠ x00) rx ->
  JSON_parse (string_of_list_byte rx) = Some (JObj fs) ->
  assoc "id" fs = Some i -> is_number (Some i) (lastId h) = true ->
  assoc "method" fs = None -> assoc "error" fs ≠ Some JNull ->
  let h1 := (Nodes.request JSON_stringify Nodes.status_request h).1 in
  let h2 := step' (On_data s' (rx ++ [x00])) h1 in
  trace h1 = trace h ++ [Write s (encapsulate JSON_stringify
                                    {| QsysMessage.jsonrpc := Some "2.0";
                                       QsysMessage.method := Some "StatusGet";
                                       QsysMessage.id := Some (lastId h);
                                       QsysMessage.params := Some (num 0) |});
                         SetTimeout (promises h) (10 * 1000)]
  /\ settled h1 !! promises h = None
  /\ settled h2 !! promises h = Some (settles version fs)
  /\ Nodes.status_settled (settles version fs)
     = match version, assoc "error" fs with
       | ApiError, Some error => Nodes.Report (error_of error)
       | _, _ => Nodes.Emit (assoc "result" fs)
       end.
Proof.
  intros Hsocket Hquiet Hids Hfresh Hs' Hrx Hparse Hid Hmatch Hmethod Herror h1 h2.
  destruct (request_round_trip Nodes.status_request s s' rx fs i h (fun _ => eq_refl)
              Hsocket Hquiet Hids Hfresh Hs' Hrx Hparse Hid Hmatch Hmethod Herror)
    as (_ & Htrace & Hpending & Hsettled).
  split; [exact Htrace|]. split; [exact Hpending|].
  split; [by rewrite <- completion_of_settles|].
  unfold settles. by destruct version, (assoc "error" fs).
Qed.

(** X21. The input of a qsys-named-control node, over a stored socket: a
    payload that is a string, a number or a boolean sends Control.Set with
    params {Name: codename, Value: payload, Ramp: ramp}; any other payload
    sends Control.Get with the codename split at the semicolons as params.
    When the response arrives, Set emits its result; Get emits the single
    element of a one-element array and the whole result otherwise; a
    missing or null result, and a result of length 1 that is no array,
    end in a TypeError that is reported with node.error, as is the error
    of a response in the revision with QSysApiError.  The length of a string
    is counted in UTF-16 code units. *)
Theorem named_control_round_trip (codename : string) (payload ramp : jsval)
    (s s' : sock) (rx : list byte) (fs : list (string * json)) (i : json) (h : handler) :
  socket h = Some s -> quiescent h -> ids_fresh h -> settled h !! promises h = None ->
  (s' < sockets h)%nat ->
  Forall (fun b => b ≠ x00) rx ->
  JSON_parse (string_of_list_byte rx) = Some (JObj fs) ->
  assoc "id" fs = Some i -> is_number (Some i) (lastId h) = true ->
  assoc "method" fs = None -> assoc "error" fs ≠ Some JNull ->
  let make := Nodes.named_control_request codename payload ramp in
  let h1 := (Nodes.request JSON_stringify make h).1 in
  let h2 := step' (On_data s' (rx ++ [x00])) h1 in
  let set := Nodes.is_value payload in
  trace h1 = trace h ++ [Write s (encapsulate JSON_stringify
                                    {| QsysMessage.jsonrpc := Some "2.0";
                                       QsysMessage.method :=
                                         Some (if set then "Control.Set" else "Control.Get");
                                       QsysMessage.id := Some (lastId h);
                                       QsysMessage.params :=
                                         Some (if set
                                               then JObj (("Name", JStr codename)
                                                            :: Nodes.property "Value" payload
                                                            ++ Nodes.property "Ramp" ramp)
                                               else JArr (map JStr (split_on ";" codename))) |});
                         SetTimeout (promises h) (10 * 1000)]
  /\ settled h2 !! promises h = Some (settles version fs)
  /\ Nodes.named_control_settled payload (settles version fs)
     = match version, assoc "error" fs with
       | ApiError, Some error => Nodes.Report (error_of error)
       | _, _ =>
           if set then Nodes.Emit (assoc "result" fs)
           else match assoc "result" fs with
                | Some (JArr [value]) => Nodes.Emit (Some value)
                | Some (JArr values) => Nodes.Emit (Some (JArr values))
                | Some (JStr text) =>
                    if (length (units text) =? 1)%nat then Nodes.Report JsTypeError
                    else Nodes.Emit (Some (JStr text))
                | Some (JObj fields) =>
                    if is_number (assoc "length" fields) 1 then Nodes.Report JsTypeError
                    else Nodes.Emit (Some (JObj fields))
                | Some JNull | None => Nodes.Report JsTypeError
                | Some value => Nodes.Emit (Some value)
                end
       end.
Proof.
  intros Hsocket Hquiet Hids Hfresh Hs' Hrx Hparse Hid Hmatch Hmethod Herror make h1 h2 set.
  assert (forall id, QsysMessage.id (make id) = Some id) as Hmake
      by (intros id; unfold make, Nodes.named_control_request; by destruct (Nodes.is_value payload)).
  destruct (request_round_trip make s s' rx fs i h Hmake
              Hsocket Hquiet Hids Hfresh Hs' Hrx Hparse Hid Hmatch Hmethod Herror)
    as (_ & Htrace & Hpending & Hsettled).
  split_and!.
  - fold h1 in Htrace. rewrite Htrace. unfold stamped, make, Nodes.named_control_request, set.
    by destruct (Nodes.is_value payload).
  - by rewrite <- completion_of_settles.
  - unfold settles, set. destruct version, (assoc "error" fs) as [error|]; try reflexivity.
    all: unfold Nodes.named_control_settled; cbn [get];
      destruct (Nodes.is_value payload); try reflexivity;
      destruct (assoc "result" fs) as [[| | | |l|fields]|]; cbn; try reflexivity.
    all: try (destruct l as [|x [|y l]]; cbn; try reflexivity).
    all: by rewrite length_is_one.
Qed.

(** X22. The input of a qsys-snapshot node, over a stored socket: one
    frame with method Snapshot.<action> and params {Name: bank, Bank:
    payload, Ramp: ramp} is written under the reserved id; when the
    response arrives the node never emits a message: it reports the error
    of a response in the revision with QSysApiError and does nothing
    otherwise. *)
Theorem snapshot_round_trip (bank action : string) (payload ramp : jsval)
    (s s' : sock) (rx : list byte) (fs : list (string * json)) (i : json) (h : handler) :
  socket h = Some s -> quiescent h -> ids_fresh h -> settled h !! promises h = None ->
  (s' < sockets h)%nat ->
  Forall (fun b => b ≠ x00) rx ->
  JSON_parse (string_of_list_byte rx) = Some (JObj fs) ->
  assoc "id" fs = Some i -> is_number (Some i) (lastId h) = true ->
  assoc "method" fs = None -> assoc "error" fs ≠ Some JNull ->
  let make := Nodes.snapshot_request bank action payload ramp in
  let h1 := (Nodes.request JSON_stringify make h).1 in
  let h2 := step' (On_data s' (rx ++ [x00])) h1 in
  trace h1 = trace h ++ [Write s (encapsulate JSON_stringify
                                    {| QsysMessage.jsonrpc := Some "2.0";
                                       QsysMessage.method := Some ("Snapshot." ++ action)%string;
                                       QsysMessage.id := Some (lastId h);
                                       QsysMessage.params :=
                                         Some (JObj (("Name", JStr bank)
                                                       :: Nodes.property "Bank" payload
                                                       ++ Nodes.property "Ramp" ramp)) |});
                         SetTimeout (promises h) (10 * 1000)]
  /\ settled h2 !! promises h = Some (settles version fs)
  /\ Nodes.snapshot_settled (settles version fs)
     = match version, assoc "error" fs with
       | ApiError, Some error => Nodes.Report (error_of error)
       | _, _ => Nodes.Nothing
       end.
Proof.
  intros Hsocket Hquiet Hids Hfresh Hs' Hrx Hparse Hid Hmatch Hmethod Herror make h1 h2.
  destruct (request_round_trip make s s' rx fs i h (fun _ => eq_refl)
              Hsocket Hquiet Hids Hfresh Hs' Hrx Hparse Hid Hmatch Hmethod Herror)
    as (_ & Htrace & Hpending & Hsettled).
  split; [exact Htrace|]. split; [by rewrite <- completion_of_settles|].
  unfold settles. by destruct version, (assoc "error" fs).
Qed.

End RoundTrip.
(** The socket is stored; the device refuses the StatusGet of the node. *)
Lemma status_round_trip_witness :
  let h := Demo.run ApiError false [Call_getSocket; On_connect 0] new_handler in
  let rx := Demo.bytes "{'jsonrpc':'2.0','id':0,'error':{'code':-32601,'message':'unknown'}}" in
  let fs := [("jsonrpc", JStr "2.0"); ("id", num 0);
             ("error", JObj [("code", num (-32601)); ("message", JStr "unknown")])] in
  let h1 := (Nodes.request Runtime.stringify Nodes.status_request h).1 in
  let h2 := Demo.step ApiError false (On_data 0 (rx ++ [x00])) h1 in
  socket h = Some 0%nat
  /\ settled h1 !! promises h = None
  /\ settled h2 !! promises h = Some (settles ApiError fs)
  /\ Nodes.status_settled (settles ApiError fs)
     = Nodes.Report (QSysApiError (Some (num (-32601))) (Some (JStr "unknown"))).
Proof.
  intros h rx fs h1 h2.
  assert (socket h = Some 0%nat) as Hsocket by (vm_compute; reflexivity).
  assert (quiescent h) as Hquiet by (split; vm_compute; reflexivity).
  assert (ids_fresh h) as Hids by (split; vm_compute; constructor).
  assert (settled h !! promises h = None) as Hfresh by (vm_compute; reflexivity).
  assert (0 < sockets h)%nat as Hs by (vm_compute; lia).
  assert (Forall (fun b => b ≠ x00) rx) as Hrx by (vm_compute; no_delimiter).
  assert (Reader.json_parse (string_of_list_byte rx) = Some (JObj fs))
    as Hparse by (vm_compute; reflexivity).
  assert (is_number (Some (num 0)) (lastId h) = true) as Hmatch by (vm_compute; reflexivity).
  assert (assoc "error" fs ≠ Some JNull) as Herror by (vm_compute; discriminate).
  destruct (status_round_trip Reader.json_parse Runtime.stringify Runtime.to_number ApiError
              (Demo.config false) "Core" (Some "admin") (Some "secret") "core" "1710"
              0%nat 0%nat rx fs (num 0) h Hsocket Hquiet Hids Hfresh Hs Hrx Hparse
              eq_refl Hmatch eq_refl Herror)
    as (_ & Hpending & Hsettled & Hreaction).
  split; [exact Hsocket|]. split; [exact Hpending|]. split; [exact Hsettled|].
  exact Hreaction.
Defined.

(** A Control.Get of one control: the node emits the control, not the
    array.  A result that is a string of one character has length 1 and no
    [pop]: the node reports a TypeError. *)
Lemma named_control_round_trip_witness :
  let h := Demo.run ApiError false [Call_getSocket; On_connect 0] new_handler in
  let rx := Demo.bytes "{'jsonrpc':'2.0','id':0,'result':[{'Name':'gain','Value':-12}]}" in
  let control := JObj [("Name", JStr "gain"); ("Value", num (-12))] in
  let fs := [("jsonrpc", JStr "2.0"); ("id", num 0); ("result", JArr [control])] in
  let rx' := Demo.bytes "{'jsonrpc':'2.0','id':0,'result':'é'}" in
  let fs' := [("jsonrpc", JStr "2.0"); ("id", num 0); ("result", JStr "é")] in
  let make := Nodes.named_control_request "gain" None None in
  let h1 := (Nodes.request Runtime.stringify make h).1 in
  let h2 := Demo.step ApiError false (On_data 0 (rx ++ [x00])) h1 in
  let h2' := Demo.step ApiError false (On_data 0 (rx' ++ [x00])) h1 in
  settled h2 !! promises h = Some (Fulfilled (JObj fs))
  /\ Nodes.named_control_settled None (Fulfilled (JObj fs)) = Nodes.Emit (Some control)
  /\ settled h2' !! promises h = Some (Fulfilled (JObj fs'))
  /\ Nodes.named_control_settled None (Fulfilled (JObj fs')) = Nodes.Report JsTypeError.
Proof.
  intros h rx control fs rx' fs' make h1 h2 h2'.
  assert (socket h = Some 0%nat) as Hsocket by (vm_compute; reflexivity).
  assert (quiescent h) as Hquiet by (split; vm_compute; reflexivity).
  assert (ids_fresh h) as Hids by (split; vm_compute; constructor).
  assert (settled h !! promises h = None) as Hfresh by (vm_compute; reflexivity).
  assert (0 < sockets h)%nat as Hs by (vm_compute; lia).
  assert (is_number (Some (num 0)) (lastId h) = true) as Hmatch by (vm_compute; reflexivity).
  assert (Forall (fun b => b ≠ x00) rx) as Hrx by (vm_compute; no_delimiter).
  assert (Reader.json_parse (string_of_list_byte rx) = Some (JObj fs))
    as Hparse by (vm_compute; reflexivity).
  assert (assoc "error" fs ≠ Some JNull) as Herror by (vm_compute; discriminate).
  assert (Forall (fun b => b ≠ x00) rx') as Hrx' by (vm_compute; no_delimiter).
  assert (Reader.json_parse (string_of_list_byte rx') = Some (JObj fs'))
    as Hparse' by (vm_compute; reflexivity).
  assert (assoc "error" fs' ≠ Some JNull) as Herror' by (vm_compute; discriminate).
  destruct (named_control_round_trip Reader.json_parse Runtime.stringify Runtime.to_number
              ApiError (Demo.config false) "Core" (Some "admin") (Some "secret") "core" "1710"
              "gain" None None 0%nat 0%nat rx fs (num 0) h Hsocket Hquiet Hids Hfresh Hs Hrx
              Hparse eq_refl Hmatch eq_refl Herror)
    as (_ & Hsettled & Hreaction).
  destruct (named_control_round_trip Reader.json_parse Runtime.stringify Runtime.to_number
              ApiError (Demo.config false) "Core" (Some "admin") (Some "secret") "core" "1710"
              "gain" None None 0%nat 0%nat rx' fs' (num 0) h Hsocket Hquiet Hids Hfresh Hs Hrx'
              Hparse' eq_refl Hmatch eq_refl Herror')
    as (_ & Hsettled' & Hreaction').
  split; [exact Hsettled|]. split; [exact Hreaction|]. split; [exact Hsettled'|exact Hreaction'].
Defined.

(** Loading bank 2 of a snapshot: the response is not passed on. *)
Lemma snapshot_round_trip_witness :
  let h := Demo.run Correlator false [Call_getSocket; On_connect 0] new_handler in
  let rx := Demo.bytes "{'jsonrpc':'2.0','id':0,'result':true}" in
  let fs := [("jsonrpc", JStr "2.0"); ("id", num 0); ("result", JBool true)] in
  let make := Nodes.snapshot_request "scenes" "Load" (Some (num 2)) None in
  let h1 := (Nodes.request Runtime.stringify make h).1 in
  let h2 := Demo.step Correlator false (On_data 0 (rx ++ [x00])) h1 in
  settled h2 !! promises h = Some (Fulfilled (JObj fs))
  /\ Nodes.snapshot_settled (Fulfilled (JObj fs)) = Nodes.Nothing.
Proof.
  intros h rx fs make h1 h2.
  assert (socket h = Some 0%nat) as Hsocket by (vm_compute; reflexivity).
  assert (quiescent h) as Hquiet by (split; vm_compute; reflexivity).
  assert (ids_fresh h) as Hids by (split; vm_compute; constructor).
  assert (settled h !! promises h = None) as Hfresh by (vm_compute; reflexivity).
  assert (0 < sockets h)%nat as Hs by (vm_compute; lia).
  assert (Forall (fun b => b ≠ x00) rx) as Hrx by (vm_compute; no_delimiter).
  assert (Reader.json_parse (string_of_list_byte rx) = Some (JObj fs))
    as Hparse by (vm_compute; reflexivity).
  assert (is_number (Some (num 0)) (lastId h) = true) as Hmatch by (vm_compute; reflexivity).
  assert (assoc "error" fs ≠ Some JNull) as Herror by (vm_compute; discriminate).
  destruct (snapshot_round_trip Reader.json_parse Runtime.stringify Runtime.to_number
              Correlator (Demo.config false) "Core" (Some "admin") (Some "secret") "core" "1710"
              "scenes" "Load" (Some (num 2)) None 0%nat 0%nat rx fs (num 0) h Hsocket Hquiet
              Hids Hfresh Hs Hrx Hparse eq_refl Hmatch eq_refl Herror)
    as (_ & Hsettled & Hreaction).
  split; [exact Hsettled|exact Hreaction].
Defined.

(** ** A failed Logon *)

Lemma filter_promise (rq : request) (l : list request) :
  NoDup (map rq_promise l) -> rq ∈ l ->
  filter (fun r => rq_promise r = rq_promise rq) l = [rq].
Proof.
  induction l as [|a l IH]; intros Hnd Hin; [by apply elem_of_nil in Hin|].
  cbn [map] in Hnd. apply NoDup_cons in Hnd as [Ha Hnd]. rewrite filter_cons.
  assert (forall r, r ∈ l -> rq_promise r ∈ map rq_promise l) as Hmap
      by (intros r Hr; by apply list_elem_of_In, in_map, list_elem_of_In).
  apply elem_of_cons in Hin as [->|Hin].
  - rewrite decide_True by done. f_equal.
    clear IH Hnd. induction l as [|b l IH]; [reflexivity|].
    rewrite filter_cons. destruct (decide (rq_promise b = rq_promise a)) as [Heq|Hne].
    + exfalso. apply Ha. rewrite <- Heq. apply Hmap, elem_of_cons. by left.
    + apply IH.
      * intros Hin. apply Ha. cbn. apply elem_of_cons. by right.
      * intros r Hr. apply list_elem_of_In, in_map, list_elem_of_In, Hr.
  - rewrite decide_False; [by apply IH|].
    intros Heq. apply Ha. rewrite Heq. by apply Hmap.
Qed.

(** A response that only the registered request [rq] matches. *)
Lemma respond_once version (data : json) (i : jsval) (rq : request) (ls : list request)
    (h : handler) :
  NoDup (map rq_promise ls) -> rq ∈ ls -> is_number i (rq_id rq) = true ->
  (forall r, r ∈ ls -> is_number i (rq_id r) = true -> r = rq) ->
  fold_left (respond version data i) ls h = complete version data rq h.
Proof.
  intros Hnd Hin Hmatch Honly.
  destruct (list_elem_of_split _ _ Hin) as (l1 & l2 & ->).
  rewrite map_app in Hnd. cbn [map] in Hnd.
  apply NoDup_app in Hnd as (_ & Hl1 & Hl2). apply NoDup_cons in Hl2 as [Hl2 _].
  assert (forall r, r ∈ l1 ++ l2 -> is_number i (rq_id r) = false) as Hothers.
  { intros r Hr. apply not_true_is_false. intros Hr'.
    assert (r = rq) as ->.
    { apply Honly; [|done]. apply elem_of_app in Hr as [Hr|Hr].
      - apply elem_of_app. by left.
      - apply elem_of_app. right. apply elem_of_cons. by right. }
    apply elem_of_app in Hr as [Hr|Hr].
    - apply (Hl1 (rq_promise rq)); [|apply elem_of_cons; by left].
      by apply list_elem_of_In, in_map, list_elem_of_In.
    - apply Hl2. by apply list_elem_of_In, in_map, list_elem_of_In. }
  rewrite fold_left_app.
  rewrite (respond_unmatched _ _ _ l1) by (intros r Hr; apply Hothers, elem_of_app; by left).
  cbn [fold_left]. unfold respond at 2. rewrite Hmatch.
  apply respond_unmatched. intros r Hr. apply Hothers, elem_of_app. by right.
Qed.

Section LogonFailure.

Variable JSON_parse : string -> option json.
Variable JSON_stringify : QsysMessage.t -> string.
Variable ToNumber : json -> option Q.
Variable version : revision.
Variable config : Config.
Variable name : string.
Variables username password : option string.
Variables target_host target_port : string.

Local Abbreviation handle' :=
  (handle JSON_parse JSON_stringify ToNumber version config name username password
          target_host target_port).
Local Abbreviation step' :=
  (step JSON_parse JSON_stringify ToNumber version config name username password
        target_host target_port).
Local Abbreviation run' :=
  (run JSON_parse JSON_stringify ToNumber version config name username password
       target_host target_port).

Hypothesis authentication_on : authentication_enabled config = true.

(** The event settles the promise of the Logon and queues the reaction of
    the ready handler. *)
Lemma settled_by_handle (s : sock) (rq : request) (e : event) (o : outcome)
    (announced : list effect) (h : handler) :
  logon_pending s rq h ->
  settled_by JSON_parse version name rq h e o announced ->
  let H := handle' e h in
  reactions H = [(s, o)]
  /\ settled H = <[rq_promise rq := o]> (settled h)
  /\ trace H = trace h ++ announced
  /\ socket H = socket h /\ attempts H = attempts h /\ waiting H = waiting h
  /\ statusCallbacks H = statusCallbacks h /\ resumptions H = []
  /\ (forall r, r ∈ listeners H -> r ∈ listeners h)
  /\ (forall r, r ∈ timeouts H -> r ∈ timeouts h).
Proof.
  intros (Hthen & Hinl & Hint & Hnone & Hndl & Hndt & Hmarked & Hsock & Hatt & Hreact & Hresum)
    Hby. cbn zeta.
  assert (forall (P : request -> Prop) `{!forall r, Decision (P r)} (l : list request) r,
            r ∈ filter P l -> r ∈ l) as Hsub
      by (intros P ? l r Hr; by apply list_elem_of_filter in Hr as [_ ?]).
  destruct Hby as [|s' rx fs i Hs' Hrx Hparse Hmethod Hid Hmatch Honly Herror].
  - cbn [handle]. unfold timer_fired. rewrite (filter_promise rq _ Hndt Hint).
    unfold settle. cbn [settled set_timeouts]. rewrite Hnone, Hthen.
    cbn. rewrite Hreact. split_and!; try done.
    + by rewrite app_nil_r.
    + apply Hsub.
  - cbn [handle]. rewrite bool_decide_eq_true_2 by exact Hs'.
    rewrite receive_single by exact Hrx.
    unfold frame. rewrite Hparse. unfold dispatch, bind.
    assert (notification ToNumber (JObj fs) h = (h, Normal tt)) as ->
        by (unfold notification, bind, lift; cbn [has_property]; by rewrite Hmethod).
    rewrite (emit_package_spec version (JObj fs) (Some i) h);
      [|cbn; by rewrite Hid|right; cbn; congruence].
    cbn [fst].
    rewrite (respond_once version (JObj fs) (Some i) rq (listeners h)); try done.
    unfold complete, settle. cbn [settled set_listeners set_timeouts log set_trace].
    rewrite Hnone, Hthen. cbn. rewrite Hreact. split_and!; try done.
    + by rewrite <- app_assoc.
    + apply Hsub.
    + apply Hsub.
Qed.

(** The ready event of [s] puts the Logon under way. *)
Lemma ready_starts_logon (s : sock) (h : handler) :
  (s < sockets h)%nat -> quiescent h ->
  socket h ≠ Some s -> attempts h !! s = None ->
  NoDup (map rq_promise (listeners h)) -> NoDup (map rq_promise (timeouts h)) ->
  (forall r, r ∈ listeners h ++ timeouts h ->
             (rq_promise r < promises h)%nat /\ rq_then r ≠ Some s) ->
  settled h !! promises h = None ->
  logon_pending s {| rq_id := lastId h; rq_promise := promises h; rq_then := Some s |}
    (step' (On_ready s) h).
Proof.
  intros Hs Hquiet Hsock Hatt Hndl Hndt Hold Hnone.
  rewrite (ready_spec JSON_parse JSON_stringify ToNumber version config name username password
             target_host target_port s h authentication_on Hs Hquiet).
  destruct Hquiet as [Hreact Hresum].
  set (rq := {| rq_id := lastId h; rq_promise := promises h; rq_then := Some s |}).
  set (mark := fun r => if bool_decide (rq_promise r = promises h)
                        then {| rq_id := rq_id r; rq_promise := promises h; rq_then := Some s |}
                        else r).
  assert (forall l : list request,
            (forall r, r ∈ l -> (rq_promise r < promises h)%nat /\ rq_then r ≠ Some s) ->
            map mark l = l) as Hmark.
  { induction l as [|r l IH]; intros Hl; [reflexivity|]. cbn [map].
    rewrite IH by (intros r' Hr'; apply Hl, elem_of_cons; by right).
    f_equal. unfold mark. rewrite bool_decide_eq_false_2; [done|].
    destruct (Hl r) as [Hlt _]; [apply elem_of_cons; by left|lia]. }
  assert (forall l : list request,
            (forall r, r ∈ l -> (rq_promise r < promises h)%nat /\ rq_then r ≠ Some s) ->
            NoDup (map rq_promise l) -> NoDup (map rq_promise (l ++ [rq]))) as Hnd.
  { intros l Hl Hl'. rewrite map_app. apply NoDup_app. split; [exact Hl'|]. split.
    - intros p Hp Hp'. apply list_elem_of_singleton in Hp'. subst p.
      apply list_elem_of_In, in_map_iff in Hp as (r & Hr & Hin).
      apply list_elem_of_In, Hl in Hin as [Hlt _]. cbn in Hr. lia.
    - cbn. apply NoDup_singleton. }
  assert (forall r, r ∈ listeners h -> (rq_promise r < promises h)%nat /\ rq_then r ≠ Some s)
    as Holdl by (intros r Hr; apply Hold, elem_of_app; by left).
  assert (forall r, r ∈ timeouts h -> (rq_promise r < promises h)%nat /\ rq_then r ≠ Some s)
    as Holdt by (intros r Hr; apply Hold, elem_of_app; by right).
  assert (listeners (attach_then (promises h) s
            (send_continue JSON_stringify (logon_request username password (lastId h)) (lastId h)
               (promises h) s (set_promises (S (promises h))
                                 (set_lastId (increment (lastId h)) h))))
          = listeners h ++ [rq]) as Hl.
  { unfold attach_then, send_continue. cbn. rewrite map_app. fold mark.
    rewrite (Hmark _ Holdl). cbn. unfold mark. by rewrite bool_decide_eq_true_2. }
  assert (timeouts (attach_then (promises h) s
            (send_continue JSON_stringify (logon_request username password (lastId h)) (lastId h)
               (promises h) s (set_promises (S (promises h))
                                 (set_lastId (increment (lastId h)) h))))
          = timeouts h ++ [rq]) as Ht.
  { unfold attach_then, send_continue. cbn. rewrite map_app. fold mark.
    rewrite (Hmark _ Holdt). cbn. unfold mark. by rewrite bool_decide_eq_true_2. }
  unfold logon_pending, quiescent. rewrite Hl, Ht. split_and!.
  - reflexivity.
  - apply elem_of_app. right. apply list_elem_of_singleton. reflexivity.
  - apply elem_of_app. right. apply list_elem_of_singleton. reflexivity.
  - exact Hnone.
  - by apply Hnd.
  - by apply Hnd.
  - intros r Hr Hthen.
    repeat (apply elem_of_app in Hr as [Hr|Hr]);
      try (by apply list_elem_of_singleton in Hr);
      [by destruct (Holdl r Hr)|by destruct (Holdt r Hr)].
  - exact Hsock.
  - exact Hatt.
  - exact Hreact.
  - exact Hresum.
Qed.

(** C7.  With authentication enabled, while the Logon of socket [s] is
    under way: when its promise is rejected by the timer of the request, or a
    response to it arrives that has an error, the ready handler of [s] calls
    [handleReject].  Every registered status callback is called with "Error"
    and the error, the connection promise of the attempt is rejected with it
    and cleared, the calls of [send] that waited for the attempt are rejected,
    and [this.socket] is not assigned.  Whatever happens afterwards, short of
    a second ready event of [s] (and a late response to a Logon that timed
    out, whose listener is still registered, included), [s] is never stored
    as the socket of the handler and the promise of its attempt stays
    rejected. *)
Theorem logon_failure_refuses_connection (s : sock) (rq : request) (e : event) (o : outcome)
    (announced : list effect) (h : handler) (es : list event) :
  logon_pending s rq h ->
  settled_by JSON_parse version name rq h e o announced ->
  failed o ->
  Forall (fun e' => e' ≠ On_ready s) es ->
  let error := failure_of version o in
  let h1 := step' e h in
  let h2 := run' es h1 in
  settled h1 !! rq_promise rq = Some o
  /\ trace h1 = trace h ++ announced
                        ++ map (fun k => StatusCallback k (socket h) Error (Some error))
                               (statusCallbacks h)
  /\ connectionPromise h1 = None
  /\ socket h1 = socket h
  /\ attempts h1 !! s = Some (Rejected error)
  /\ (forall w, w ∈ waiting_for s h -> settled h !! sp_promise w = None ->
        sp_promise w ≠ rq_promise rq ->
        settled h1 !! sp_promise w = Some (Rejected error))
  /\ socket h2 ≠ Some s
  /\ attempts h2 !! s = Some (Rejected error).
Proof.
  intros Hpending Hby Hfailed Hes error h1 h2.
  destruct (settled_by_handle s rq e o announced h Hpending Hby)
    as (Hreact & Hsettled & Htrace & Hsocket & Hattempts & Hwaiting & Hcallbacks & Hresum
        & Hlisteners & Htimeouts).
  destruct Hpending as (Hthen & Hinl & Hint & Hnone & Hndl & Hndt & Hmarked & Hsock & Hatt & _).
  set (H := set_reactions [] (handle' e h)).
  assert (h1 = run_resumptions JSON_stringify (handleReject s error H)) as Hh1.
  { subst h1. unfold step. f_equal. unfold run_reactions. rewrite Hreact. cbn [fold_left].
    by rewrite (logon_settled_failed version s o _ Hfailed). }
  assert (attempts H !! s = None) as HattH by (subst H; cbn; by rewrite Hattempts).
  destruct (handleReject_spec s error H HattH) as (Ht & Hc & Hs1 & Ha & Hr & Hl & Hto & Hq).
  destruct (handleReject_waiting s error H HattH) as [Hw Hd].
  set (h0 := handleReject s error H) in *.
  assert (resumptions h0 = map (fun w => (w, Rejected error)) (waiting_for s h)) as Hr'.
  { rewrite Hr. subst H. cbn [resumptions waiting set_reactions]. rewrite Hresum, Hwaiting.
    reflexivity. }
  assert (h1 = fold_left (fun h' r => resume JSON_stringify r h')
                 (map (fun w => (w, Rejected error)) (waiting_for s h)) (set_resumptions [] h0))
    as Heq by (rewrite Hh1; unfold run_resumptions; by rewrite Hr').
  destruct (reject_fold JSON_stringify error (waiting_for s h) (set_resumptions [] h0))
    as (Hin & Hkeep & Ht2 & Hl2 & Hto2 & Hs2 & Hc2 & Ha2 & Hw2 & Hr2 & Hq2).
  set (h1' := fold_left (fun h' r => resume JSON_stringify r h')
                (map (fun w => (w, Rejected error)) (waiting_for s h)) (set_resumptions [] h0))
    in *.
  clear Hh1. clearbody h1. subst h1.
  assert (settled h0 = <[rq_promise rq := o]> (settled h)) as Hd0
      by (rewrite Hd; subst H; cbn; exact Hsettled).
  assert (settled h1' !! rq_promise rq = Some o) as Hdone.
  { apply Hkeep. cbn [settled set_resumptions]. rewrite Hd0. apply lookup_insert_eq. }
  assert (socket h1' = socket h) as Hsocket1
      by (rewrite Hs2; cbn [socket set_resumptions]; rewrite Hs1; subst H; cbn; exact Hsocket).
  assert (attempts h1' !! s = Some (Rejected error)) as Hattempt1
      by (rewrite Ha2; cbn [attempts set_resumptions]; exact Ha).
  assert (refused s (rq_promise rq) error h1') as Hrefused.
  { unfold refused, logon_over. split_and!.
    - by rewrite Hsocket1.
    - exact Hattempt1.
    - by rewrite Hdone.
    - rewrite Hl2. cbn [listeners set_resumptions]. rewrite Hl. subst H.
      cbn [listeners set_reactions]. apply Forall_forall. intros r Hr0 Hr1.
      rewrite (Hmarked r); [done| |done]. apply elem_of_app. left. by apply Hlisteners.
    - rewrite Hto2. cbn [timeouts set_resumptions]. rewrite Hto. subst H.
      cbn [timeouts set_reactions]. apply Forall_forall. intros r Hr0 Hr1.
      rewrite (Hmarked r); [done| |done]. apply elem_of_app. right. by apply Htimeouts.
    - rewrite Hq2. cbn [reactions set_resumptions]. rewrite Hq. subst H. cbn. constructor. }
  apply (refused_run JSON_parse JSON_stringify ToNumber version config name username password
           target_host target_port authentication_on s (rq_promise rq) error es _ Hes)
    in Hrefused as (Hsf & Haf & _).
  split_and!.
  - exact Hdone.
  - rewrite Ht2. cbn [trace set_resumptions]. rewrite Ht. subst H.
    cbn [trace socket statusCallbacks set_reactions]. rewrite Htrace, Hsocket, Hcallbacks.
    by rewrite <- app_assoc.
  - rewrite Hc2. exact Hc.
  - exact Hsocket1.
  - exact Hattempt1.
  - intros w Hw0 Hnone0 Hne. apply Hin; [exact Hw0|].
    cbn [settled set_resumptions]. rewrite Hd0. by rewrite lookup_insert_ne.
  - exact Hsf.
  - exact Haf.
Qed.

End LogonFailure.
(** The Logon of socket 0 is not answered within 10 seconds, while a status
    callback is registered and a [send] waits for the connection; the
    answer arrives late. *)
Lemma logon_failure_refuses_connection_witness :
  let h := Demo.run Correlator true
             [Call_registerStatusCallback "status"; Call_send (Demo.request "StatusGet" 5) None;
              On_connect 0] new_handler in
  let rq := {| rq_id := 0; rq_promise := 1; rq_then := Some 0%nat |} in
  let h0 := Demo.step Correlator true (On_ready 0) h in
  let h1 := Demo.step Correlator true (Timer 1) h0 in
  let late := Demo.framed "{'jsonrpc':'2.0','id':0,'result':true}" in
  let h2 := Demo.run Correlator true [On_data 0 late; On_connect 0] h1 in
  let error := timeout_error "Core" in
  listeners h0 = [rq]
  /\ listeners h1 = [rq]
  /\ trace h1 = trace h0 ++ [StatusCallback "status" None Error (Some error)]
  /\ settled h1 !! 1%nat = Some (Rejected error)
  /\ settled h1 !! 0%nat = Some (Rejected error)
  /\ listeners h2 = []
  /\ socket h2 ≠ Some 0%nat
  /\ attempts h2 !! 0%nat = Some (Rejected error).
Proof.
  intros h rq h0 h1 late h2 error.
  assert (logon_pending 0 rq h0) as Hpending.
  { assert (rq = {| rq_id := lastId h; rq_promise := promises h; rq_then := Some 0%nat |})
      as -> by (vm_compute; reflexivity).
    apply (ready_starts_logon Reader.json_parse Runtime.stringify Runtime.to_number Correlator
             (Demo.config true) "Core" (Some "admin") (Some "secret") "core" "1710" eq_refl).
    - vm_compute. lia.
    - split; vm_compute; reflexivity.
    - vm_compute. discriminate.
    - vm_compute. reflexivity.
    - vm_compute. constructor.
    - vm_compute. constructor.
    - intros r Hr. assert (listeners h ++ timeouts h = []) as Hnil by (vm_compute; reflexivity).
      rewrite Hnil in Hr. by apply elem_of_nil in Hr.
    - vm_compute. reflexivity. }
  assert (Forall (fun e => e ≠ On_ready 0) [On_data 0 late; On_connect 0]) as Hes
      by (by repeat constructor).
  destruct (logon_failure_refuses_connection Reader.json_parse Runtime.stringify
              Runtime.to_number Correlator (Demo.config true) "Core" (Some "admin")
              (Some "secret") "core" "1710" eq_refl 0%nat rq (Timer 1) (Rejected error) [] h0
              [On_data 0 late; On_connect 0] Hpending
              (by_timer Reader.json_parse Correlator "Core" rq h0) I Hes)
    as (Hsettled & Htrace & _ & _ & _ & Hwaiting & Hs2 & Ha2).
  split; [vm_compute; reflexivity|]. split; [vm_compute; reflexivity|].
  split; [vm_compute; reflexivity|]. split; [exact Hsettled|].
  split.
  { apply (Hwaiting {| sp_attempt := 0%nat;
                       sp_input := {| QsysMessage.jsonrpc := Some "2.0";
                                      QsysMessage.method := Some "StatusGet";
                                      QsysMessage.id := Some 5;
                                      QsysMessage.params := Some (num 0) |};
                       sp_id := 5; sp_promise := 0%nat |}).
    - vm_compute. apply list_elem_of_here.
    - vm_compute. reflexivity.
    - vm_compute. discriminate. }
  split; [vm_compute; reflexivity|]. split; [exact Hs2|exact Ha2].
Defined.
